(** * GosiUML phenomenological token store: model and verified properties

    A shallow embedding of the token store of gosilabs (the GosiUML library):

    - [include/phenomemory_platform.h]: the token record, its bit-fields and
      the lifecycle state codes;
    - [src/core/pheno_memory.c]: token creation and release, the state query
      [gosiuml_get_state] and [gosiuml_transition];
    - the state-machine sketch (file [src/cli/cli_parser.c]): the transition
      functions of the [StateMachine];
    - [quick_fix.sh] (generated [pheno_state_machine.c]):
      [calculate_degradation_score], [verify_geometric_proof];
    - the deprecated platform file: the relation block built by
      [parse_token_file].

    C objects live in a typed heap; a pointer is an optional address and the
    functions run in a state monad over the heap in which an access through
    a pointer that is not live has no result, nor has the overflow of an
    [int].  [float] and [double] are the IEEE 754 binary32 and binary64
    formats.  Two concurrent callers are modelled by interleaving the
    statements of the function they call. *)

From Stdlib Require Import ZArith QArith Lia String Bool List.
From Stdlib Require Import SpecFloat.
From stdpp Require Import base option gmap.

Local Open Scope Z_scope.

(** ** Machine integers and bit-fields *)

(** Storing into an unsigned bit-field of [w] bits (or an unsigned integer
    of that width) keeps the low [w] bits. *)
Definition bitfield (w : Z) (x : Z) : Z := Z.land x (Z.ones w).

Definition u8 (x : Z) : Z := bitfield 8 x.
Definition u32 (x : Z) : Z := bitfield 32 x.

(** ** Data model ([phenomemory_platform.h]) *)

Definition PHENO_MAX_PAYLOAD : Z := 4096.

(** Category definitions. *)
Definition NODE_IDENTITY : Z := 1.
Definition NODE_STATE : Z := 2.
Definition NODE_DEGRADATION : Z := 3.
Definition CLUSTER_TOPOLOGY : Z := 4.
Definition CLUSTER_CONSENSUS : Z := 5.
Definition FRAME_REFERENCE : Z := 6.
Definition FRAME_TRANSFORM : Z := 7.
Definition FRAME_COLLAPSE : Z := 8.

(** Addresses of heap objects; [None] is the null pointer. *)
Definition addr := positive.
Definition ptr := option addr.

Record PhenoTokenType := {
  category : Z;      (* 4 bits *)
  node_level : Z;    (* 3 bits *)
  cluster_id : Z;    (* 8 bits *)
  frame_ref : Z;     (* 8 bits *)
  degradation : Z;   (* 4 bits *)
  reserved : Z       (* 5 bits *)
}.

Record PhenoRelation := {
  subject_id : Z; subject_type : Z; subject_state : Z; subject_class : Z;
  class_id : Z; class_category : Z; class_taxonomy : Z; class_level : Z;
  instance_id : Z; instance_type : Z; instance_state : Z; instance_flags : Z;
  person_id : Z; person_role : Z; person_auth : Z; person_state : Z
}.

Record ValueHeader := {
  data_size : Z;     (* 16 bits *)
  encoding : Z;      (* 4 bits *)
  compression : Z;   (* 3 bits *)
  encrypted : Z;     (* 1 bit *)
  frame_id : Z;      (* 16 bits *)
  timestamp : Z      (* 24 bits *)
}.

Record ValueMetrics := {
  score : Z;         (* 10 bits: 0-1023 (maps to 0.0-1.0) *)
  confidence : Z;    (* 10 bits *)
  retry_count : Z;   (* 6 bits *)
  priority : Z       (* 6 bits *)
}.

Record PhenoTokenValue := {
  header : ValueHeader;
  metrics : ValueMetrics;
  data : list Z      (* raw_bytes[PHENO_MAX_PAYLOAD] *)
}.

Record MemFlags := {
  allocated : bool;
  locked : bool;
  dirty : bool;
  pinned : bool;
  shared : bool;
  coherent : bool;
  nil_state : bool;
  null_state : bool;
  ref_count : Z;      (* 8 bits *)
  mem_zone : Z;       (* 4 bits *)
  access_level : Z;   (* 4 bits *)
  mem_reserved : Z    (* 8 bits *)
}.

Record PhenoToken := {
  token_id : Z;
  token_type : Z;
  token_name : string;
  type : PhenoTokenType;
  value : ptr;
  relation : PhenoRelation;
  mem_flags : MemFlags;
  left : ptr;
  right : ptr;
  parent : ptr;
  balance_factor : Z
}.

(** State machine states ([enum PhenoState]). *)
Definition STATE_NIL : Z := 0.
Definition STATE_ALLOCATED : Z := 1.
Definition STATE_LOCKED : Z := 2.
Definition STATE_ACTIVE : Z := 3.
Definition STATE_DEGRADED : Z := 4.
Definition STATE_SHARED : Z := 5.
Definition STATE_FREED : Z := 6.

(** *** Field updates *)

Definition set_allocated (b : bool) (f : MemFlags) : MemFlags :=
  {| allocated := b; locked := locked f; dirty := dirty f; pinned := pinned f;
     shared := shared f; coherent := coherent f; nil_state := nil_state f;
     null_state := null_state f; ref_count := ref_count f;
     mem_zone := mem_zone f; access_level := access_level f;
     mem_reserved := mem_reserved f |}.

Definition set_locked (b : bool) (f : MemFlags) : MemFlags :=
  {| allocated := allocated f; locked := b; dirty := dirty f;
     pinned := pinned f; shared := shared f; coherent := coherent f;
     nil_state := nil_state f; null_state := null_state f;
     ref_count := ref_count f; mem_zone := mem_zone f;
     access_level := access_level f; mem_reserved := mem_reserved f |}.

Definition set_coherent (b : bool) (f : MemFlags) : MemFlags :=
  {| allocated := allocated f; locked := locked f; dirty := dirty f;
     pinned := pinned f; shared := shared f; coherent := b;
     nil_state := nil_state f; null_state := null_state f;
     ref_count := ref_count f; mem_zone := mem_zone f;
     access_level := access_level f; mem_reserved := mem_reserved f |}.

Definition set_ref_count (n : Z) (f : MemFlags) : MemFlags :=
  {| allocated := allocated f; locked := locked f; dirty := dirty f;
     pinned := pinned f; shared := shared f; coherent := coherent f;
     nil_state := nil_state f; null_state := null_state f;
     ref_count := bitfield 8 n; mem_zone := mem_zone f;
     access_level := access_level f; mem_reserved := mem_reserved f |}.

Definition set_mem_flags (f : MemFlags -> MemFlags) (t : PhenoToken)
  : PhenoToken :=
  {| token_id := token_id t; token_type := token_type t;
     token_name := token_name t; type := type t; value := value t;
     relation := relation t; mem_flags := f (mem_flags t);
     left := left t; right := right t; parent := parent t;
     balance_factor := balance_factor t |}.

Definition set_token_type (x : Z) (t : PhenoToken) : PhenoToken :=
  {| token_id := token_id t; token_type := u8 x;
     token_name := token_name t; type := type t; value := value t;
     relation := relation t; mem_flags := mem_flags t;
     left := left t; right := right t; parent := parent t;
     balance_factor := balance_factor t |}.

Definition set_token_name (s : string) (t : PhenoToken) : PhenoToken :=
  {| token_id := token_id t; token_type := token_type t;
     token_name := s; type := type t; value := value t;
     relation := relation t; mem_flags := mem_flags t;
     left := left t; right := right t; parent := parent t;
     balance_factor := balance_factor t |}.

Definition set_type (ty : PhenoTokenType) (t : PhenoToken) : PhenoToken :=
  {| token_id := token_id t; token_type := token_type t;
     token_name := token_name t; type := ty; value := value t;
     relation := relation t; mem_flags := mem_flags t;
     left := left t; right := right t; parent := parent t;
     balance_factor := balance_factor t |}.

Definition set_value (v : ptr) (t : PhenoToken) : PhenoToken :=
  {| token_id := token_id t; token_type := token_type t;
     token_name := token_name t; type := type t; value := v;
     relation := relation t; mem_flags := mem_flags t;
     left := left t; right := right t; parent := parent t;
     balance_factor := balance_factor t |}.

Definition set_score (s : Z) (v : PhenoTokenValue) : PhenoTokenValue :=
  {| header := header v;
     metrics := {| score := bitfield 10 s; confidence := confidence (metrics v);
                   retry_count := retry_count (metrics v);
                   priority := priority (metrics v) |};
     data := data v |}.

(** *** Zero-initialised objects, as [calloc] returns them *)

Definition zero_flags : MemFlags :=
  {| allocated := false; locked := false; dirty := false; pinned := false;
     shared := false; coherent := false; nil_state := false;
     null_state := false; ref_count := 0; mem_zone := 0; access_level := 0;
     mem_reserved := 0 |}.

Definition zero_relation : PhenoRelation :=
  {| subject_id := 0; subject_type := 0; subject_state := 0;
     subject_class := 0; class_id := 0; class_category := 0;
     class_taxonomy := 0; class_level := 0; instance_id := 0;
     instance_type := 0; instance_state := 0; instance_flags := 0;
     person_id := 0; person_role := 0; person_auth := 0; person_state := 0 |}.

Definition zero_type : PhenoTokenType :=
  {| category := 0; node_level := 0; cluster_id := 0; frame_ref := 0;
     degradation := 0; reserved := 0 |}.

Definition zero_token : PhenoToken :=
  {| token_id := 0; token_type := 0; token_name := EmptyString;
     type := zero_type; value := None; relation := zero_relation;
     mem_flags := zero_flags; left := None; right := None; parent := None;
     balance_factor := 0 |}.

Definition zero_value : PhenoTokenValue :=
  {| header := {| data_size := 0; encoding := 0; compression := 0;
                  encrypted := 0; frame_id := 0; timestamp := 0 |};
     metrics := {| score := 0; confidence := 0; retry_count := 0;
                   priority := 0 |};
     data := repeat 0 (Z.to_nat PHENO_MAX_PAYLOAD) |}.

(** ** The heap and its monad *)

(** Token records and value payloads are kept in two typed stores.
    [h_next] is the next address the allocator hands out and [h_avail] the
    number of allocations it can still satisfy: [calloc] returns the null
    pointer when it is zero. *)
Record Heap := {
  h_tokens : gmap addr PhenoToken;
  h_values : gmap addr PhenoTokenValue;
  h_next : addr;
  h_avail : nat
}.

(** A computation on the heap; [None] stands for undefined behaviour. *)
Definition M (A : Type) : Type := Heap -> option (A * Heap).

Definition ret {A} (x : A) : M A := fun h => Some (x, h).

Definition bind {A B} (m : M A) (k : A -> M B) : M B :=
  fun h => match m h with
           | Some (x, h') => k x h'
           | None => None
           end.

Definition undefined {A} : M A := fun _ => None.

Declare Scope heap_scope.
Delimit Scope heap_scope with heap.
Notation "x <- m ;; k" := (bind m (fun x => k))
  (at level 100, m at next level, right associativity) : heap_scope.
Notation "m ;; k" := (bind m (fun _ => k))
  (at level 100, right associativity) : heap_scope.
Local Open Scope heap_scope.

Definition load_token (a : addr) : M PhenoToken :=
  fun h => match h_tokens h !! a with
           | Some t => Some (t, h)
           | None => None
           end.

Definition load_value (a : addr) : M PhenoTokenValue :=
  fun h => match h_values h !! a with
           | Some v => Some (v, h)
           | None => None
           end.

(** The heap with the token (payload) at [a] replaced. *)
Definition put_token (a : addr) (t : PhenoToken) (h : Heap) : Heap :=
  {| h_tokens := <[a := t]> (h_tokens h); h_values := h_values h;
     h_next := h_next h; h_avail := h_avail h |}.

Definition put_value (a : addr) (v : PhenoTokenValue) (h : Heap) : Heap :=
  {| h_tokens := h_tokens h; h_values := <[a := v]> (h_values h);
     h_next := h_next h; h_avail := h_avail h |}.

Definition store_token (a : addr) (t : PhenoToken) : M unit :=
  fun h => match h_tokens h !! a with
           | Some _ => Some (tt, put_token a t h)
           | None => None
           end.

Definition store_value (a : addr) (v : PhenoTokenValue) : M unit :=
  fun h => match h_values h !! a with
           | Some _ => Some (tt, put_value a v h)
           | None => None
           end.

(** [token->field = ...]: read, modify, write back. *)
Definition update_token (a : addr) (f : PhenoToken -> PhenoToken) : M unit :=
  t <- load_token a ;; store_token a (f t).

Definition update_value (a : addr) (f : PhenoTokenValue -> PhenoTokenValue)
  : M unit :=
  v <- load_value a ;; store_value a (f v).

(** [calloc(1, sizeof(PhenoToken))] *)
Definition calloc_token : M ptr :=
  fun h => match h_avail h with
           | O => Some (None, h)
           | S n =>
               Some (Some (h_next h),
                     {| h_tokens := <[h_next h := zero_token]> (h_tokens h);
                        h_values := h_values h;
                        h_next := Pos.succ (h_next h); h_avail := n |})
           end.

(** [calloc(1, sizeof(PhenoTokenValue))] *)
Definition calloc_value : M ptr :=
  fun h => match h_avail h with
           | O => Some (None, h)
           | S n =>
               Some (Some (h_next h),
                     {| h_tokens := h_tokens h;
                        h_values := <[h_next h := zero_value]> (h_values h);
                        h_next := Pos.succ (h_next h); h_avail := n |})
           end.

(** [free] of a token record: freeing a block that is not live is
    undefined. *)
Definition free_token_block (a : addr) : M unit :=
  fun h => match h_tokens h !! a with
           | Some _ =>
               Some (tt, {| h_tokens := delete a (h_tokens h);
                            h_values := h_values h;
                            h_next := h_next h; h_avail := S (h_avail h) |})
           | None => None
           end.

Definition free_value_block (a : addr) : M unit :=
  fun h => match h_values h !! a with
           | Some _ =>
               Some (tt, {| h_tokens := h_tokens h;
                            h_values := delete a (h_values h);
                            h_next := h_next h; h_avail := S (h_avail h) |})
           | None => None
           end.

(** ** Token management ([pheno_memory.c]) *)

(** [strncpy(token->token_name, name, sizeof(token->token_name) - 1)] into
    the zeroed 64-byte buffer. *)
Definition strncpy_name (name : string) : string := substring 0 63 name.

Definition gosiuml_create_token (type : Z) (name : option string) : M ptr :=
  token <- calloc_token ;;
  match token with
  | None => ret None
  | Some a =>
      update_token a (set_token_type type) ;;
      match name with
      | Some s => update_token a (set_token_name (strncpy_name s))
      | None => ret tt
      end ;;
      update_token a (set_mem_flags (set_allocated true)) ;;
      update_token a (set_mem_flags (set_ref_count 1)) ;;
      v <- calloc_value ;;
      update_token a (set_value v) ;;
      ret (Some a)
  end.

Definition gosiuml_free_token (token : ptr) : M unit :=
  match token with
  | None => ret tt
  | Some a =>
      t <- load_token a ;;
      match value t with
      | Some va => free_value_block va
      | None => ret tt
      end ;;
      free_token_block a
  end.

(** ** State machine operations ([pheno_memory.c]) *)

Definition gosiuml_get_state (token : ptr) : M Z :=
  match token with
  | None => ret STATE_NIL
  | Some a =>
      t <- load_token a ;;
      if negb (allocated (mem_flags t)) then ret STATE_NIL
      else if locked (mem_flags t) then ret STATE_LOCKED
      else if shared (mem_flags t) then ret STATE_SHARED
      else match value t with
           | None => ret STATE_ACTIVE
           | Some va =>
               v <- load_value va ;;
               if 600 <? score (metrics v) then ret STATE_DEGRADED
               else ret STATE_ACTIVE
           end
  end.

Definition gosiuml_transition (token : ptr) (new_state : Z) : M Z :=
  match token with
  | None => ret (-1)
  | Some a =>
      current <- gosiuml_get_state token ;;
      if new_state =? STATE_ALLOCATED then
        if negb (current =? STATE_NIL) then ret (-1)
        else update_token a (set_mem_flags (set_allocated true)) ;; ret 0
      else if new_state =? STATE_LOCKED then
        if negb (current =? STATE_ALLOCATED) && negb (current =? STATE_ACTIVE)
        then ret (-1)
        else update_token a (set_mem_flags (set_locked true)) ;; ret 0
      else if new_state =? STATE_FREED then
        update_token a (set_mem_flags (set_allocated false)) ;;
        update_token a (set_mem_flags (set_locked false)) ;;
        ret 0
      else ret (-1)
  end.

(** ** Concurrent callers of [gosiuml_transition] *)

(** A call of [gosiuml_transition] on a token runs two statements: the
    state query into the local [current], and the [switch] that tests
    [current] and writes the flags.  A caller is before the first,
    between the two (holding its [current]), or has returned. *)
Inductive Caller : Type :=
| Entered
| Queried (current : Z)
| Returned (result : Z).

(** The [switch] of [gosiuml_transition]. *)
Definition transition_switch (a : addr) (new_state current : Z) : M Z :=
  if new_state =? STATE_ALLOCATED then
    if negb (current =? STATE_NIL) then ret (-1)
    else update_token a (set_mem_flags (set_allocated true)) ;; ret 0
  else if new_state =? STATE_LOCKED then
    if negb (current =? STATE_ALLOCATED) && negb (current =? STATE_ACTIVE)
    then ret (-1)
    else update_token a (set_mem_flags (set_locked true)) ;; ret 0
  else if new_state =? STATE_FREED then
    update_token a (set_mem_flags (set_allocated false)) ;;
    update_token a (set_mem_flags (set_locked false)) ;;
    ret 0
  else ret (-1).

(** The next statement of a caller. *)
Definition caller_step (a : addr) (new_state : Z) (c : Caller) : M Caller :=
  match c with
  | Entered =>
      current <- gosiuml_get_state (Some a) ;; ret (Queried current)
  | Queried current =>
      r <- transition_switch a new_state current ;; ret (Returned r)
  | Returned _ => ret c
  end.

(** The result a caller has returned. *)
Definition caller_result (c : Caller) : M Z :=
  match c with
  | Returned r => ret r
  | _ => undefined
  end.

(** Two callers on the same token, interleaved by a schedule ([false]
    lets the first caller run its next statement, [true] the second).
    The function uses no atomic operation and takes no lock; each of its
    two statements is taken here as one indivisible step, the reading
    most favourable to it. *)
Fixpoint run_callers (a : addr) (new_state : Z) (schedule : list bool)
  (c1 c2 : Caller) : M (Caller * Caller) :=
  match schedule with
  | [] => ret (c1, c2)
  | false :: rest =>
      c1' <- caller_step a new_state c1 ;;
      run_callers a new_state rest c1' c2
  | true :: rest =>
      c2' <- caller_step a new_state c2 ;;
      run_callers a new_state rest c1 c2'
  end.

(** ** Degradation tracker and token allocation (generated
    [pheno_state_machine.c] of [quick_fix.sh]) *)

(** C [float] is the IEEE 754 binary32 format and [double] is binary64;
    every operation rounds to nearest even in the format of its type.
    The values are those of [spec_float], the specification of the
    standard library, with 24 and 53 bits of precision. *)
Definition float := spec_float.
Definition double := spec_float.

(** The conversion of an integer, [(double) n] and [(float) n]. *)
Definition double_of_int (n : Z) : double :=
  binary_normalize 53 1024 n 0 false.

Definition float_of_int (n : Z) : float :=
  binary_normalize 24 128 n 0 false.

(** The conversions between the two formats; the widening one is exact. *)
Definition float_of_double (x : double) : float :=
  match x with
  | S754_finite s m e => binary_round 24 128 s m e
  | _ => x
  end.

Definition double_of_float (x : float) : double :=
  match x with
  | S754_finite s m e => binary_round 53 1024 s m e
  | _ => x
  end.

Definition double_div : double -> double -> double := SFdiv 53 1024.

Definition float_mul : float -> float -> float := SFmul 24 128.

(** [x > y] *)
Definition double_gt (x y : double) : bool := SFltb y x.

(** [(uint32_t) x]: the fractional part is discarded; the conversion is
    undefined when the result does not fit the type. *)
Definition uint32_of_float (x : float) : option Z :=
  match x with
  | S754_zero _ => Some 0
  | S754_finite s m e =>
      let n := cond_Zopp s (Z.shiftl (Zpos m) e) in
      if (0 <=? n) && (n <? 2 ^ 32) then Some n else None
  | _ => None
  end.

(** The rational number a finite value stands for. *)
Definition float_value (x : spec_float) : Q :=
  match x with
  | S754_finite s m e => (inject_Z (cond_Zopp s (Zpos m)) * (2 # 1) ^ e)%Q
  | _ => 0%Q
  end.

(** [score / 1023.0] narrowed to [float]: the score is converted to
    [double], divided there, and the quotient rounded to [float]. *)
Definition score_ratio (s : Z) : float :=
  float_of_double (double_div (double_of_int s) (double_of_int 1023)).

Definition verify_geometric_proof (token : ptr) : M bool :=
  match token with
  | None => ret false
  | Some a =>
      t <- load_token a ;;
      match value t with
      | None => ret false
      | Some va => v <- load_value va ;; ret (100 <? confidence (metrics v))
      end
  end.

Definition calculate_degradation_score (token : ptr) : M float :=
  match token with
  | None => ret (float_of_double (S754_zero false))
  | Some a =>
      t <- load_token a ;;
      match value t with
      | None => ret (float_of_double (S754_zero false))
      | Some va =>
          v <- load_value va ;;
          ret (score_ratio (score (metrics v)))
      end
  end.

Definition pheno_token_alloc (ty : PhenoTokenType) : M ptr :=
  token <- calloc_token ;;
  match token with
  | None => ret None
  | Some a =>
      update_token a (set_type ty) ;;
      update_token a (set_mem_flags (set_allocated true)) ;;
      update_token a (set_mem_flags (set_ref_count 1)) ;;
      v <- calloc_value ;;
      update_token a (set_value v) ;;
      ret (Some a)
  end.

Definition pheno_token_free (token : ptr) : M unit :=
  match token with
  | None => ret tt
  | Some a =>
      t <- load_token a ;;
      match value t with
      | Some va => free_value_block va
      | None => ret tt
      end ;;
      free_token_block a
  end.

(** ** The [StateMachine] and its transition functions *)

Record StateMachine := {
  current_state : Z;
  token : ptr;
  transition_count : Z
}.

(** The weak compare-and-exchange on a one-bit flag: it stores [desired]
    and succeeds only when the flag holds [expected]; the weak form may
    also fail for no reason ([spurious]). *)
Definition atomic_compare_exchange_weak (spurious : bool)
  (obj expected desired : bool) : bool * bool :=
  if spurious then (false, obj)
  else if Bool.eqb obj expected then (true, desired)
  else (false, obj).

Definition transition_nil_to_allocated (sm : StateMachine)
  : M (Z * StateMachine) :=
  match token sm with
  | None =>
      p <- pheno_token_alloc
             {| category := bitfield 4 NODE_IDENTITY; node_level := 0;
                cluster_id := 0; frame_ref := 0; degradation := 0;
                reserved := 0 |} ;;
      ret (STATE_ALLOCATED,
           {| current_state := current_state sm; token := p;
              transition_count := transition_count sm |})
  | Some _ => ret (STATE_ALLOCATED, sm)
  end.

Definition transition_allocated_to_locked (spurious : bool)
  (sm : StateMachine) : M Z :=
  match token sm with
  | None => undefined
  | Some a =>
      t <- load_token a ;;
      let '(ok, l) :=
        atomic_compare_exchange_weak spurious (locked (mem_flags t))
          false true in
      store_token a (set_mem_flags (set_locked l) t) ;;
      if ok then ret STATE_LOCKED
      else ret STATE_ALLOCATED
  end.

Definition transition_locked_to_active (sm : StateMachine) : M Z :=
  ok <- verify_geometric_proof (token sm) ;;
  if ok then
    match token sm with
    | None => undefined
    | Some a =>
        update_token a (set_mem_flags (set_coherent true)) ;;
        ret STATE_ACTIVE
    end
  else ret STATE_LOCKED.

(** The threshold of the degradation test: the literal [0.6], the
    [double] nearest to six tenths. *)
Definition DEGRADATION_THRESHOLD : double :=
  S754_finite false 5404319552844595 (-53).

Definition transition_active_to_degraded (sm : StateMachine) : M Z :=
  degradation <- calculate_degradation_score (token sm) ;;
  if double_gt (double_of_float degradation) DEGRADATION_THRESHOLD then
    match token sm with
    | None => undefined
    | Some a =>
        t <- load_token a ;;
        match value t with
        | None => undefined
        | Some va =>
            match uint32_of_float
                    (float_mul degradation (float_of_int 1023)) with
            | None => undefined
            | Some n =>
                update_value va (set_score n) ;;
                ret STATE_DEGRADED
            end
        end
    end
  else ret STATE_ACTIVE.

(** ** The lifecycle table of the specification *)

(** The legal edges as the specification lists them: NIL to ALLOCATED,
    ALLOCATED to LOCKED, LOCKED to ACTIVE, ACTIVE to DEGRADED, ACTIVE to
    LOCKED, DEGRADED to LOCKED, and any state but FREED to FREED. *)
Definition spec_legal_edge (s x : Z) : bool :=
  (s =? STATE_NIL) && (x =? STATE_ALLOCATED)
  || (s =? STATE_ALLOCATED) && (x =? STATE_LOCKED)
  || (s =? STATE_LOCKED) && (x =? STATE_ACTIVE)
  || (s =? STATE_ACTIVE) && (x =? STATE_DEGRADED)
  || (s =? STATE_ACTIVE) && (x =? STATE_LOCKED)
  || (s =? STATE_DEGRADED) && (x =? STATE_LOCKED)
  || negb (s =? STATE_FREED) && (x =? STATE_FREED).

(** The edges [gosiuml_transition] accepts. *)
Definition code_legal_edge (s x : Z) : bool :=
  (s =? STATE_NIL) && (x =? STATE_ALLOCATED)
  || ((s =? STATE_ALLOCATED) || (s =? STATE_ACTIVE)) && (x =? STATE_LOCKED)
  || (x =? STATE_FREED).

(** ** Well-formed heaps *)

(** The bit-field widths of the metrics of a payload. *)
Definition wf_value (v : PhenoTokenValue) : bool :=
  (0 <=? score (metrics v)) && (score (metrics v) <? 1024)
  && (0 <=? confidence (metrics v)) && (confidence (metrics v) <? 1024)
  && (0 <=? retry_count (metrics v)) && (retry_count (metrics v) <? 64)
  && (0 <=? priority (metrics v)) && (priority (metrics v) <? 64).

(** [a] is the address of a live token whose payload pointer is null or
    points to a live, well-formed payload. *)
Definition valid_token (h : Heap) (a : addr) : bool :=
  match h_tokens h !! a with
  | None => false
  | Some t =>
      match value t with
      | None => true
      | Some va =>
          match h_values h !! va with
          | None => false
          | Some v => wf_value v
          end
      end
  end.

Definition valid_ptr (h : Heap) (p : ptr) : bool :=
  match p with
  | None => true
  | Some a => valid_token h a
  end.

(** The payload a token points to, if any. *)
Definition payload_of (h : Heap) (t : PhenoToken) : option PhenoTokenValue :=
  match value t with
  | None => None
  | Some va => h_values h !! va
  end.

Definition empty_heap (n : nat) : Heap :=
  {| h_tokens := ∅; h_values := ∅; h_next := 1%positive; h_avail := n |}.

(** The only height function of the sources, the stub of [quick_fix.sh]. *)
Definition get_height (node : ptr) : Z :=
  match node with
  | Some _ => 1
  | None => 0
  end.

(** ** The relation block (deprecated [pheno_platform.c]) *)

Definition BIT_SET (value bit : Z) : Z := Z.lor value (Z.shiftl 1 bit).
Definition ROTATE_LEFT (n b : Z) : Z :=
  Z.lor (Z.shiftl n b) (Z.shiftr n (8 - b)).
Definition ROTATE_RIGHT (n b : Z) : Z :=
  Z.lor (Z.shiftr n b) (Z.shiftl n (8 - b)).

(** [while (val) { rel->class_level += val & 1; val >>= 1; }] *)
Fixpoint count_bits (fuel : nat) (val level : Z) : Z :=
  match fuel with
  | O => level
  | S fuel' =>
      if val =? 0 then level
      else count_bits fuel' (Z.shiftr val 1) (u8 (level + Z.land val 1))
  end.

(** The relation [parse_token_file] builds for the token of index [idx]
    from its [token_type] (8 bits) and [token_value] (32 bits). *)
Definition parse_relation (idx token_type token_value : Z) : PhenoRelation :=
  {| subject_id := u8 (Z.land token_type 255);
     subject_type := u8 (Z.land (Z.shiftr token_value 0) 255);
     subject_state := u8 (Z.land (Z.shiftr token_value 8) 255);
     subject_class := u8 (Z.land (Z.shiftr token_value 16) 255);
     class_id := u8 (ROTATE_LEFT token_type 3);
     class_category := u8 (ROTATE_RIGHT token_type 2);
     class_taxonomy := u8 (Z.lxor token_type 170);
     class_level := count_bits 32 token_value (u8 0);
     instance_id := u8 (Z.land idx 255);
     instance_type := u8 token_type;
     instance_state := u8 (BIT_SET (u8 (BIT_SET (u8 0) 0)) 3);
     instance_flags := u8 255;
     person_id := u8 (Z.land (Z.shiftr token_value 24) 255);
     person_role := u8 1;
     person_auth := u8 15;
     person_state := u8 7 |}.

(** The 32-bit value the relation carries: its four bytes are spread over
    the subject group and the person identifier. *)
Definition relation_value (r : PhenoRelation) : Z :=
  Z.lor (Z.lor (subject_type r) (Z.shiftl (subject_state r) 8))
        (Z.lor (Z.shiftl (subject_class r) 16) (Z.shiftl (person_id r) 24)).

(** One relation group: four sub-fields. *)
Record RelationGroup := {
  field0 : Z; field1 : Z; field2 : Z; field3 : Z
}.

(** Modelled from the spec: the sources have no encode function of the
    relation codec, only stores into the fields of [PhenoRelation]; encode
    stores the four sub-fields of the four groups (subject, class,
    instance, person) into the 8-bit fields of the block, each store
    truncating to the width of the field. *)
Definition encode (subject cls inst person : RelationGroup)
  : PhenoRelation :=
  {| subject_id := u8 (field0 subject); subject_type := u8 (field1 subject);
     subject_state := u8 (field2 subject);
     subject_class := u8 (field3 subject);
     class_id := u8 (field0 cls); class_category := u8 (field1 cls);
     class_taxonomy := u8 (field2 cls); class_level := u8 (field3 cls);
     instance_id := u8 (field0 inst); instance_type := u8 (field1 inst);
     instance_state := u8 (field2 inst); instance_flags := u8 (field3 inst);
     person_id := u8 (field0 person); person_role := u8 (field1 person);
     person_auth := u8 (field2 person); person_state := u8 (field3 person) |}.

(** Modelled from the spec: the sources have no decode function either;
    decode reads the four groups back from the fields of the block. *)
Definition decode (r : PhenoRelation)
  : RelationGroup * RelationGroup * RelationGroup * RelationGroup :=
  ({| field0 := subject_id r; field1 := subject_type r;
      field2 := subject_state r; field3 := subject_class r |},
   {| field0 := class_id r; field1 := class_category r;
      field2 := class_taxonomy r; field3 := class_level r |},
   {| field0 := instance_id r; field1 := instance_type r;
      field2 := instance_state r; field3 := instance_flags r |},
   {| field0 := person_id r; field1 := person_role r;
      field2 := person_auth r; field3 := person_state r |}).

Definition truncate_group (g : RelationGroup) : RelationGroup :=
  {| field0 := u8 (field0 g); field1 := u8 (field1 g);
     field2 := u8 (field2 g); field3 := u8 (field3 g) |}.

(** Every sub-field of the group fits its 8 bits. *)
Definition fits_group (g : RelationGroup) : bool :=
  (0 <=? field0 g) && (field0 g <? 256) && (0 <=? field1 g)
  && (field1 g <? 256) && (0 <=? field2 g) && (field2 g <? 256)
  && (0 <=? field3 g) && (field3 g <? 256).

(** ** The hybrid index *)

Module AVL.

Section Definitions.

Context {key : Type}.
Variable key_compare : key -> key -> comparison.
Variable hash_function : key -> Z.

(** A node of the ordered view, with the [height] and [balance_factor]
    fields of [PhenoMemoryNode]; [children[0]] is the left subtree. *)
Inductive node : Type :=
| Nil
| Node (l : node) (prefix : key) (height : Z) (balance_factor : Z)
       (r : node).

Definition node_height (n : node) : Z :=
  match n with
  | Nil => 0
  | Node _ _ h _ _ => h
  end.

Definition node_balance (n : node) : Z :=
  match n with
  | Nil => 0
  | Node _ _ _ b _ => b
  end.

(** Modelled from the spec: the sources do not define how the two fields
    are maintained; a node is (re)built with [height] one more than its
    taller subtree and [balance_factor] the signed height difference,
    left minus right (the orientation [avl_rotate_for_balance] tests). *)
Definition mk_node (l : node) (k : key) (r : node) : node :=
  Node l k (1 + Z.max (node_height l) (node_height r))
       (node_height l - node_height r) r.

(** Modelled from the spec: [rotate_left] and [rotate_right] are only
    declared in the sources (function pointers of [MessageChannel]);
    these are the classic single rotations. *)
Definition rotate_right (root : node) : node :=
  match root with
  | Node (Node ll lk _ _ lr) k _ _ r => mk_node ll lk (mk_node lr k r)
  | _ => root
  end.

Definition rotate_left (root : node) : node :=
  match root with
  | Node l k _ _ (Node rl rk _ _ rr) => mk_node (mk_node l k rl) rk rr
  | _ => root
  end.

(** [avl_rotate_for_balance] of the lexer notes: it rotates a left-heavy
    root (after a left rotation of the left child when that one leans to
    the right) and does nothing else; of the right-heavy case the source
    has only the comment "Similar for right-heavy case". *)
Definition avl_rotate_for_balance (root : node) : node :=
  match root with
  | Nil => Nil
  | Node l k h b r =>
      if 1 <? b then
        rotate_right
          (if node_balance l <? 0 then Node (rotate_left l) k h b r
           else root)
      else root
  end.

(** Modelled from the spec: the rebalancing step with the right-heavy
    case, which the source announces and does not have, added as the
    mirror image of the left-heavy one. *)
Definition avl_rotate_both (root : node) : node :=
  match root with
  | Nil => Nil
  | Node l k h b r =>
      if 1 <? b then
        rotate_right
          (if node_balance l <? 0 then Node (rotate_left l) k h b r
           else root)
      else if b <? -1 then
        rotate_left
          (if 0 <? node_balance r then Node l k h b (rotate_right r)
           else root)
      else root
  end.

Section Operations.

(** The rebalancing step applied on the way back from an insertion or a
    removal. *)
Variable rebalance : node -> node.

(** Modelled from the spec: insertion into the ordered view, which is
    absent from the sources: descend by key order, reject a key that is
    already present ([None]), and apply the rebalancing step to every
    node on the way back. *)
Fixpoint insert (k : key) (n : node) : option node :=
  match n with
  | Nil => Some (mk_node Nil k Nil)
  | Node l k' _ _ r =>
      match key_compare k k' with
      | Eq => None
      | Lt =>
          match insert k l with
          | Some l' => Some (rebalance (mk_node l' k' r))
          | None => None
          end
      | Gt =>
          match insert k r with
          | Some r' => Some (rebalance (mk_node l k' r'))
          | None => None
          end
      end
  end.

(** Removal of the least key of the non-empty tree [Node l k _ _ r]. *)
Fixpoint remove_min (l : node) (k : key) (r : node) : node * key :=
  match l with
  | Nil => (r, k)
  | Node ll lk _ _ lr =>
      let '(l', m) := remove_min ll lk lr in
      (rebalance (mk_node l' k r), m)
  end.

(** Modelled from the spec: removal from the ordered view, absent from
    the sources: the standard removal (a node with two subtrees is
    replaced by its successor) with rebalancing on the way back; [None]
    when the key is not found. *)
Fixpoint remove (k : key) (n : node) : option node :=
  match n with
  | Nil => None
  | Node l k' _ _ r =>
      match key_compare k k' with
      | Lt =>
          match remove k l with
          | Some l' => Some (rebalance (mk_node l' k' r))
          | None => None
          end
      | Gt =>
          match remove k r with
          | Some r' => Some (rebalance (mk_node l k' r'))
          | None => None
          end
      | Eq =>
          match r with
          | Nil => Some l
          | Node rl rk _ _ rr =>
              let '(r', m) := remove_min rl rk rr in
              Some (rebalance (mk_node l m r'))
          end
      end
  end.

(** The lookup table of the lexer notes: the ordered view and the
    fixed-size hash view (1024 chains). *)
Record PhenoLookupTable := {
  avl_root : node;
  hash_buckets : list (list key);
  total_nodes : Z
}.

Definition HASH_BUCKETS : Z := 1024.

Definition bucket_of (k : key) : nat :=
  Z.to_nat (hash_function k mod HASH_BUCKETS).

Definition empty_table : PhenoLookupTable :=
  {| avl_root := Nil;
     hash_buckets := replicate (Z.to_nat HASH_BUCKETS) [];
     total_nodes := 0 |}.

Fixpoint chain_remove (k : key) (chain : list key) : list key :=
  match chain with
  | [] => []
  | k' :: rest =>
      match key_compare k k' with
      | Eq => rest
      | _ => k' :: chain_remove k rest
      end
  end.

(** Modelled from the spec: insert and remove of the hybrid index update
    both views together, and an operation that fails leaves the index as
    it was. *)
Definition index_insert (k : key) (tb : PhenoLookupTable)
  : option PhenoLookupTable :=
  match insert k (avl_root tb) with
  | None => None
  | Some root =>
      Some {| avl_root := root;
              hash_buckets :=
                alter (cons k) (bucket_of k) (hash_buckets tb);
              total_nodes := total_nodes tb + 1 |}
  end.

Definition index_remove (k : key) (tb : PhenoLookupTable)
  : option PhenoLookupTable :=
  match remove k (avl_root tb) with
  | None => None
  | Some root =>
      Some {| avl_root := root;
              hash_buckets :=
                alter (chain_remove k) (bucket_of k) (hash_buckets tb);
              total_nodes := total_nodes tb - 1 |}
  end.

Inductive index_op : Type :=
| OpInsert (k : key)
| OpRemove (k : key).

Definition apply_op (tb : PhenoLookupTable) (o : index_op)
  : PhenoLookupTable :=
  match o with
  | OpInsert k => default tb (index_insert k tb)
  | OpRemove k => default tb (index_remove k tb)
  end.

Definition run_ops (ops : list index_op) (tb : PhenoLookupTable)
  : PhenoLookupTable :=
  fold_left apply_op ops tb.

End Operations.

(** The height of a tree, computed from its shape. *)
Fixpoint height (n : node) : Z :=
  match n with
  | Nil => 0
  | Node l _ _ _ r => 1 + Z.max (height l) (height r)
  end.

(** Every node of the tree satisfies [P]. *)
Fixpoint all_nodes (P : node -> Prop) (n : node) : Prop :=
  match n with
  | Nil => True
  | Node l _ _ _ r => P n /\ all_nodes P l /\ all_nodes P r
  end.

(** The balance factor of a node is one of -1, 0, 1. *)
Definition balanced_node (n : node) : Prop :=
  node_balance n = -1 \/ node_balance n = 0 \/ node_balance n = 1.

(** The fields of a node agree with the shape of its subtrees. *)
Definition fields_ok (n : node) : Prop :=
  match n with
  | Nil => True
  | Node l _ h b r =>
      h = 1 + Z.max (height l) (height r) /\ b = height l - height r
  end.

(** The AVL invariant: at every node the two fields agree with the shape
    of the subtrees and the balance factor is one of -1, 0, 1. *)
Fixpoint avl (n : node) : Prop :=
  match n with
  | Nil => True
  | Node l _ h b r =>
      avl l /\ avl r /\ h = 1 + Z.max (height l) (height r)
      /\ b = height l - height r /\ -1 <= b <= 1
  end.

(** The keys of the tree, in order. *)
Fixpoint keys (n : node) : list key :=
  match n with
  | Nil => []
  | Node l k _ _ r => keys l ++ k :: keys r
  end.

End Definitions.

End AVL.

(** ** Specification functions used in the statements *)

(** The decision list of [gosiuml_get_state] on the fields it reads. *)
Definition state_of (t : PhenoToken) (v : option PhenoTokenValue) : Z :=
  if negb (allocated (mem_flags t)) then STATE_NIL
  else if locked (mem_flags t) then STATE_LOCKED
  else if shared (mem_flags t) then STATE_SHARED
  else match v with
       | Some v => if 600 <? score (metrics v) then STATE_DEGRADED
                   else STATE_ACTIVE
       | None => STATE_ACTIVE
       end.

(** What an accepted transition to [x] writes into the token. *)
Definition transition_effect (x : Z) (t : PhenoToken) : PhenoToken :=
  if x =? STATE_ALLOCATED then set_mem_flags (set_allocated true) t
  else if x =? STATE_LOCKED then set_mem_flags (set_locked true) t
  else if x =? STATE_FREED then
    set_mem_flags (set_locked false) (set_mem_flags (set_allocated false) t)
  else t.

(** The heap after the token at [a] and its payload have been released. *)
Definition release (a : addr) (t : PhenoToken) (h : Heap) : Heap :=
  {| h_tokens := delete a (h_tokens h);
     h_values := match value t with
                 | Some va => delete va (h_values h)
                 | None => h_values h
                 end;
     h_next := h_next h;
     h_avail := match value t with
                | Some _ => S (S (h_avail h))
                | None => S (h_avail h)
                end |}.

(** ** The library's self-test ([gosiuml_test_state_machine]) *)

(** The context is only tested against the null pointer. *)
Definition gosiuml_test_state_machine (ctx_is_null : bool) : M Z :=
  if ctx_is_null then ret (-1)
  else
    token <- gosiuml_create_token NODE_IDENTITY (Some "TEST"%string) ;;
    match token with
    | None => ret (-1)
    | Some _ =>
        s <- gosiuml_get_state token ;;
        let result := if negb (s =? STATE_ACTIVE) then -1 else 0 in
        r <- gosiuml_transition token STATE_LOCKED ;;
        result <- (if r =? 0 then
                     s' <- gosiuml_get_state token ;;
                     if negb (s' =? STATE_LOCKED) then ret (-1)
                     else ret result
                   else ret result) ;;
        gosiuml_free_token token ;;
        ret result
    end.

(** ** Sample heaps *)

(** One token at address 1 with the given flags, whose payload at address
    2 has the given score. *)
Definition sample_heap (fl : MemFlags) (sc : Z) : Heap :=
  {| h_tokens := {[ 1%positive := set_value (Some 2%positive)
                                    (set_mem_flags (fun _ => fl) zero_token) ]};
     h_values := {[ 2%positive := set_score sc zero_value ]};
     h_next := 3%positive;
     h_avail := 0 |}.

Definition active_flags : MemFlags :=
  set_ref_count 1 (set_allocated true zero_flags).

Definition locked_flags : MemFlags := set_locked true active_flags.

(** A token referenced twice. *)
Definition referenced_flags : MemFlags := set_ref_count 2 active_flags.

(** The record [gosiuml_create_token] leaves at the new address, [v] being
    the pointer to its payload. *)
Definition created_token (type : Z) (name : option string) (v : ptr)
  : PhenoToken :=
  set_value v
    (set_mem_flags (set_ref_count 1)
       (set_mem_flags (set_allocated true)
          (match name with
           | Some s => set_token_name (strncpy_name s)
           | None => fun t => t
           end (set_token_type type zero_token)))).

(** A state machine in ACTIVE over the token of the sample heaps. *)
Definition sample_machine : StateMachine :=
  {| current_state := STATE_ACTIVE; token := Some 1%positive;
     transition_count := 0 |}.

(** Four relation groups whose sub-fields fit. *)
Definition sample_subject : RelationGroup :=
  {| field0 := 1; field1 := 255; field2 := 0; field3 := 7 |}.
Definition sample_class : RelationGroup :=
  {| field0 := 2; field1 := 3; field2 := 4; field3 := 5 |}.
Definition sample_instance : RelationGroup :=
  {| field0 := 0; field1 := 0; field2 := 9; field3 := 255 |}.
Definition sample_person : RelationGroup :=
  {| field0 := 18; field1 := 1; field2 := 15; field3 := 7 |}.

(** ** Processing contexts ([pheno_memory.c], [gosiuml.h]) *)

Definition GOSIUML_OPT_VERBOSE : Z := 1.
Definition GOSIUML_OPT_SHOW_BITFIELDS : Z := 2.
Definition GOSIUML_OPT_STATE_MACHINE : Z := 3.
Definition GOSIUML_OPT_MEMORY_TRACKING : Z := 4.

(** The largest C [int]. *)
Definition INT_MAX : Z := 2147483647.

(** [x++] on an [int]: the increment of [INT_MAX] overflows, which is
    undefined. *)
Definition int_incr (x : Z) : M Z :=
  if x <? INT_MAX then ret (x + 1) else undefined.

(** [struct GosiUMLContext]; the options and the counters are C [int]s. *)
Record GosiUMLContext := {
  ctx_current_state : Z;
  options : Z;
  user_data : ptr;
  state_count : list Z;          (* stats.state_count[7] *)
  stats_transition_count : Z     (* stats.transition_count *)
}.

Definition set_options (o : Z) (c : GosiUMLContext) : GosiUMLContext :=
  {| ctx_current_state := ctx_current_state c; options := o;
     user_data := user_data c; state_count := state_count c;
     stats_transition_count := stats_transition_count c |}.

Definition set_state_count (l : list Z) (c : GosiUMLContext)
  : GosiUMLContext :=
  {| ctx_current_state := ctx_current_state c; options := options c;
     user_data := user_data c; state_count := l;
     stats_transition_count := stats_transition_count c |}.

Definition set_stats_transition_count (n : Z) (c : GosiUMLContext)
  : GosiUMLContext :=
  {| ctx_current_state := ctx_current_state c; options := options c;
     user_data := user_data c; state_count := state_count c;
     stats_transition_count := n |}.

(** [gosiuml_create_context]: a zeroed context in state NIL, or the null
    pointer when [calloc] fails. *)
Definition gosiuml_create_context (calloc_ok : bool)
  : option GosiUMLContext :=
  if calloc_ok then
    Some {| ctx_current_state := STATE_NIL; options := 0; user_data := None;
            state_count := replicate 7 0; stats_transition_count := 0 |}
  else None.

(** [if (value) options |= (1 << bit); else options &= ~(1 << bit);] *)
Definition option_bit (bit value opts : Z) : Z :=
  if negb (value =? 0) then Z.lor opts (Z.shiftl 1 bit)
  else Z.land opts (Z.lnot (Z.shiftl 1 bit)).

Definition gosiuml_set_option (ctx : option GosiUMLContext)
  (opt value : Z) : Z * option GosiUMLContext :=
  match ctx with
  | None => (-1, None)
  | Some c =>
      if opt =? GOSIUML_OPT_VERBOSE then
        (0, Some (set_options (option_bit 0 value (options c)) c))
      else if opt =? GOSIUML_OPT_SHOW_BITFIELDS then
        (0, Some (set_options (option_bit 1 value (options c)) c))
      else if opt =? GOSIUML_OPT_STATE_MACHINE then
        (0, Some (set_options (option_bit 2 value (options c)) c))
      else if opt =? GOSIUML_OPT_MEMORY_TRACKING then
        (0, Some (set_options (option_bit 3 value (options c)) c))
      else (-1, Some c)
  end.

(** [gosiuml_process_token]; indexing [state_count] outside its seven
    cells is undefined, and so is the overflow of a counter. *)
Definition gosiuml_process_token (ctx : option GosiUMLContext) (token : ptr)
  : M (Z * option GosiUMLContext) :=
  match ctx, token with
  | Some c, Some a =>
      current <- gosiuml_get_state token ;;
      match state_count c !! Z.to_nat current with
      | None => undefined
      | Some n =>
          n' <- int_incr n ;;
          let c1 :=
            set_state_count (<[Z.to_nat current := n']> (state_count c)) c
          in
          t <- load_token a ;;
          if allocated (mem_flags t) && negb (locked (mem_flags t)) then
            update_token a (set_mem_flags (set_locked true)) ;;
            m <- int_incr (stats_transition_count c1) ;;
            ret (0, Some (set_stats_transition_count m c1))
          else ret (0, Some c1)
      end
  | _, _ => ret (-1, ctx)
  end.

(** The loop of [main]: every token of the array goes through
    [gosiuml_process_token]; a failure is only reported. *)
Fixpoint process_tokens (ctx : option GosiUMLContext) (tokens : list addr)
  : M (option GosiUMLContext) :=
  match tokens with
  | [] => ret ctx
  | a :: rest =>
      r <- gosiuml_process_token ctx (Some a) ;;
      process_tokens (snd r) rest
  end.

(** ** Library state ([pheno_memory.c]) *)

(** [g_gosiuml_state]; [mutex_live] records whether the mutex is
    initialised (initialising it again, or destroying it when it is not,
    is undefined). *)
Record LibraryState := {
  initialized : bool;
  mutex_live : bool;
  debug_enabled : bool
}.

Definition initial_library_state : LibraryState :=
  {| initialized := false; mutex_live := false; debug_enabled := false |}.

(** [gosiuml_init]; [mutex_ok] tells whether [pthread_mutex_init]
    succeeds. *)
Definition gosiuml_init (mutex_ok : bool) (g : LibraryState)
  : option (Z * LibraryState) :=
  if initialized g then Some (0, g)
  else if mutex_live g then None
  else if negb mutex_ok then Some (-1, g)
  else Some (0, {| initialized := true; mutex_live := true;
                   debug_enabled := debug_enabled g |}).

Definition gosiuml_cleanup (g : LibraryState) : option LibraryState :=
  if initialized g then
    if mutex_live g then
      Some {| initialized := false; mutex_live := false;
              debug_enabled := debug_enabled g |}
    else None
  else Some g.

Definition gosiuml_set_debug (enable : bool) (g : LibraryState)
  : LibraryState :=
  {| initialized := initialized g; mutex_live := mutex_live g;
     debug_enabled := enable |}.

Inductive library_call : Type :=
| CallInit (mutex_ok : bool)
| CallCleanup
| CallSetDebug (enable : bool).

Definition run_library_call (g : LibraryState) (c : library_call)
  : option LibraryState :=
  match c with
  | CallInit ok => option_map snd (gosiuml_init ok g)
  | CallCleanup => gosiuml_cleanup g
  | CallSetDebug e => Some (gosiuml_set_debug e g)
  end.

Fixpoint run_library_calls (g : LibraryState) (cs : list library_call)
  : option LibraryState :=
  match cs with
  | [] => Some g
  | c :: rest =>
      match run_library_call g c with
      | Some g' => run_library_calls g' rest
      | None => None
      end
  end.

(** ** Stepping the state machine *)

(** The transition functions the table of [create_state_machine] holds. *)
Inductive transition_fn : Type :=
| NilToAllocated
| AllocatedToLocked
| LockedToActive
| ActiveToDegraded.

(** [sm->transitions[from][to]] as [create_state_machine] fills it; every
    other cell is null. *)
Definition transitions (from to : Z) : option transition_fn :=
  if (from =? STATE_NIL) && (to =? STATE_ALLOCATED) then Some NilToAllocated
  else if (from =? STATE_ALLOCATED) && (to =? STATE_LOCKED)
  then Some AllocatedToLocked
  else if (from =? STATE_LOCKED) && (to =? STATE_ACTIVE)
  then Some LockedToActive
  else if (from =? STATE_ACTIVE) && (to =? STATE_DEGRADED)
  then Some ActiveToDegraded
  else None.

(** The machine [create_state_machine] returns (its allocation taken to
    succeed). *)
Definition create_state_machine : StateMachine :=
  {| current_state := STATE_NIL; token := None; transition_count := 0 |}.

Definition run_transition (spurious : bool) (f : transition_fn)
  (sm : StateMachine) : M (Z * StateMachine) :=
  match f with
  | NilToAllocated => transition_nil_to_allocated sm
  | AllocatedToLocked =>
      s <- transition_allocated_to_locked spurious sm ;; ret (s, sm)
  | LockedToActive => s <- transition_locked_to_active sm ;; ret (s, sm)
  | ActiveToDegraded => s <- transition_active_to_degraded sm ;; ret (s, sm)
  end.

(** [step_state_machine] on an event whose target is [target_state]; the
    entry and exit actions are all null.  An index outside the 7 by 7 table
    is undefined. *)
Definition step_state_machine (spurious : bool) (sm : StateMachine)
  (target_state : Z) : M StateMachine :=
  if (0 <=? current_state sm) && (current_state sm <? 7)
     && (0 <=? target_state) && (target_state <? 7)
  then
    r <- match transitions (current_state sm) target_state with
         | Some f => run_transition spurious f sm
         | None => ret (current_state sm, sm)
         end ;;
    ret {| current_state := fst r; token := token (snd r);
           transition_count := u32 (transition_count (snd r) + 1) |}
  else undefined.

(** A run of events, each with the outcome of its weak
    compare-and-exchange. *)
Fixpoint run_state_machine (sm : StateMachine) (events : list (bool * Z))
  : M StateMachine :=
  match events with
  | [] => ret sm
  | (spurious, target) :: rest =>
      sm' <- step_state_machine spurious sm target ;;
      run_state_machine sm' rest
  end.

(** ** Relation mapping ([pheno_relation.c] of [quick_fix.sh]) *)

Definition map_obj_to_obj (src dst : PhenoRelation) : PhenoRelation :=
  {| subject_id := u8 (Z.lxor (subject_id src) (subject_id dst));
     subject_type := subject_type dst;
     subject_state := subject_state dst;
     subject_class := subject_class dst;
     class_id := u8 (Z.lxor (class_id src) (class_id dst));
     class_category := class_category dst;
     class_taxonomy := class_taxonomy dst;
     class_level := class_level dst;
     instance_id := instance_id dst;
     instance_type := instance_type dst;
     instance_state := u8 (Z.lor (instance_state dst) (instance_state src));
     instance_flags := instance_flags dst;
     person_id := person_id dst;
     person_role := person_role dst;
     person_auth := person_auth dst;
     person_state := u8 (ROTATE_LEFT (person_state src) 2) |}.

(** The last three statements of [apply_person_model]. *)
Definition person_state_flags (person_a person_b : Z) : Z :=
  let s0 := u8 0 in
  let s1 := if negb (Z.land person_a 1 =? 0) then u8 (BIT_SET s0 0) else s0 in
  let s2 := if negb (Z.land person_b 2 =? 0) then u8 (BIT_SET s1 1) else s1 in
  if negb (Z.land (Z.lxor person_a person_b) 4 =? 0) then u8 (BIT_SET s2 2)
  else s2.

(** [apply_person_model]; the two persons are [uint8_t] arguments. *)
Definition apply_person_model (rel : PhenoRelation) (person_a person_b : Z)
  : PhenoRelation :=
  {| subject_id := subject_id rel; subject_type := subject_type rel;
     subject_state := subject_state rel; subject_class := subject_class rel;
     class_id := class_id rel; class_category := class_category rel;
     class_taxonomy := class_taxonomy rel; class_level := class_level rel;
     instance_id := instance_id rel; instance_type := instance_type rel;
     instance_state := instance_state rel;
     instance_flags := instance_flags rel;
     person_id := u8 person_a;
     person_role := u8 person_b;
     person_auth := count_bits 8 (u8 (Z.lxor (u8 person_a) (u8 person_b)))
                      (u8 0);
     person_state := person_state_flags (u8 person_a) (u8 person_b) |}.

(** ** Drawing ([generate_svg_from_tokens]) *)

(** The canvas of the picture. *)
Definition SVG_WIDTH : Z := 800.
Definition SVG_HEIGHT : Z := 600.

(** Centre, radius and colour of the circle drawn for a relation; the
    coordinates are small integers converted to [float] without loss. *)
Definition svg_x (r : PhenoRelation) : Z := 100 + Z.rem (subject_id r * 5) 600.
Definition svg_y (r : PhenoRelation) : Z := 100 + Z.rem (class_id r * 7) 400.
Definition svg_radius (r : PhenoRelation) : Z :=
  5 + Z.land (instance_state r) 15.
Definition svg_color (r : PhenoRelation) : Z :=
  let c0 := 0 in
  let c1 := u32 (Z.lor c0 (Z.shiftl (Z.land (subject_type r) 255) 16)) in
  let c2 := u32 (Z.lor c1 (Z.shiftl (Z.land (class_category r) 255) 8)) in
  u32 (Z.lor c2 (Z.land (instance_type r) 255)).

(** ** The token a line of the token file gives ([token_parser.c]) *)

(** The identification, type and relation fields [parse_token_file] sets
    in an array cell from the [id] and [type] ([ty]) it scanned (two
    [unsigned int]s) and the name (at most 63 characters are kept). *)
Definition parsed_fields (id ty : Z) (name : string) (t : PhenoToken)
  : PhenoToken :=
  {| token_id := u32 id;
     token_type := u8 (u32 ty);
     token_name := strncpy_name name;
     type := {| category := bitfield 4 (Z.land (u32 ty) 15);
                node_level := bitfield 3 (Z.land (Z.shiftr (u32 ty) 4) 7);
                cluster_id :=
                  bitfield 8 (Z.land (Z.shiftr (u32 ty) 7) 255);
                frame_ref := frame_ref (type t);
                degradation := degradation (type t);
                reserved := reserved (type t) |};
     value := value t;
     relation :=
       {| subject_id := u8 (Z.land (u32 id) 255);
          subject_type := u8 (Z.land (u32 ty) 255);
          subject_state := u8 1;
          subject_class := subject_class (relation t);
          class_id := u8 (Z.land (Z.shiftr (u32 id) 8) 255);
          class_category := u8 (Z.land (Z.shiftr (u32 ty) 8) 255);
          class_taxonomy := class_taxonomy (relation t);
          class_level := class_level (relation t);
          instance_id := u8 (Z.land (Z.shiftr (u32 id) 16) 255);
          instance_type := instance_type (relation t);
          instance_state := instance_state (relation t);
          instance_flags := instance_flags (relation t);
          person_id := person_id (relation t);
          person_role := person_role (relation t);
          person_auth := person_auth (relation t);
          person_state := person_state (relation t) |};
     mem_flags := mem_flags t;
     left := left t; right := right t; parent := parent t;
     balance_factor := balance_factor t |}.

(** The three fields set in the payload of a parsed token. *)
Definition parsed_value (id : Z) (v : PhenoTokenValue) : PhenoTokenValue :=
  {| header := {| data_size := bitfield 16 256;
                  encoding := encoding (header v);
                  compression := compression (header v);
                  encrypted := encrypted (header v);
                  frame_id := bitfield 16 (u32 id);
                  timestamp := timestamp (header v) |};
     metrics := {| score := score (metrics v);
                   confidence := bitfield 10 500;
                   retry_count := retry_count (metrics v);
                   priority := priority (metrics v) |};
     data := data v |}.

(** The body of the parsing loop for one well-formed line, on the cell
    [a] of the token array. *)
Definition parse_token_line (a : addr) (id ty : Z) (name : string)
  : M unit :=
  update_token a (parsed_fields id ty name) ;;
  v <- calloc_value ;;
  update_token a (set_value v) ;;
  match v with
  | Some va => update_value va (parsed_value id)
  | None => ret tt
  end ;;
  update_token a (set_mem_flags (set_allocated true)) ;;
  update_token a (set_mem_flags (set_ref_count 1)).

(** ** Auxiliary functions of the statements *)

(** The total of the state counters of a context. *)
Definition sum_counts (l : list Z) : Z := foldr Z.add 0 l.

(** The token [gosiuml_process_token] leaves: locked if it was allocated. *)
Definition processed_token (t : PhenoToken) : PhenoToken :=
  if allocated (mem_flags t) && negb (locked (mem_flags t))
  then set_mem_flags (set_locked true) t
  else t.

(** The context [gosiuml_process_token] leaves when it counts the token
    [t] in the cell of state [i], which held [n]. *)
Definition counted (c : GosiUMLContext) (i : nat) (n : Z) (t : PhenoToken)
  : GosiUMLContext :=
  set_stats_transition_count
    (stats_transition_count c
     + (if allocated (mem_flags t) && negb (locked (mem_flags t))
        then 1 else 0))
    (set_state_count (<[i := n + 1]> (state_count c)) c).

(** The record [pheno_token_alloc] leaves at the new address, [v] being
    the pointer to its payload. *)
Definition allocated_token (ty : PhenoTokenType) (v : ptr) : PhenoToken :=
  set_value v
    (set_mem_flags (set_ref_count 1)
       (set_mem_flags (set_allocated true) (set_type ty zero_token))).

(** The payload of the token, if it has one, would not pass the check of
    [verify_geometric_proof]. *)
Definition low_confidence (h : Heap) (t : PhenoToken) : Prop :=
  match value t with
  | None => True
  | Some va =>
      exists v, h_values h !! va = Some v /\ confidence (metrics v) <= 100
  end.

(** What holds of a state machine that only its own steps have driven:
    in NIL it has no token yet (and the allocator can still serve one),
    otherwise it is in ALLOCATED or LOCKED over a live token of low
    confidence. *)
Definition machine_inv (sm : StateMachine) (h : Heap) : Prop :=
  (current_state sm = STATE_NIL /\ token sm = None /\ h_avail h <> O)
  \/ ((current_state sm = STATE_ALLOCATED \/ current_state sm = STATE_LOCKED)
      /\ exists a t, token sm = Some a /\ h_tokens h !! a = Some t
                     /\ low_confidence h t).

(** Every field of the relation block fits its 8 bits. *)
Definition fits_relation (r : PhenoRelation) : bool :=
  let '(a, b, c, d) := decode r in
  fits_group a && fits_group b && fits_group c && fits_group d.

(** The rotate part of [map_obj_to_obj] on one byte. *)
Definition rotate_state (x : Z) : Z := u8 (ROTATE_LEFT x 2).

(** ** More sample heaps *)

(** The sample heap with an active token, and room for two more
    allocations. *)
Definition stocked_heap : Heap :=
  {| h_tokens := h_tokens (sample_heap active_flags 0);
     h_values := h_values (sample_heap active_flags 0);
     h_next := h_next (sample_heap active_flags 0);
     h_avail := 2 |}.

(** A locked token whose payload has confidence 500. *)
Definition confident_heap : Heap :=
  put_value 2%positive (parsed_value 7 zero_value)
    (sample_heap locked_flags 0).

(** A zeroed array cell at address 1, and room for one payload. *)
Definition array_heap : Heap :=
  {| h_tokens := {[ 1%positive := zero_token ]}; h_values := ∅;
     h_next := 2%positive; h_avail := 1 |}.

(** * Properties *)

(** ** Evaluation of the heap operations *)

Section HeapLemmas.

Variables (h : Heap) (a : addr) (t : PhenoToken).
Hypothesis Hlive : h_tokens h !! a = Some t.

Lemma load_token_live : load_token a h = Some (t, h).
Proof using Hlive. unfold load_token. now rewrite Hlive. Qed.

Lemma store_token_live t' : store_token a t' h = Some (tt, put_token a t' h).
Proof using Hlive. unfold store_token. now rewrite Hlive. Qed.

Lemma update_token_live f :
  update_token a f h = Some (tt, put_token a (f t) h).
Proof using Hlive.
  unfold update_token, bind. now rewrite load_token_live, store_token_live.
Qed.

End HeapLemmas.

Lemma lookup_put_token (h : Heap) (a : addr) (t : PhenoToken) :
  h_tokens (put_token a t h) !! a = Some t.
Proof. unfold put_token; simpl. apply lookup_insert_eq. Qed.

Lemma lookup_put_token_ne (h : Heap) (a b : addr) (t : PhenoToken) :
  a <> b -> h_tokens (put_token a t h) !! b = h_tokens h !! b.
Proof. intros Hne. unfold put_token; simpl. now apply lookup_insert_ne. Qed.

Lemma put_token_twice (h : Heap) (a : addr) (t1 t2 : PhenoToken) :
  put_token a t2 (put_token a t1 h) = put_token a t2 h.
Proof. unfold put_token; simpl. f_equal. apply insert_insert_eq. Qed.

Lemma put_token_same (h : Heap) (a : addr) (t : PhenoToken) :
  h_tokens h !! a = Some t -> put_token a t h = h.
Proof.
  intros Hlive. destruct h as [tk vl nx av]; unfold put_token; simpl in *.
  f_equal. now apply insert_id.
Qed.

Lemma valid_token_live (h : Heap) (a : addr) :
  valid_token h a = true -> exists t, h_tokens h !! a = Some t.
Proof.
  unfold valid_token. destruct (h_tokens h !! a) as [t|]; [eauto | discriminate].
Qed.

Lemma valid_token_payload (h : Heap) (a : addr) (t : PhenoToken) (va : addr) :
  valid_token h a = true -> h_tokens h !! a = Some t -> value t = Some va ->
  exists v, h_values h !! va = Some v /\ wf_value v = true.
Proof.
  unfold valid_token. intros Hv Ht Hva. rewrite Ht, Hva in Hv.
  destruct (h_values h !! va) as [v|]; [eauto | discriminate].
Qed.

(** ** The state query *)

Lemma get_state_eval (h : Heap) (a : addr) (t : PhenoToken) :
  valid_token h a = true -> h_tokens h !! a = Some t ->
  gosiuml_get_state (Some a) h = Some (state_of t (payload_of h t), h).
Proof.
  intros Hv Ht. unfold gosiuml_get_state, bind.
  rewrite (load_token_live _ _ _ Ht). unfold state_of, payload_of.
  destruct (allocated (mem_flags t)); simpl; [|reflexivity].
  destruct (locked (mem_flags t)); [reflexivity|].
  destruct (shared (mem_flags t)); [reflexivity|].
  destruct (value t) as [va|] eqn:Hva; [|reflexivity].
  destruct (valid_token_payload _ _ _ _ Hv Ht Hva) as (v & Hlv & _).
  unfold bind, load_value. rewrite Hlv.
  now destruct (600 <? score (metrics v)).
Qed.

Lemma state_of_range (t : PhenoToken) (v : option PhenoTokenValue) :
  state_of t v = STATE_NIL \/ state_of t v = STATE_LOCKED
  \/ state_of t v = STATE_SHARED \/ state_of t v = STATE_DEGRADED
  \/ state_of t v = STATE_ACTIVE.
Proof.
  unfold state_of.
  destruct (allocated (mem_flags t)), (locked (mem_flags t)),
    (shared (mem_flags t)), v as [v|]; simpl; auto;
    destruct (600 <? score (metrics v)); auto.
Qed.

(** C9. The state query is total on every pointer that is null or points
    to a live token, leaves the heap as it is, and returns one of NIL,
    LOCKED, SHARED, DEGRADED, ACTIVE, never ALLOCATED or FREED: the null
    pointer and a token whose [allocated] flag is clear give NIL, a locked
    token gives LOCKED whatever its [shared] flag and score, and a shared
    token that is not locked gives SHARED whatever its score. *)
Theorem get_state_total (h : Heap) (p : ptr) :
  valid_ptr h p = true ->
  exists s, gosiuml_get_state p h = Some (s, h)
    /\ (s = STATE_NIL \/ s = STATE_LOCKED \/ s = STATE_SHARED
        \/ s = STATE_DEGRADED \/ s = STATE_ACTIVE)
    /\ s <> STATE_ALLOCATED /\ s <> STATE_FREED
    /\ (p = None -> s = STATE_NIL)
    /\ (forall a t, p = Some a -> h_tokens h !! a = Some t ->
          (allocated (mem_flags t) = false -> s = STATE_NIL)
          /\ (allocated (mem_flags t) = true ->
              locked (mem_flags t) = true -> s = STATE_LOCKED)
          /\ (allocated (mem_flags t) = true ->
              locked (mem_flags t) = false ->
              shared (mem_flags t) = true -> s = STATE_SHARED)).
Proof.
  intros Hv. destruct p as [a|].
  - destruct (valid_token_live _ _ Hv) as [t Ht].
    exists (state_of t (payload_of h t)). split.
    { now apply get_state_eval. }
    split; [apply state_of_range|].
    split.
    { destruct (state_of_range t (payload_of h t)) as [E|[E|[E|[E|E]]]];
        rewrite E; discriminate. }
    split.
    { destruct (state_of_range t (payload_of h t)) as [E|[E|[E|[E|E]]]];
        rewrite E; discriminate. }
    split; [discriminate|].
    intros a' t' [= <-] Ht'. rewrite Ht in Ht'. injection Ht' as <-.
    unfold state_of. repeat split.
    + now intros ->.
    + now intros -> ->.
    + now intros -> -> ->.
  - exists STATE_NIL. repeat split; try discriminate; auto.
Qed.

Lemma get_state_total_witness :
  valid_ptr (sample_heap (set_locked true (set_allocated true zero_flags)) 700)
            (Some 1%positive) = true
  /\ exists s,
       gosiuml_get_state (Some 1%positive)
         (sample_heap (set_locked true (set_allocated true zero_flags)) 700)
       = Some (s, sample_heap (set_locked true (set_allocated true zero_flags))
                    700)
       /\ s = STATE_LOCKED.
Proof.
  split; [reflexivity|].
  destruct (get_state_total
              (sample_heap (set_locked true (set_allocated true zero_flags))
                 700)
              (Some 1%positive) eq_refl)
    as (s & Hs & _ & _ & _ & _ & Hflags).
  exists s. split; [exact Hs|].
  destruct (Hflags 1%positive _ eq_refl eq_refl) as (_ & Hl & _).
  now apply Hl.
Defined.

(** ** Transitions *)

Lemma code_legal_edge_iff (s x : Z) :
  code_legal_edge s x = true <->
  (s = STATE_NIL /\ x = STATE_ALLOCATED)
  \/ ((s = STATE_ALLOCATED \/ s = STATE_ACTIVE) /\ x = STATE_LOCKED)
  \/ x = STATE_FREED.
Proof.
  unfold code_legal_edge.
  rewrite !orb_true_iff, !andb_true_iff, !orb_true_iff, !Z.eqb_eq. tauto.
Qed.

Lemma transition_eval (h : Heap) (a : addr) (t : PhenoToken) (x : Z) :
  valid_token h a = true -> h_tokens h !! a = Some t ->
  gosiuml_transition (Some a) x h =
  if code_legal_edge (state_of t (payload_of h t)) x
  then Some (0, put_token a (transition_effect x t) h)
  else Some (-1, h).
Proof.
  intros Hv Ht. unfold gosiuml_transition, bind.
  rewrite (get_state_eval _ _ _ Hv Ht).
  unfold code_legal_edge, transition_effect.
  destruct (Z.eqb_spec x STATE_ALLOCATED) as [->|Hna].
  { change (STATE_ALLOCATED =? STATE_LOCKED) with false.
    change (STATE_ALLOCATED =? STATE_FREED) with false.
    rewrite !andb_false_r, !andb_true_r, !orb_false_r.
    destruct (state_of t (payload_of h t) =? STATE_NIL); simpl; [|reflexivity].
    now rewrite (update_token_live _ _ _ Ht). }
  destruct (Z.eqb_spec x STATE_LOCKED) as [->|Hnl].
  { change (STATE_LOCKED =? STATE_FREED) with false.
    rewrite !andb_false_r, !andb_true_r, !orb_false_r, orb_false_l.
    destruct (state_of t (payload_of h t) =? STATE_ALLOCATED),
      (state_of t (payload_of h t) =? STATE_ACTIVE); simpl;
      try reflexivity; now rewrite (update_token_live _ _ _ Ht). }
  destruct (Z.eqb_spec x STATE_FREED) as [->|Hnf].
  { rewrite !andb_false_r, !orb_true_r.
    rewrite (update_token_live _ _ _ Ht).
    rewrite (update_token_live _ _ _ (lookup_put_token _ _ _)).
    now rewrite put_token_twice. }
  now rewrite !andb_false_r.
Qed.

(** A rejected or accepted request, on the null pointer. *)
Lemma transition_null (h : Heap) (x : Z) :
  gosiuml_transition None x h = Some (-1, h).
Proof. reflexivity. Qed.

(** C1 (as amended). For a live token in the state [s] the query reports,
    the transition to [x] returns 0 exactly when [s] is NIL and [x] is
    ALLOCATED, or [s] is ALLOCATED or ACTIVE and [x] is LOCKED, or [x] is
    FREED; in every other case it returns -1 and leaves the heap, hence the
    state and the flags of the token, as they were. *)
Theorem transition_accepts (h : Heap) (a : addr) (x : Z) :
  valid_token h a = true ->
  exists s, gosiuml_get_state (Some a) h = Some (s, h)
    /\ (((s = STATE_NIL /\ x = STATE_ALLOCATED)
         \/ ((s = STATE_ALLOCATED \/ s = STATE_ACTIVE) /\ x = STATE_LOCKED)
         \/ x = STATE_FREED) ->
        exists h', gosiuml_transition (Some a) x h = Some (0, h'))
    /\ (~ ((s = STATE_NIL /\ x = STATE_ALLOCATED)
           \/ ((s = STATE_ALLOCATED \/ s = STATE_ACTIVE) /\ x = STATE_LOCKED)
           \/ x = STATE_FREED) ->
        gosiuml_transition (Some a) x h = Some (-1, h)).
Proof.
  intros Hv. destruct (valid_token_live _ _ Hv) as [t Ht].
  exists (state_of t (payload_of h t)).
  split; [now apply get_state_eval|].
  rewrite (transition_eval _ _ _ x Hv Ht).
  rewrite <- code_legal_edge_iff.
  destruct (code_legal_edge (state_of t (payload_of h t)) x); split.
  - eauto.
  - intros Hn. now destruct Hn.
  - discriminate.
  - reflexivity.
Qed.

Lemma transition_accepts_witness :
  valid_token (sample_heap active_flags 0) 1%positive = true
  /\ exists h', gosiuml_transition (Some 1%positive) STATE_LOCKED
                  (sample_heap active_flags 0) = Some (0, h').
Proof.
  split; [reflexivity|].
  destruct (transition_accepts (sample_heap active_flags 0) 1%positive
              STATE_LOCKED eq_refl) as (s & Hs & Hyes & _).
  apply Hyes. right. left. split; [|reflexivity]. right.
  injection Hs as <-. reflexivity.
Defined.

(** C1 (as stated) fails: LOCKED to ACTIVE and DEGRADED to LOCKED are edges
    of the table of the specification, and both requests return -1 and
    change nothing. *)
Lemma transition_table_counterexample :
  spec_legal_edge STATE_LOCKED STATE_ACTIVE = true
  /\ gosiuml_get_state (Some 1%positive) (sample_heap locked_flags 0)
     = Some (STATE_LOCKED, sample_heap locked_flags 0)
  /\ gosiuml_transition (Some 1%positive) STATE_ACTIVE
       (sample_heap locked_flags 0)
     = Some (-1, sample_heap locked_flags 0)
  /\ spec_legal_edge STATE_DEGRADED STATE_LOCKED = true
  /\ gosiuml_get_state (Some 1%positive) (sample_heap active_flags 700)
     = Some (STATE_DEGRADED, sample_heap active_flags 700)
  /\ gosiuml_transition (Some 1%positive) STATE_LOCKED
       (sample_heap active_flags 700)
     = Some (-1, sample_heap active_flags 700).
Proof. repeat split; reflexivity. Qed.

(** C10. On every live token, whatever its flags, the request for FREED
    returns 0; in the heap it leaves, the token has [allocated] and
    [locked] cleared and every other field as before (the other flags and
    the reference count, the payload pointer, the navigation links, the
    identification and the relation), the payloads are all still there,
    nothing was given back to the allocator, and the other tokens are
    untouched. *)
Theorem transition_freed_frame (h : Heap) (a : addr) (t : PhenoToken) :
  valid_token h a = true -> h_tokens h !! a = Some t ->
  exists h' t',
    gosiuml_transition (Some a) STATE_FREED h = Some (0, h')
    /\ h_tokens h' !! a = Some t'
    /\ allocated (mem_flags t') = false /\ locked (mem_flags t') = false
    /\ dirty (mem_flags t') = dirty (mem_flags t)
    /\ pinned (mem_flags t') = pinned (mem_flags t)
    /\ shared (mem_flags t') = shared (mem_flags t)
    /\ coherent (mem_flags t') = coherent (mem_flags t)
    /\ nil_state (mem_flags t') = nil_state (mem_flags t)
    /\ null_state (mem_flags t') = null_state (mem_flags t)
    /\ ref_count (mem_flags t') = ref_count (mem_flags t)
    /\ mem_zone (mem_flags t') = mem_zone (mem_flags t)
    /\ access_level (mem_flags t') = access_level (mem_flags t)
    /\ mem_reserved (mem_flags t') = mem_reserved (mem_flags t)
    /\ value t' = value t
    /\ left t' = left t /\ right t' = right t /\ parent t' = parent t
    /\ balance_factor t' = balance_factor t
    /\ token_id t' = token_id t /\ token_type t' = token_type t
    /\ token_name t' = token_name t /\ type t' = type t
    /\ relation t' = relation t
    /\ h_values h' = h_values h
    /\ h_avail h' = h_avail h /\ h_next h' = h_next h
    /\ (forall b, b <> a -> h_tokens h' !! b = h_tokens h !! b).
Proof.
  intros Hv Ht.
  exists (put_token a (transition_effect STATE_FREED t) h),
    (transition_effect STATE_FREED t).
  split.
  { rewrite (transition_eval _ _ _ _ Hv Ht).
    replace (code_legal_edge (state_of t (payload_of h t)) STATE_FREED)
      with true; [reflexivity|].
    symmetry. apply code_legal_edge_iff. auto. }
  split; [apply lookup_put_token|].
  repeat (split; [reflexivity|]).
  intros b Hb. now apply lookup_put_token_ne.
Qed.

Lemma transition_freed_frame_witness :
  exists h' t',
    gosiuml_transition (Some 1%positive) STATE_FREED
      (sample_heap locked_flags 700) = Some (0, h')
    /\ h_tokens h' !! 1%positive = Some t'
    /\ allocated (mem_flags t') = false /\ locked (mem_flags t') = false
    /\ ref_count (mem_flags t') = 1
    /\ value t' = Some 2%positive
    /\ h_values h' = h_values (sample_heap locked_flags 700).
Proof.
  destruct (transition_freed_frame (sample_heap locked_flags 700) 1%positive
              _ eq_refl eq_refl)
    as (h' & t' & Hrun & Ht' & Ha & Hl & _ & _ & _ & _ & _ & _ & Hrc & _ & _
        & _ & Hval & _ & _ & _ & _ & _ & _ & _ & _ & _ & Hvals & _).
  exists h', t'. repeat split; assumption.
Defined.

(** X24. In a single thread, once a request for LOCKED has succeeded on a
    token, a second request for LOCKED returns -1 at once (the function
    has no loop and does not wait), changes nothing, and the token is
    still reported LOCKED.  On the state-machine side the lock is taken
    by a compare-and-exchange of the [locked] flag from 0 to 1: the
    transition answers LOCKED only if the flag was clear and is now set,
    and a later attempt on the locked token fails, answers ALLOCATED and
    changes nothing. *)
Theorem second_lock_fails (h h1 : Heap) (a : addr) :
  valid_token h a = true ->
  (gosiuml_transition (Some a) STATE_LOCKED h = Some (0, h1) ->
   gosiuml_get_state (Some a) h1 = Some (STATE_LOCKED, h1)
   /\ gosiuml_transition (Some a) STATE_LOCKED h1 = Some (-1, h1))
  /\ (forall sm spurious,
        token sm = Some a ->
        transition_allocated_to_locked spurious sm h
        = Some (STATE_LOCKED, h1) ->
        (exists t t1, h_tokens h !! a = Some t
           /\ h_tokens h1 !! a = Some t1
           /\ locked (mem_flags t) = false /\ locked (mem_flags t1) = true)
        /\ forall spurious',
             transition_allocated_to_locked spurious' sm h1
             = Some (STATE_ALLOCATED, h1)).
Proof.
  intros Hv. destruct (valid_token_live _ _ Hv) as [t Ht]. split.
  - rewrite (transition_eval _ _ _ _ Hv Ht).
    destruct (code_legal_edge (state_of t (payload_of h t)) STATE_LOCKED) eqn:E;
      [|discriminate].
    intros [= <-].
    assert (Hv1 : valid_token
                    (put_token a (transition_effect STATE_LOCKED t) h) a
                  = true).
    { unfold valid_token in *. rewrite lookup_put_token. now rewrite Ht in Hv. }
    apply code_legal_edge_iff in E.
    assert (Hal : allocated (mem_flags t) = true).
    { destruct E as [[_ E]|[[E _]|E]]; try discriminate.
      unfold state_of in E. destruct (allocated (mem_flags t)); [reflexivity|].
      simpl in E. destruct E; discriminate. }
    assert (Hs : state_of (transition_effect STATE_LOCKED t)
                   (payload_of
                      (put_token a (transition_effect STATE_LOCKED t) h)
                      (transition_effect STATE_LOCKED t)) = STATE_LOCKED).
    { unfold state_of; simpl. now rewrite Hal. }
    split.
    + rewrite (get_state_eval _ _ _ Hv1 (lookup_put_token _ _ _)).
      now rewrite Hs.
    + rewrite (transition_eval _ _ _ _ Hv1 (lookup_put_token _ _ _)).
      now rewrite Hs.
  - intros sm spurious Hsm. unfold transition_allocated_to_locked.
    rewrite Hsm. unfold bind. rewrite (load_token_live _ _ _ Ht).
    unfold atomic_compare_exchange_weak.
    destruct spurious; simpl.
    { rewrite (store_token_live _ _ _ Ht). discriminate. }
    destruct (locked (mem_flags t)) eqn:Hl; simpl;
      rewrite (store_token_live _ _ _ Ht); [discriminate|].
    intros [= <-]. split.
    + exists t, (set_mem_flags (set_locked true) t).
      repeat split; [exact Ht | apply lookup_put_token | exact Hl].
    + intros spurious'. rewrite (load_token_live _ _ _ (lookup_put_token _ _ _)).
      assert (Hsame : put_token a
                        (set_mem_flags (set_locked true)
                           (set_mem_flags (set_locked true) t))
                        (put_token a (set_mem_flags (set_locked true) t) h)
                      = put_token a (set_mem_flags (set_locked true) t) h).
      { now rewrite put_token_twice. }
      destruct spurious'; simpl;
        rewrite (store_token_live _ _ _ (lookup_put_token _ _ _));
        now rewrite Hsame.
Qed.

Lemma second_lock_fails_witness :
  valid_token (sample_heap active_flags 0) 1%positive = true
  /\ gosiuml_transition (Some 1%positive) STATE_LOCKED
       (sample_heap active_flags 0)
     = Some (0, sample_heap locked_flags 0)
  /\ gosiuml_get_state (Some 1%positive) (sample_heap locked_flags 0)
     = Some (STATE_LOCKED, sample_heap locked_flags 0)
  /\ gosiuml_transition (Some 1%positive) STATE_LOCKED
       (sample_heap locked_flags 0)
     = Some (-1, sample_heap locked_flags 0)
  /\ transition_allocated_to_locked false sample_machine
       (sample_heap active_flags 0)
     = Some (STATE_LOCKED, sample_heap locked_flags 0)
  /\ transition_allocated_to_locked false sample_machine
       (sample_heap locked_flags 0)
     = Some (STATE_ALLOCATED, sample_heap locked_flags 0).
Proof.
  split; [reflexivity|]. split; [reflexivity|].
  destruct (second_lock_fails (sample_heap active_flags 0)
              (sample_heap locked_flags 0) 1%positive eq_refl)
    as [Hlock Hcas].
  destruct (Hlock eq_refl) as [Hstate Hagain].
  split; [exact Hstate|]. split; [exact Hagain|].
  split; [reflexivity|].
  exact (proj2 (Hcas sample_machine false eq_refl eq_refl) false).
Defined.

(** ** Concurrent lock requests *)

(** A call of [gosiuml_transition] is its two statements, one after the
    other. *)
Lemma transition_two_statements (a : addr) (new_state : Z) (h : Heap) :
  gosiuml_transition (Some a) new_state h
  = (c1 <- caller_step a new_state Entered ;;
     c2 <- caller_step a new_state c1 ;;
     caller_result c2) h.
Proof.
  unfold gosiuml_transition, caller_step, caller_result, bind.
  destruct (gosiuml_get_state (Some a) h) as [[current h1]|]; [|reflexivity].
  unfold transition_switch, bind, ret.
  destruct (new_state =? STATE_ALLOCATED).
  { destruct (negb (current =? STATE_NIL)); [reflexivity|].
    now destruct (update_token a (set_mem_flags (set_allocated true)) h1)
      as [[[] ?]|]. }
  destruct (new_state =? STATE_LOCKED).
  { destruct (negb (current =? STATE_ALLOCATED)
              && negb (current =? STATE_ACTIVE)); [reflexivity|].
    now destruct (update_token a (set_mem_flags (set_locked true)) h1)
      as [[[] ?]|]. }
  destruct (new_state =? STATE_FREED); [|reflexivity].
  destruct (update_token a (set_mem_flags (set_allocated false)) h1)
    as [[[] h2]|]; [|reflexivity].
  now destruct (update_token a (set_mem_flags (set_locked false)) h2)
    as [[[] ?]|].
Qed.

(** C6. Two requests for LOCKED on the same token, which the state query
    reports ACTIVE, that interleave so that both query the state before
    either writes the flag, both return 0: the second request succeeds
    on a token the first has locked, because [gosiuml_transition] tests
    the state and sets the flag in two separate plain statements.  Run
    one after the other, the second request returns -1.  The
    compare-and-exchange of [transition_allocated_to_locked] is one
    step, so of two attempts on the same token, whatever the weak form
    does, at most one answers LOCKED. *)
Theorem concurrent_lock_both_succeed (h : Heap) (a : addr) (t : PhenoToken) :
  valid_token h a = true -> h_tokens h !! a = Some t ->
  state_of t (payload_of h t) = STATE_ACTIVE ->
  run_callers a STATE_LOCKED [false; true; false; true] Entered Entered h
  = Some ((Returned 0, Returned 0),
          put_token a (set_mem_flags (set_locked true) t) h)
  /\ run_callers a STATE_LOCKED [false; false; true; true] Entered Entered h
     = Some ((Returned 0, Returned (-1)),
             put_token a (set_mem_flags (set_locked true) t) h)
  /\ gosiuml_get_state (Some a)
       (put_token a (set_mem_flags (set_locked true) t) h)
     = Some (STATE_LOCKED, put_token a (set_mem_flags (set_locked true) t) h)
  /\ forall sm1 sm2 sp1 sp2 r1 r2 h1 h2,
       token sm1 = Some a -> token sm2 = Some a ->
       transition_allocated_to_locked sp1 sm1 h = Some (r1, h1) ->
       transition_allocated_to_locked sp2 sm2 h1 = Some (r2, h2) ->
       ~ (r1 = STATE_LOCKED /\ r2 = STATE_LOCKED).
Proof.
  intros Hv Ht Hs.
  set (t1 := set_mem_flags (set_locked true) t).
  set (h1 := put_token a t1 h).
  assert (Hq : gosiuml_get_state (Some a) h = Some (STATE_ACTIVE, h)).
  { rewrite (get_state_eval _ _ _ Hv Ht). now rewrite Hs. }
  assert (Hal : allocated (mem_flags t) = true).
  { unfold state_of in Hs. destruct (allocated (mem_flags t));
      [reflexivity|discriminate]. }
  assert (Ht1 : h_tokens h1 !! a = Some t1) by apply lookup_put_token.
  assert (Hv1 : valid_token h1 a = true).
  { unfold valid_token in *. unfold h1. rewrite lookup_put_token.
    now rewrite Ht in Hv. }
  assert (Hq1 : gosiuml_get_state (Some a) h1 = Some (STATE_LOCKED, h1)).
  { rewrite (get_state_eval _ _ _ Hv1 Ht1). unfold state_of, t1; simpl.
    now rewrite Hal. }
  assert (Hw : update_token a (set_mem_flags (set_locked true)) h
               = Some (tt, h1)).
  { now rewrite (update_token_live _ _ _ Ht). }
  assert (Hw1 : update_token a (set_mem_flags (set_locked true)) h1
                = Some (tt, h1)).
  { rewrite (update_token_live _ _ _ Ht1). unfold h1.
    now rewrite put_token_twice. }
  assert (Hc : caller_step a STATE_LOCKED Entered h
               = Some (Queried STATE_ACTIVE, h)).
  { unfold caller_step, bind, ret. now rewrite Hq. }
  assert (Hc1 : caller_step a STATE_LOCKED Entered h1
                = Some (Queried STATE_LOCKED, h1)).
  { unfold caller_step, bind, ret. now rewrite Hq1. }
  assert (Hs0 : caller_step a STATE_LOCKED (Queried STATE_ACTIVE) h
                = Some (Returned 0, h1)).
  { unfold caller_step, transition_switch, bind, ret.
    change (STATE_LOCKED =? STATE_ALLOCATED) with false.
    change (STATE_LOCKED =? STATE_LOCKED) with true.
    change (negb (STATE_ACTIVE =? STATE_ALLOCATED)
            && negb (STATE_ACTIVE =? STATE_ACTIVE)) with false.
    cbv beta iota. now rewrite Hw. }
  assert (Hs1 : caller_step a STATE_LOCKED (Queried STATE_ACTIVE) h1
                = Some (Returned 0, h1)).
  { unfold caller_step, transition_switch, bind, ret.
    change (STATE_LOCKED =? STATE_ALLOCATED) with false.
    change (STATE_LOCKED =? STATE_LOCKED) with true.
    change (negb (STATE_ACTIVE =? STATE_ALLOCATED)
            && negb (STATE_ACTIVE =? STATE_ACTIVE)) with false.
    cbv beta iota. now rewrite Hw1. }
  assert (Hs2 : caller_step a STATE_LOCKED (Queried STATE_LOCKED) h1
                = Some (Returned (-1), h1)) by reflexivity.
  split; [|split; [|split]].
  - cbn [run_callers]. unfold bind.
    rewrite Hc; cbv beta iota. rewrite Hc; cbv beta iota.
    rewrite Hs0; cbv beta iota. rewrite Hs1. reflexivity.
  - cbn [run_callers]. unfold bind.
    rewrite Hc; cbv beta iota. rewrite Hs0; cbv beta iota.
    rewrite Hc1; cbv beta iota. rewrite Hs2. reflexivity.
  - exact Hq1.
  - intros sm1 sm2 sp1 sp2 r1 r2 h1' h2 Hsm1 Hsm2.
    unfold transition_allocated_to_locked, bind. rewrite Hsm1, Hsm2.
    rewrite (load_token_live _ _ _ Ht).
    unfold atomic_compare_exchange_weak.
    destruct sp1; simpl.
    { rewrite (store_token_live _ _ _ Ht). unfold ret. intros E _ [Hr _].
      assert (r1 = STATE_ALLOCATED) by congruence. subst r1. discriminate. }
    destruct (locked (mem_flags t)) eqn:Hl; simpl;
      rewrite (store_token_live _ _ _ Ht); unfold ret; intros E.
    { intros _ [Hr _].
      assert (r1 = STATE_ALLOCATED) by congruence. subst r1. discriminate. }
    assert (h1' = h1) as -> by (unfold h1, t1; congruence).
    rewrite (load_token_live _ _ _ Ht1).
    destruct sp2; simpl; rewrite (store_token_live _ _ _ Ht1); unfold ret;
      intros E2 [_ Hr];
      assert (r2 = STATE_ALLOCATED) by congruence; subst r2; discriminate.
Qed.

Lemma concurrent_lock_both_succeed_witness :
  valid_token (sample_heap active_flags 0) 1%positive = true
  /\ gosiuml_get_state (Some 1%positive) (sample_heap active_flags 0)
     = Some (STATE_ACTIVE, sample_heap active_flags 0)
  /\ run_callers 1%positive STATE_LOCKED [false; true; false; true]
       Entered Entered (sample_heap active_flags 0)
     = Some ((Returned 0, Returned 0), sample_heap locked_flags 0)
  /\ run_callers 1%positive STATE_LOCKED [false; false; true; true]
       Entered Entered (sample_heap active_flags 0)
     = Some ((Returned 0, Returned (-1)), sample_heap locked_flags 0).
Proof.
  split; [reflexivity|]. split; [reflexivity|].
  destruct (concurrent_lock_both_succeed (sample_heap active_flags 0)
              1%positive _ eq_refl eq_refl eq_refl)
    as (Hrace & Hseq & _).
  split; [exact Hrace|exact Hseq].
Defined.

(** ** Creation and release *)

Ltac heap_steps :=
  repeat (rewrite ?lookup_insert_eq, ?insert_insert_eq; simpl).

Lemma create_eval (h : Heap) (n : nat) (type : Z) (name : option string) :
  h_avail h = S n ->
  gosiuml_create_token type name h =
  Some (Some (h_next h),
        match n with
        | O =>
            {| h_tokens :=
                 <[h_next h := created_token type name None]> (h_tokens h);
               h_values := h_values h;
               h_next := Pos.succ (h_next h); h_avail := O |}
        | S m =>
            {| h_tokens :=
                 <[h_next h :=
                     created_token type name (Some (Pos.succ (h_next h)))]>
                   (h_tokens h);
               h_values := <[Pos.succ (h_next h) := zero_value]> (h_values h);
               h_next := Pos.succ (Pos.succ (h_next h)); h_avail := m |}
        end).
Proof.
  destruct h as [tk vl nx av]; simpl. intros ->.
  unfold gosiuml_create_token, bind, calloc_token; simpl.
  unfold update_token, bind, load_token, store_token, put_token; simpl.
  rewrite lookup_insert_eq.
  destruct name as [s|]; simpl; unfold ret; heap_steps;
    destruct n; unfold calloc_value; simpl; heap_steps; reflexivity.
Qed.

(** When the allocator has nothing left, creation returns the null
    pointer. *)
Lemma create_exhausted (h : Heap) (type : Z) (name : option string) :
  h_avail h = O -> gosiuml_create_token type name h = Some (None, h).
Proof.
  intros Hav. unfold gosiuml_create_token, bind, calloc_token.
  now rewrite Hav.
Qed.

(** C2 (as amended). Whenever the allocator can serve the record, creating
    a token returns a live token whose [allocated] flag is 1 and whose
    reference count is 1, and the state queried right after creation is
    ACTIVE. *)
Theorem create_token_active (h : Heap) (n : nat) (type : Z)
  (name : option string) :
  h_avail h = S n ->
  exists a h' t,
    gosiuml_create_token type name h = Some (Some a, h')
    /\ h_tokens h' !! a = Some t
    /\ allocated (mem_flags t) = true
    /\ ref_count (mem_flags t) = 1
    /\ gosiuml_get_state (Some a) h' = Some (STATE_ACTIVE, h').
Proof.
  intros Hav. rewrite (create_eval _ _ _ _ Hav).
  destruct n as [|m], name as [s|];
    (eexists _, _, _; split; [reflexivity|]; simpl;
     split; [apply lookup_insert_eq|];
     split; [reflexivity|]; split; [reflexivity|];
     unfold gosiuml_get_state, bind, load_token, load_value; simpl;
     rewrite lookup_insert_eq; simpl; rewrite ?lookup_insert_eq;
     reflexivity).
Qed.

Lemma create_token_active_witness :
  h_avail (empty_heap 2) = 2%nat
  /\ exists a h' t,
       gosiuml_create_token NODE_IDENTITY (Some "TEST"%string) (empty_heap 2)
       = Some (Some a, h')
       /\ h_tokens h' !! a = Some t
       /\ allocated (mem_flags t) = true
       /\ ref_count (mem_flags t) = 1
       /\ gosiuml_get_state (Some a) h' = Some (STATE_ACTIVE, h').
Proof.
  split; [reflexivity|].
  exact (create_token_active (empty_heap 2) 1 NODE_IDENTITY
           (Some "TEST"%string) eq_refl).
Defined.

(** C2 (as stated) fails: right after creation the state query answers
    ACTIVE, not ALLOCATED. *)
Lemma create_state_counterexample :
  exists a h',
    gosiuml_create_token NODE_IDENTITY (Some "TEST"%string) (empty_heap 2)
    = Some (Some a, h')
    /\ gosiuml_get_state (Some a) h' = Some (STATE_ACTIVE, h')
    /\ gosiuml_get_state (Some a) h' <> Some (STATE_ALLOCATED, h').
Proof.
  eexists _, _. split; [reflexivity|]. split; [reflexivity|].
  intros H. apply (f_equal (fun r => match r with
                                     | Some (s, _) => s
                                     | None => 0
                                     end)) in H.
  vm_compute in H. discriminate.
Qed.

(** The self-test of the library, which expects ACTIVE after creation and
    LOCKED after the lock, passes whenever the record can be allocated. *)
Lemma self_test_passes (n : nat) :
  exists h', gosiuml_test_state_machine false (empty_heap (S n))
             = Some (0, h').
Proof.
  destruct n as [|[|n]]; eexists; vm_compute; reflexivity.
Qed.

Lemma free_eval (h : Heap) (a : addr) (t : PhenoToken) :
  valid_token h a = true -> h_tokens h !! a = Some t ->
  gosiuml_free_token (Some a) h = Some (tt, release a t h).
Proof.
  intros Hv Ht. unfold gosiuml_free_token, bind, release.
  rewrite (load_token_live _ _ _ Ht).
  destruct (value t) as [va|] eqn:Hva.
  - destruct (valid_token_payload _ _ _ _ Hv Ht Hva) as (v & Hlv & _).
    unfold free_value_block. rewrite Hlv.
    unfold free_token_block; simpl. now rewrite Ht.
  - unfold ret, free_token_block. now rewrite Ht.
Qed.

(** C7 (as amended). Releasing a live token never refuses and reports
    nothing: whatever the reference count, the record and its payload (if
    any) are gone afterwards, and all other records and payloads are
    untouched; on the null pointer it does nothing. *)
Theorem free_token_unconditional (h : Heap) (a : addr) (t : PhenoToken) :
  valid_token h a = true -> h_tokens h !! a = Some t ->
  exists h',
    gosiuml_free_token (Some a) h = Some (tt, h')
    /\ h_tokens h' !! a = None
    /\ (forall va, value t = Some va -> h_values h' !! va = None)
    /\ (forall b, b <> a -> h_tokens h' !! b = h_tokens h !! b)
    /\ (forall vb, value t <> Some vb -> h_values h' !! vb = h_values h !! vb)
    /\ gosiuml_free_token None h = Some (tt, h).
Proof.
  intros Hv Ht. exists (release a t h).
  split; [now apply free_eval|]. unfold release; simpl.
  split; [apply lookup_delete_eq|].
  split.
  { intros va ->. apply lookup_delete_eq. }
  split.
  { intros b Hb. now apply lookup_delete_ne. }
  split; [|reflexivity].
  intros vb Hvb. destruct (value t) as [va|]; [|reflexivity].
  apply lookup_delete_ne. congruence.
Qed.

Lemma free_token_unconditional_witness :
  exists h',
    gosiuml_free_token (Some 1%positive) (sample_heap referenced_flags 0)
    = Some (tt, h')
    /\ h_tokens h' !! 1%positive = None
    /\ h_values h' !! 2%positive = None.
Proof.
  destruct (free_token_unconditional (sample_heap referenced_flags 0)
              1%positive _ eq_refl eq_refl)
    as (h' & Hrun & Htok & Hval & _).
  exists h'. split; [exact Hrun|]. split; [exact Htok|].
  apply Hval. reflexivity.
Defined.

(** C7 (as stated) fails: a token whose reference count is 2 is released
    all the same, record and payload. *)
Lemma free_referenced_counterexample :
  (exists t, h_tokens (sample_heap referenced_flags 0) !! 1%positive = Some t
             /\ ref_count (mem_flags t) = 2)
  /\ exists h',
       gosiuml_free_token (Some 1%positive) (sample_heap referenced_flags 0)
       = Some (tt, h')
       /\ h_tokens h' !! 1%positive = None
       /\ h_values h' !! 2%positive = None.
Proof.
  split.
  - eexists. split; reflexivity.
  - eexists. split; [reflexivity|]. split; reflexivity.
Qed.

(** ** The degradation tracker *)

(** A property of the scores a 10-bit field holds is checked on each of
    them. *)
Lemma every_score (P : Z -> bool) :
  forallb P (map Z.of_nat (seq 0 1024)) = true ->
  forall s, 0 <= s < 1024 -> P s = true.
Proof.
  intros H s Hs. rewrite forallb_forall in H. apply H.
  rewrite <- (Z2Nat.id s) by lia. apply in_map, in_seq. lia.
Qed.

(** The literal [0.6] is the quotient of 6 by 10 rounded to [double]. *)
Lemma threshold_literal :
  DEGRADATION_THRESHOLD = double_div (double_of_int 6) (double_of_int 10).
Proof. vm_compute. reflexivity. Qed.

Lemma score_ratio_range (s : Z) :
  0 <= s < 1024 ->
  (0 <= float_value (score_ratio s) <= 1)%Q.
Proof.
  intros Hs.
  pose proof (every_score
                (fun s => Qle_bool 0 (float_value (score_ratio s))
                          && Qle_bool (float_value (score_ratio s)) 1)
                ltac:(vm_compute; reflexivity) s Hs) as H.
  cbv beta in H. apply andb_true_iff in H.
  now rewrite !Qle_bool_iff in H.
Qed.

(** The rounded quotient is within half a unit of the last place of
    [score / 1023], that is within [2 ^ -25]. *)
Lemma score_ratio_near (s : Z) :
  0 <= s < 1024 ->
  (float_value (score_ratio s) - inject_Z s / inject_Z 1023
   <= 1 # 33554432)%Q
  /\ (inject_Z s / inject_Z 1023 - float_value (score_ratio s)
      <= 1 # 33554432)%Q.
Proof.
  intros Hs.
  pose proof (every_score
                (fun s =>
                   Qle_bool (float_value (score_ratio s)
                             - inject_Z s / inject_Z 1023) (1 # 33554432)
                   && Qle_bool (inject_Z s / inject_Z 1023
                                - float_value (score_ratio s))
                        (1 # 33554432))
                ltac:(vm_compute; reflexivity) s Hs) as H.
  cbv beta in H. apply andb_true_iff in H.
  now rewrite !Qle_bool_iff in H.
Qed.

(** It is [score / 1023] itself only at the two ends of the scale. *)
Lemma score_ratio_exact (s : Z) :
  0 <= s < 1024 ->
  (float_value (score_ratio s) == inject_Z s / inject_Z 1023)%Q
  <-> s = 0 \/ s = 1023.
Proof.
  intros Hs.
  pose proof (every_score
                (fun s =>
                   Bool.eqb (Qeq_bool (float_value (score_ratio s))
                               (inject_Z s / inject_Z 1023))
                     ((s =? 0) || (s =? 1023)))
                ltac:(vm_compute; reflexivity) s Hs) as H.
  cbv beta in H. apply eqb_prop in H.
  rewrite <- Qeq_bool_iff, H, orb_true_iff, !Z.eqb_eq. tauto.
Qed.

(** On the scores a 10-bit field holds, the rounded quotient exceeds the
    threshold from 614 on. *)
Lemma score_ratio_threshold (s : Z) :
  0 <= s < 1024 ->
  double_gt (double_of_float (score_ratio s)) DEGRADATION_THRESHOLD
  = (614 <=? s).
Proof.
  intros Hs.
  pose proof (every_score
                (fun s =>
                   Bool.eqb (double_gt (double_of_float (score_ratio s))
                               DEGRADATION_THRESHOLD)
                     (614 <=? s))
                ltac:(vm_compute; reflexivity) s Hs) as H.
  cbv beta in H. now apply eqb_prop in H.
Qed.

(** Multiplied by 1023 in [float] and truncated, the rounded quotient
    gives the score back. *)
Lemma score_ratio_rewritten (s : Z) :
  0 <= s < 1024 ->
  uint32_of_float (float_mul (score_ratio s) (float_of_int 1023)) = Some s.
Proof.
  intros Hs.
  pose proof (every_score
                (fun s =>
                   match uint32_of_float
                           (float_mul (score_ratio s) (float_of_int 1023))
                   with
                   | Some n => n =? s
                   | None => false
                   end)
                ltac:(vm_compute; reflexivity) s Hs) as H.
  cbv beta in H.
  destruct (uint32_of_float (float_mul (score_ratio s) (float_of_int 1023)))
    as [n|]; [|discriminate].
  apply Z.eqb_eq in H. now subst n.
Qed.

Lemma wf_value_score (v : PhenoTokenValue) :
  wf_value v = true -> 0 <= score (metrics v) < 1024.
Proof.
  unfold wf_value. rewrite !andb_true_iff, !Z.leb_le, !Z.ltb_lt. tauto.
Qed.

Lemma payload_score (h : Heap) (a : addr) (t : PhenoToken)
  (v : PhenoTokenValue) :
  valid_token h a = true -> h_tokens h !! a = Some t ->
  payload_of h t = Some v -> 0 <= score (metrics v) < 1024.
Proof.
  intros Hv Ht Hp. unfold payload_of in Hp.
  destruct (value t) as [va|] eqn:Hva; [|discriminate].
  destruct (valid_token_payload _ _ _ _ Hv Ht Hva) as (v' & Hlv & Hwf).
  rewrite Hp in Hlv. injection Hlv as <-. now apply wf_value_score.
Qed.

Lemma degradation_score_eval (h : Heap) (a : addr) (t : PhenoToken) :
  valid_token h a = true -> h_tokens h !! a = Some t ->
  calculate_degradation_score (Some a) h =
  Some (match payload_of h t with
        | Some v => score_ratio (score (metrics v))
        | None => S754_zero false
        end, h).
Proof.
  intros Hv Ht. unfold calculate_degradation_score, bind, payload_of.
  rewrite (load_token_live _ _ _ Ht).
  destruct (value t) as [va|] eqn:Hva; [|reflexivity].
  destruct (valid_token_payload _ _ _ _ Hv Ht Hva) as (v & Hlv & _).
  unfold load_value. now rewrite Hlv.
Qed.

(** C4. On every pointer that is null or points to a live token, the
    degradation score is computed without touching the heap and lies
    between 0 and 1.  When the token has a payload it is
    [metrics.score / 1023.0] as C computes it: the quotient taken in
    [double] and rounded to [float], which is within [2 ^ -25] of the
    ratio of the two integers.  When the payload pointer (or the token
    pointer) is null it is exactly [0.0]. *)
Theorem degradation_score_range (h : Heap) (p : ptr) :
  valid_ptr h p = true ->
  exists d, calculate_degradation_score p h = Some (d, h)
    /\ (0 <= float_value d <= 1)%Q
    /\ (p = None -> d = S754_zero false)
    /\ (forall a t, p = Some a -> h_tokens h !! a = Some t ->
          match value t with
          | None => d = S754_zero false
          | Some va =>
              exists v, h_values h !! va = Some v
                /\ d = float_of_double
                         (double_div (double_of_int (score (metrics v)))
                            (double_of_int 1023))
                /\ (float_value d
                    - inject_Z (score (metrics v)) / inject_Z 1023
                    <= 1 # 33554432)%Q
                /\ (inject_Z (score (metrics v)) / inject_Z 1023
                    - float_value d
                    <= 1 # 33554432)%Q
          end).
Proof.
  intros Hv. destruct p as [a|].
  - destruct (valid_token_live _ _ Hv) as [t Ht].
    rewrite (degradation_score_eval _ _ _ Hv Ht). unfold payload_of.
    eexists. split; [reflexivity|].
    destruct (value t) as [va|] eqn:Hva.
    + destruct (valid_token_payload _ _ _ _ Hv Ht Hva) as (v & Hlv & Hwf).
      apply wf_value_score in Hwf.
      rewrite Hlv. split; [now apply score_ratio_range|].
      split; [discriminate|].
      intros a' t' [= <-] Ht'. rewrite Ht in Ht'. injection Ht' as <-.
      rewrite Hva. exists v. split; [exact Hlv|].
      split; [reflexivity|]. now apply score_ratio_near.
    + split; [split; discriminate|].
      split; [discriminate|].
      intros a' t' [= <-] Ht'. rewrite Ht in Ht'. injection Ht' as <-.
      now rewrite Hva.
  - exists (S754_zero false). split; [reflexivity|].
    split; [split; discriminate|].
    split; [reflexivity|]. discriminate.
Qed.

Lemma degradation_score_range_witness :
  valid_ptr (sample_heap active_flags 601) (Some 1%positive) = true
  /\ exists d,
       calculate_degradation_score (Some 1%positive)
         (sample_heap active_flags 601)
       = Some (d, sample_heap active_flags 601)
       /\ (0 <= float_value d <= 1)%Q.
Proof.
  split; [reflexivity|].
  destruct (degradation_score_range (sample_heap active_flags 601)
              (Some 1%positive) eq_refl) as (d & Hd & Hrange & _).
  exists d. split; assumption.
Defined.

(** ** The two degradation tests *)

(** The state query reports a token that is allocated, neither locked nor
    shared, and has a payload as DEGRADED exactly when its score is above
    600. *)
Lemma get_state_degraded_iff (h : Heap) (a : addr) (t : PhenoToken)
  (v : PhenoTokenValue) :
  valid_token h a = true -> h_tokens h !! a = Some t ->
  allocated (mem_flags t) = true -> locked (mem_flags t) = false ->
  shared (mem_flags t) = false -> payload_of h t = Some v ->
  gosiuml_get_state (Some a) h
  = Some (if 600 <? score (metrics v) then STATE_DEGRADED else STATE_ACTIVE, h).
Proof.
  intros Hv Ht Ha Hl Hs Hp. rewrite (get_state_eval _ _ _ Hv Ht).
  unfold state_of. now rewrite Ha, Hl, Hs, Hp.
Qed.

(** The transition of the state machine answers DEGRADED exactly when the
    score is 614 or more, that is when [score / 1023.0] exceeds 0.6;
    otherwise it answers ACTIVE and changes nothing. *)
Lemma machine_degraded_iff (sm : StateMachine) (h : Heap) (a : addr)
  (t : PhenoToken) (v : PhenoTokenValue) :
  token sm = Some a -> valid_token h a = true -> h_tokens h !! a = Some t ->
  payload_of h t = Some v ->
  (614 <= score (metrics v)
   /\ exists h', transition_active_to_degraded sm h = Some (STATE_DEGRADED, h'))
  \/ (score (metrics v) < 614
      /\ transition_active_to_degraded sm h = Some (STATE_ACTIVE, h)).
Proof.
  intros Hsm Hv Ht Hp. pose proof (payload_score _ _ _ _ Hv Ht Hp) as Hs.
  unfold transition_active_to_degraded, bind.
  rewrite Hsm, (degradation_score_eval _ _ _ Hv Ht), Hp.
  rewrite (score_ratio_threshold _ Hs), (score_ratio_rewritten _ Hs).
  destruct (Z.leb_spec 614 (score (metrics v))) as [Hge|Hlt].
  - left. split; [exact Hge|].
    rewrite (load_token_live _ _ _ Ht).
    unfold payload_of in Hp. destruct (value t) as [va|]; [|discriminate].
    unfold update_value, bind, load_value, store_value.
    rewrite Hp; simpl. rewrite Hp. eauto.
  - right. split; [exact Hlt|reflexivity].
Qed.

(** A token without payload stays ACTIVE on both sides. *)
Lemma no_payload_not_degraded (sm : StateMachine) (h : Heap) (a : addr)
  (t : PhenoToken) :
  token sm = Some a -> valid_token h a = true -> h_tokens h !! a = Some t ->
  value t = None ->
  transition_active_to_degraded sm h = Some (STATE_ACTIVE, h).
Proof.
  intros Hsm Hv Ht Hp. unfold transition_active_to_degraded, bind.
  rewrite Hsm, (degradation_score_eval _ _ _ Hv Ht).
  unfold payload_of. now rewrite Hp.
Qed.

(** C3. At score 601 the two tests disagree: the ratio 601/1023 does not
    exceed 0.6, neither as a ratio of integers nor as the [float] the
    code computes and compares with the literal [0.6], and the transition
    of the state machine keeps the token ACTIVE; yet the state query
    reports the same token DEGRADED, because it compares the raw score
    with 600 instead of 0.6 * 1023. *)
Theorem degraded_tests_disagree :
  gosiuml_get_state (Some 1%positive) (sample_heap active_flags 601)
  = Some (STATE_DEGRADED, sample_heap active_flags 601)
  /\ calculate_degradation_score (Some 1%positive)
       (sample_heap active_flags 601)
     = Some (S754_finite false 9856409 (-24), sample_heap active_flags 601)
  /\ double_gt (double_of_float (S754_finite false 9856409 (-24)))
       DEGRADATION_THRESHOLD = false
  /\ (inject_Z 601 / inject_Z 1023 <= 6 # 10)%Q
  /\ transition_active_to_degraded sample_machine
       (sample_heap active_flags 601)
     = Some (STATE_ACTIVE, sample_heap active_flags 601).
Proof.
  split; [reflexivity|]. split; [reflexivity|].
  split; [reflexivity|].
  split; [|reflexivity].
  unfold Qle; simpl. lia.
Qed.

(** The scores on which the two tests disagree are exactly 601 to 613. *)
Lemma degraded_tests_gap (s : Z) :
  0 <= s < 1024 ->
  ((600 <? s) = true
   /\ double_gt (double_of_float (score_ratio s)) DEGRADATION_THRESHOLD
      = false)
  <-> 601 <= s <= 613.
Proof.
  intros Hs.
  rewrite (score_ratio_threshold _ Hs), Z.ltb_lt, Z.leb_gt. lia.
Qed.

(** ** The ordered view of the hybrid index *)

Module AVLProofs.
Import AVL.

Section Balance.

Context {key : Type}.
Variable key_compare : key -> key -> comparison.
Variable hash_function : key -> Z.

Lemma height_nonneg (n : @node key) : 0 <= height n.
Proof. induction n; simpl; lia. Qed.

Lemma avl_height_stored (n : @node key) : avl n -> node_height n = height n.
Proof. destruct n; simpl; [reflexivity|]. tauto. Qed.

Lemma avl_balance_stored (n : @node key) :
  avl n -> -1 <= node_balance n <= 1.
Proof. destruct n; simpl; [lia|]. tauto. Qed.

Lemma mk_node_avl (l r : @node key) (k : key) :
  avl l -> avl r -> -1 <= height l - height r <= 1 ->
  avl (mk_node l k r).
Proof.
  intros Hl Hr Hd. simpl.
  rewrite (avl_height_stored _ Hl), (avl_height_stored _ Hr). tauto.
Qed.

Lemma height_mk_node (l r : @node key) (k : key) :
  height (mk_node l k r) = 1 + Z.max (height l) (height r).
Proof. reflexivity. Qed.

Ltac stored_heights :=
  repeat match goal with
         | H : avl ?t |- _ =>
             is_var t;
             lazymatch goal with
             | _ : node_height t = height t |- _ => fail
             | _ => pose proof (avl_height_stored t H)
             end
         end;
  repeat match goal with
         | H : node_height ?t = height ?t |- _ => rewrite !H in *
         end.

Lemma rotate_for_balance_avl (l r : @node key) (k : key) :
  avl l -> avl r -> -2 <= height l - height r <= 2 ->
  avl (avl_rotate_both (mk_node l k r))
  /\ Z.max (height l) (height r)
     <= height (avl_rotate_both (mk_node l k r))
     <= 1 + Z.max (height l) (height r)
  /\ (-1 <= height l - height r <= 1 ->
      height (avl_rotate_both (mk_node l k r))
      = 1 + Z.max (height l) (height r)).
Proof.
  intros Hl Hr Hd. unfold avl_rotate_both, mk_node.
  rewrite (avl_height_stored _ Hl), (avl_height_stored _ Hr).
  destruct (Z.ltb_spec 1 (height l - height r)) as [Hleft|Hnl].
  - destruct l as [|ll lk lh lb lr]; [simpl in Hleft; pose proof (height_nonneg r); lia|].
    simpl in Hl. destruct Hl as (Hll & Hlr & -> & -> & Hlb).
    simpl node_balance.
    destruct (Z.ltb_spec (height ll - height lr) 0) as [Hneg|Hpos].
    + destruct lr as [|lrl lrk lrh lrb lrr];
        [simpl in Hneg; pose proof (height_nonneg ll); lia|].
      simpl in Hlr. destruct Hlr as (Hlrl & Hlrr & -> & -> & Hlrb).
      simpl in *. stored_heights.
      pose proof (height_nonneg ll). pose proof (height_nonneg lrl).
      pose proof (height_nonneg lrr). pose proof (height_nonneg r).
      repeat split; try assumption; lia.
    + simpl in *. stored_heights.
      pose proof (height_nonneg ll). pose proof (height_nonneg lr).
      pose proof (height_nonneg r).
      repeat split; try assumption; lia.
  - destruct (Z.ltb_spec (height l - height r) (-1)) as [Hright|Hnr].
    + destruct r as [|rl rk rh rb rr]; [simpl in Hright; pose proof (height_nonneg l); lia|].
      simpl in Hr. destruct Hr as (Hrl & Hrr & -> & -> & Hrb).
      simpl node_balance.
      destruct (Z.ltb_spec 0 (height rl - height rr)) as [Hpos|Hneg].
      * destruct rl as [|rll rlk rlh rlb rlr];
          [simpl in Hpos; pose proof (height_nonneg rr); lia|].
        simpl in Hrl. destruct Hrl as (Hrll & Hrlr & -> & -> & Hrlb).
        simpl in *. stored_heights.
        pose proof (height_nonneg l). pose proof (height_nonneg rll).
        pose proof (height_nonneg rlr). pose proof (height_nonneg rr).
        repeat split; try assumption; lia.
      * simpl in *. stored_heights.
        pose proof (height_nonneg l). pose proof (height_nonneg rl).
        pose proof (height_nonneg rr).
        repeat split; try assumption; lia.
    + simpl. repeat split; try assumption; lia.
Qed.

Ltac some_inj H :=
  match type of H with
  | Some ?x = Some ?y => assert (y = x) as -> by congruence
  end.

Lemma insert_avl (k : key) (n : @node key) :
  avl n -> forall n', insert key_compare avl_rotate_both k n = Some n' ->
  avl n' /\ height n <= height n' <= 1 + height n.
Proof.
  induction n as [|l IHl k' h b r IHr]; intros Hn n' Hins;
    cbn [insert] in Hins; cbn [avl] in Hn; cbn [height].
  - some_inj Hins. simpl. repeat split; lia.
  - destruct Hn as (Hl & Hr & -> & -> & Hb).
    destruct (key_compare k k'); [discriminate| |].
    + destruct (insert key_compare avl_rotate_both k l) as [l'|]; [|discriminate].
      some_inj Hins.
      destruct (IHl Hl l' eq_refl) as (Hl' & Hh).
      destruct (rotate_for_balance_avl l' r k' Hl' Hr ltac:(lia))
        as (Hn' & Hbound & Hexact).
      split; [exact Hn'|].
      destruct (Z_le_gt_dec (height l' - height r) 1) as [Hin|Hout].
      * rewrite Hexact by lia. lia.
      * lia.
    + destruct (insert key_compare avl_rotate_both k r) as [r'|]; [|discriminate].
      some_inj Hins.
      destruct (IHr Hr r' eq_refl) as (Hr' & Hh).
      destruct (rotate_for_balance_avl l r' k' Hl Hr' ltac:(lia))
        as (Hn' & Hbound & Hexact).
      split; [exact Hn'|].
      destruct (Z_le_gt_dec (-1) (height l - height r')) as [Hin|Hout].
      * rewrite Hexact by lia. lia.
      * lia.
Qed.

Lemma remove_min_avl (l : @node key) :
  forall (k : key) (r : @node key),
  avl l -> avl r -> -1 <= height l - height r <= 1 ->
  avl (fst (remove_min avl_rotate_both l k r))
  /\ Z.max (height l) (height r) <= height (fst (remove_min avl_rotate_both l k r))
     <= 1 + Z.max (height l) (height r).
Proof.
  induction l as [|ll IHll lk lh lb lr _]; intros k r Hl Hr Hd;
    cbn [remove_min height] in *.
  - pose proof (height_nonneg r). split; [exact Hr|simpl; lia].
  - cbn [avl] in Hl. destruct Hl as (Hll & Hlr & -> & -> & Hlb).
    destruct (IHll lk lr Hll Hlr Hlb) as (Hl' & Hh).
    destruct (remove_min avl_rotate_both ll lk lr) as [l' m] eqn:E.
    cbn [fst] in *.
    destruct (rotate_for_balance_avl l' r k Hl' Hr ltac:(lia))
      as (Hn' & Hbound & Hexact).
    split; [exact Hn'|].
    destruct (Z_le_gt_dec (-1) (height l' - height r)) as [Hin|Hout].
    + rewrite Hexact by lia. lia.
    + lia.
Qed.

Lemma remove_avl (k : key) (n : @node key) :
  avl n -> forall n', remove key_compare avl_rotate_both k n = Some n' ->
  avl n' /\ height n - 1 <= height n' <= height n.
Proof.
  induction n as [|l IHl k' h b r IHr]; intros Hn n' Hrem;
    cbn [remove] in Hrem; cbn [avl] in Hn; cbn [height];
    [discriminate|].
  destruct Hn as (Hl & Hr & -> & -> & Hb).
  destruct (key_compare k k').
  - destruct r as [|rl rk rh rb rr].
    + some_inj Hrem. cbn [height] in *. pose proof (height_nonneg l).
      split; [exact Hl|]. lia.
    + cbn [avl] in Hr. destruct Hr as (Hrl & Hrr & -> & -> & Hrb).
      destruct (remove_min_avl rl rk rr Hrl Hrr Hrb) as (Hr' & Hh).
      destruct (remove_min avl_rotate_both rl rk rr) as [r' m] eqn:E.
      some_inj Hrem. cbn [fst height] in *.
      destruct (rotate_for_balance_avl l r' m Hl Hr' ltac:(lia))
        as (Hn' & Hbound & Hexact).
      split; [exact Hn'|].
      destruct (Z_le_gt_dec (height l - height r') 1) as [Hin|Hout].
      * rewrite Hexact by lia. lia.
      * lia.
  - destruct (remove key_compare avl_rotate_both k l) as [l'|]; [|discriminate].
    some_inj Hrem.
    destruct (IHl Hl l' eq_refl) as (Hl' & Hh).
    destruct (rotate_for_balance_avl l' r k' Hl' Hr ltac:(lia))
      as (Hn' & Hbound & Hexact).
    split; [exact Hn'|].
    destruct (Z_le_gt_dec (-1) (height l' - height r)) as [Hin|Hout].
    + rewrite Hexact by lia. lia.
    + lia.
  - destruct (remove key_compare avl_rotate_both k r) as [r'|]; [|discriminate].
    some_inj Hrem.
    destruct (IHr Hr r' eq_refl) as (Hr' & Hh).
    destruct (rotate_for_balance_avl l r' k' Hl Hr' ltac:(lia))
      as (Hn' & Hbound & Hexact).
    split; [exact Hn'|].
    destruct (Z_le_gt_dec (height l - height r') 1) as [Hin|Hout].
    + rewrite Hexact by lia. lia.
    + lia.
Qed.

Lemma apply_op_avl (tb : PhenoLookupTable) (o : index_op) :
  avl (avl_root tb) ->
  avl (avl_root (apply_op key_compare hash_function avl_rotate_both tb o)).
Proof.
  intros Htb. destruct o as [k|k]; simpl.
  - unfold index_insert.
    destruct (insert key_compare avl_rotate_both k (avl_root tb)) as [n'|] eqn:E; simpl;
      [|exact Htb].
    now destruct (insert_avl k _ Htb n' E).
  - unfold index_remove.
    destruct (remove key_compare avl_rotate_both k (avl_root tb)) as [n'|] eqn:E; simpl;
      [|exact Htb].
    now destruct (remove_avl k _ Htb n' E).
Qed.

Lemma run_ops_avl (ops : list index_op) (tb : PhenoLookupTable) :
  avl (avl_root tb) ->
  avl (avl_root (run_ops key_compare hash_function avl_rotate_both ops tb)).
Proof.
  revert tb. induction ops as [|o ops IH]; intros tb Htb; simpl.
  - exact Htb.
  - apply IH. now apply apply_op_avl.
Qed.

Lemma avl_all_nodes (n : @node key) :
  avl n -> all_nodes (fun m => balanced_node m /\ fields_ok m) n.
Proof.
  induction n as [|l IHl k h b r IHr]; simpl; [trivial|].
  intros (Hl & Hr & Hh & Hb & Hrange).
  unfold balanced_node; simpl. repeat split; auto; lia.
Qed.

Lemma keys_rotate_right (n : @node key) : keys (rotate_right n) = keys n.
Proof.
  destruct n as [|[|ll lk lh lb lr] k h b r]; simpl; try reflexivity.
  now rewrite <- app_assoc.
Qed.

Lemma keys_rotate_left (n : @node key) : keys (rotate_left n) = keys n.
Proof.
  destruct n as [|l k h b [|rl rk rh rb rr]]; simpl; try reflexivity.
  now rewrite <- app_assoc.
Qed.

Lemma keys_rotate_for_balance (n : @node key) :
  keys (avl_rotate_both n) = keys n.
Proof.
  destruct n as [|l k h b r]; [reflexivity|].
  unfold avl_rotate_both.
  destruct (1 <? b).
  - rewrite keys_rotate_right.
    destruct (node_balance l <? 0); [|reflexivity].
    simpl. now rewrite keys_rotate_left.
  - destruct (b <? -1); [|reflexivity].
    rewrite keys_rotate_left.
    destruct (0 <? node_balance r); [|reflexivity].
    simpl. now rewrite keys_rotate_right.
Qed.

(** An accepted insertion adds the key, and only it, to the ordered
    view. *)
Lemma insert_keys (k : key) (n : @node key) :
  forall n', insert key_compare avl_rotate_both k n = Some n' ->
  exists l1 l2, keys n = l1 ++ l2 /\ keys n' = l1 ++ k :: l2.
Proof.
  induction n as [|l IHl k' h b r IHr]; intros n' Hins; cbn [insert] in Hins.
  - some_inj Hins. now exists [], [].
  - destruct (key_compare k k'); [discriminate| |].
    + destruct (insert key_compare avl_rotate_both k l) as [l'|]; [|discriminate].
      some_inj Hins. destruct (IHl l' eq_refl) as (l1 & l2 & E1 & E2).
      exists l1, (l2 ++ k' :: keys r).
      rewrite keys_rotate_for_balance. simpl. rewrite E1, E2.
      now rewrite <- !app_assoc.
    + destruct (insert key_compare avl_rotate_both k r) as [r'|]; [|discriminate].
      some_inj Hins. destruct (IHr r' eq_refl) as (l1 & l2 & E1 & E2).
      exists (keys l ++ k' :: l1), l2.
      rewrite keys_rotate_for_balance. simpl. rewrite E1, E2.
      now rewrite <- !app_assoc.
Qed.

Lemma remove_min_keys (l : @node key) :
  forall (k : key) (r : @node key),
  keys l ++ k :: keys r
  = snd (remove_min avl_rotate_both l k r) :: keys (fst (remove_min avl_rotate_both l k r)).
Proof.
  induction l as [|ll IHll lk lh lb lr _]; intros k r; cbn [remove_min].
  - reflexivity.
  - specialize (IHll lk lr).
    destruct (remove_min avl_rotate_both ll lk lr) as [l' m]. cbn [fst snd] in *.
    rewrite keys_rotate_for_balance. simpl in *. now rewrite IHll.
Qed.

(** An accepted removal takes one key that compares equal to the
    requested one, and only it, out of the ordered view. *)
Lemma remove_keys (k : key) (n : @node key) :
  forall n', remove key_compare avl_rotate_both k n = Some n' ->
  exists l1 k' l2, key_compare k k' = Eq
    /\ keys n = l1 ++ k' :: l2 /\ keys n' = l1 ++ l2.
Proof.
  induction n as [|l IHl k' h b r IHr]; intros n' Hrem; cbn [remove] in Hrem;
    [discriminate|].
  destruct (key_compare k k') eqn:Ecmp.
  - exists (keys l), k', (keys r). split; [exact Ecmp|].
    split; [reflexivity|].
    destruct r as [|rl rk rh rb rr].
    + some_inj Hrem. simpl. now rewrite app_nil_r.
    + pose proof (remove_min_keys rl rk rr) as Hmin.
      destruct (remove_min avl_rotate_both rl rk rr) as [r' m]. some_inj Hrem.
      rewrite keys_rotate_for_balance. cbn [fst snd] in Hmin. simpl in *.
      now rewrite Hmin.
  - destruct (remove key_compare avl_rotate_both k l) as [l'|]; [|discriminate].
    some_inj Hrem. destruct (IHl l' eq_refl) as (l1 & k0 & l2 & Ek & E1 & E2).
    exists l1, k0, (l2 ++ k' :: keys r). split; [exact Ek|].
    rewrite keys_rotate_for_balance. simpl. rewrite E1, E2.
    now rewrite <- !app_assoc.
  - destruct (remove key_compare avl_rotate_both k r) as [r'|]; [|discriminate].
    some_inj Hrem. destruct (IHr r' eq_refl) as (l1 & k0 & l2 & Ek & E1 & E2).
    exists (keys l ++ k' :: l1), k0, l2. split; [exact Ek|].
    rewrite keys_rotate_for_balance. simpl. rewrite E1, E2.
    now rewrite <- !app_assoc.
Qed.

(** With the right-heavy case added to the rebalancing step, the index
    is balanced: from the empty index, after any sequence of insert and
    remove operations, and after one more operation on the index so
    reached, every node of the ordered view has its balance factor in
    -1, 0, 1, and its [height] and [balance_factor] fields agree with its
    subtrees. *)
Lemma mirrored_rotation_balance_invariant (ops : list index_op) :
  all_nodes (fun m => balanced_node m /\ fields_ok m)
    (avl_root (run_ops key_compare hash_function avl_rotate_both ops empty_table))
  /\ forall o,
       all_nodes (fun m => balanced_node m /\ fields_ok m)
         (avl_root
            (apply_op key_compare hash_function avl_rotate_both
               (run_ops key_compare hash_function avl_rotate_both ops empty_table) o)).
Proof.
  assert (H : avl (avl_root
                     (run_ops key_compare hash_function avl_rotate_both ops empty_table))).
  { apply run_ops_avl. exact I. }
  split.
  - now apply avl_all_nodes.
  - intros o. now apply avl_all_nodes, apply_op_avl.
Qed.

End Balance.

(** Where the source's step and the completed one part: on a root that
    is not right-heavy they agree. *)
Lemma rotate_both_extends {key : Type} (root : @node key) :
  -1 <= node_balance root ->
  avl_rotate_both root = avl_rotate_for_balance root.
Proof.
  destruct root as [|l k h b r]; [reflexivity|]. simpl. intros Hb.
  destruct (1 <? b); [reflexivity|].
  destruct (Z.ltb_spec b (-1)); [lia|reflexivity].
Qed.


(** The scenario of the specification: the keys 5, 3, 8, 1, 4, 7, 9
    inserted in that order, and the keys 1 to 7 in ascending order, which
    needs rotations; with the completed rebalancing step. *)
Lemma scenario_trees :
  let t1 := avl_root (run_ops Z.compare (fun k => k) avl_rotate_both
                        (map OpInsert [5; 3; 8; 1; 4; 7; 9]) empty_table) in
  let t2 := avl_root (run_ops Z.compare (fun k => k) avl_rotate_both
                        (map OpInsert [1; 2; 3; 4; 5; 6; 7]) empty_table) in
  keys t1 = [1; 3; 4; 5; 7; 8; 9] /\ height t1 = 3
  /\ keys t2 = [1; 2; 3; 4; 5; 6; 7] /\ height t2 = 3
  /\ keys (default Nil (remove Z.compare avl_rotate_both 4 t2)) = [1; 2; 3; 5; 6; 7].
Proof. vm_compute. repeat split. Qed.

End AVLProofs.

(** ** The relation codec *)

Lemma bitfield_mod (w x : Z) : 0 <= w -> bitfield w x = x mod 2 ^ w.
Proof. intros Hw. unfold bitfield. now apply Z.land_ones. Qed.

Lemma u8_mod (x : Z) : u8 x = x mod 256.
Proof. unfold u8. now rewrite bitfield_mod. Qed.

Lemma u8_range (x : Z) : 0 <= u8 x < 256.
Proof. rewrite u8_mod. apply Z.mod_pos_bound. lia. Qed.

Lemma u8_fits (x : Z) : 0 <= x < 256 -> u8 x = x.
Proof. intros Hx. rewrite u8_mod. now apply Z.mod_small. Qed.

Lemma u8_idempotent (x : Z) : u8 (u8 x) = u8 x.
Proof. apply u8_fits, u8_range. Qed.

Lemma fits_group_bounds (g : RelationGroup) :
  fits_group g = true ->
  0 <= field0 g < 256 /\ 0 <= field1 g < 256
  /\ 0 <= field2 g < 256 /\ 0 <= field3 g < 256.
Proof.
  unfold fits_group. rewrite !andb_true_iff, !Z.leb_le, !Z.ltb_lt. tauto.
Qed.

Lemma truncate_group_fits (g : RelationGroup) :
  fits_group g = true -> truncate_group g = g.
Proof.
  intros Hg. apply fits_group_bounds in Hg. destruct g as [f0 f1 f2 f3].
  unfold truncate_group; simpl in *.
  now rewrite !u8_fits by tauto.
Qed.

Lemma fits_truncate_group (g : RelationGroup) :
  fits_group (truncate_group g) = true.
Proof.
  unfold fits_group, truncate_group; simpl.
  pose proof (u8_range (field0 g)). pose proof (u8_range (field1 g)).
  pose proof (u8_range (field2 g)). pose proof (u8_range (field3 g)).
  rewrite !andb_true_iff, !Z.leb_le, !Z.ltb_lt. tauto.
Qed.

(** C5. Decoding an encoded relation block gives back the four groups
    whenever every sub-field fits its 8 bits; on any input whatever,
    encoding succeeds and decoding gives the groups with every sub-field
    reduced to its low 8 bits (its value modulo 256), which fit. *)
Theorem relation_codec_roundtrip (a b c d : RelationGroup) :
  (fits_group a = true -> fits_group b = true -> fits_group c = true ->
   fits_group d = true -> decode (encode a b c d) = (a, b, c, d))
  /\ decode (encode a b c d)
     = (truncate_group a, truncate_group b, truncate_group c,
        truncate_group d)
  /\ fits_group (truncate_group a) = true
  /\ fits_group (truncate_group b) = true
  /\ fits_group (truncate_group c) = true
  /\ fits_group (truncate_group d) = true
  /\ (forall x, u8 x = Z.land x 255 /\ u8 x = x mod 256).
Proof.
  assert (Htr : decode (encode a b c d)
                = (truncate_group a, truncate_group b, truncate_group c,
                   truncate_group d)) by reflexivity.
  split.
  { intros Ha Hb Hc Hd. rewrite Htr.
    now rewrite !truncate_group_fits. }
  split; [exact Htr|].
  repeat (split; [apply fits_truncate_group|]).
  intros x. split; [reflexivity|apply u8_mod].
Qed.

Lemma relation_codec_roundtrip_witness :
  fits_group sample_subject = true /\ fits_group sample_class = true
  /\ fits_group sample_instance = true /\ fits_group sample_person = true
  /\ decode (encode sample_subject sample_class sample_instance
               sample_person)
     = (sample_subject, sample_class, sample_instance, sample_person).
Proof.
  repeat (split; [reflexivity|]).
  exact (proj1 (relation_codec_roundtrip sample_subject sample_class
                  sample_instance sample_person)
           eq_refl eq_refl eq_refl eq_refl).
Defined.

(** Out-of-range sub-fields wrap: 300 is stored as 44 and -1 as 255. *)
Lemma relation_codec_wraps :
  decode (encode {| field0 := 300; field1 := -1; field2 := 256; field3 := 7 |}
                 {| field0 := 0; field1 := 0; field2 := 0; field3 := 0 |}
                 {| field0 := 0; field1 := 0; field2 := 0; field3 := 0 |}
                 {| field0 := 0; field1 := 0; field2 := 0; field3 := 0 |})
  = ({| field0 := 44; field1 := 255; field2 := 0; field3 := 7 |},
     {| field0 := 0; field1 := 0; field2 := 0; field3 := 0 |},
     {| field0 := 0; field1 := 0; field2 := 0; field3 := 0 |},
     {| field0 := 0; field1 := 0; field2 := 0; field3 := 0 |}).
Proof. reflexivity. Qed.

(** *** The block [parse_token_file] builds *)

Lemma testbit_u8 (x n : Z) :
  0 <= n -> Z.testbit (u8 x) n = Z.testbit x n && (n <? 8).
Proof.
  intros Hn. unfold u8, bitfield.
  now rewrite Z.land_spec, Z.testbit_ones_nonneg by lia.
Qed.

(** The 32-bit token value can be read back from the block. *)
Lemma parse_relation_value (idx ty v : Z) :
  0 <= v < 2 ^ 32 -> relation_value (parse_relation idx ty v) = v.
Proof.
  intros Hv. unfold relation_value, parse_relation; simpl.
  apply Z.bits_inj'. intros n Hn.
  rewrite !Z.lor_spec, !Z.shiftl_spec by lia.
  assert (Hhigh : 32 <= n -> Z.testbit v n = false).
  { intros Hbig. rewrite <- (Z.mod_small v (2 ^ 32)) by lia.
    apply Z.mod_pow2_bits_high. lia. }
  destruct (Z_lt_ge_dec n 8) as [H8|H8].
  { rewrite testbit_u8, Z.land_spec, Z.shiftr_spec by lia.
    rewrite (Z.testbit_neg_r _ (n - 8)), (Z.testbit_neg_r _ (n - 16)),
      (Z.testbit_neg_r _ (n - 24)) by lia.
    change 255 with (Z.ones 8). rewrite Z.testbit_ones_nonneg by lia.
    replace (n + 0) with n by lia.
    destruct (Z.ltb_spec n 8); [|lia].
    now rewrite !andb_true_r, !orb_false_r. }
  destruct (Z_lt_ge_dec n 16) as [H16|H16].
  { rewrite !testbit_u8, !Z.land_spec, !Z.shiftr_spec by lia.
    rewrite (Z.testbit_neg_r _ (n - 16)), (Z.testbit_neg_r _ (n - 24)) by lia.
    change 255 with (Z.ones 8). rewrite !Z.testbit_ones_nonneg by lia.
    replace (n - 8 + 8) with n by lia.
    destruct (Z.ltb_spec n 8); [lia|]. destruct (Z.ltb_spec (n - 8) 8); [|lia].
    now rewrite !andb_true_r, !andb_false_r, !orb_false_r. }
  destruct (Z_lt_ge_dec n 24) as [H24|H24].
  { rewrite !testbit_u8, !Z.land_spec, !Z.shiftr_spec by lia.
    rewrite (Z.testbit_neg_r _ (n - 24)) by lia.
    change 255 with (Z.ones 8). rewrite !Z.testbit_ones_nonneg by lia.
    replace (n - 16 + 16) with n by lia.
    destruct (Z.ltb_spec n 8); [lia|]. destruct (Z.ltb_spec (n - 8) 8); [lia|].
    destruct (Z.ltb_spec (n - 16) 8); [|lia].
    now rewrite !andb_true_r, !andb_false_r, !orb_false_r. }
  rewrite !testbit_u8, !Z.land_spec, !Z.shiftr_spec by lia.
  change 255 with (Z.ones 8). rewrite !Z.testbit_ones_nonneg by lia.
  replace (n - 24 + 24) with n by lia.
  destruct (Z.ltb_spec n 8); [lia|]. destruct (Z.ltb_spec (n - 8) 8); [lia|].
  destruct (Z.ltb_spec (n - 16) 8); [lia|].
  rewrite !andb_false_r. simpl.
  destruct (Z.ltb_spec (n - 24) 8).
  - now rewrite !andb_true_r.
  - rewrite !andb_false_r. symmetry. apply Hhigh. lia.
Qed.

(** The bit-counting loop needs at most 32 rounds on a 32-bit value: more
    fuel does not change its result. *)
Lemma count_bits_fuel (fuel extra : nat) (val level : Z) :
  0 <= val < 2 ^ Z.of_nat fuel ->
  count_bits (fuel + extra) val level = count_bits fuel val level.
Proof.
  revert val level. induction fuel as [|fuel IH]; intros val level Hval.
  - simpl in Hval. assert (val = 0) as -> by lia.
    destruct extra; reflexivity.
  - simpl. destruct (val =? 0); [reflexivity|].
    apply IH. rewrite Z.shiftr_div_pow2 by lia.
    rewrite Nat2Z.inj_succ, Z.pow_succ_r in Hval by lia.
    split; [apply Z.div_pos; lia|].
    apply Z.div_lt_upper_bound; lia.
Qed.

(** ** Context options *)

Lemma testbit_option_bit (bit value opts n : Z) :
  0 <= bit -> 0 <= n ->
  Z.testbit (option_bit bit value opts) n
  = if n =? bit then negb (value =? 0) else Z.testbit opts n.
Proof.
  intros Hb Hn. unfold option_bit.
  rewrite Z.shiftl_1_l.
  destruct (value =? 0); simpl.
  - rewrite Z.land_spec, Z.lnot_spec, Z.pow2_bits_eqb by lia.
    rewrite (Z.eqb_sym bit n).
    destruct (n =? bit); simpl; [apply andb_false_r|apply andb_true_r].
  - rewrite Z.lor_spec, Z.pow2_bits_eqb by lia.
    rewrite (Z.eqb_sym bit n).
    destruct (n =? bit); simpl; [apply orb_true_r|apply orb_false_r].
Qed.

Lemma option_bit_commute (b1 b2 v1 v2 opts : Z) :
  0 <= b1 -> 0 <= b2 -> b1 <> b2 ->
  option_bit b1 v1 (option_bit b2 v2 opts)
  = option_bit b2 v2 (option_bit b1 v1 opts).
Proof.
  intros H1 H2 Hne. apply Z.bits_inj'. intros n Hn.
  rewrite !testbit_option_bit by assumption.
  destruct (Z.eqb_spec n b1), (Z.eqb_spec n b2); try reflexivity. lia.
Qed.

Lemma option_bit_overwrite (b v1 v2 opts : Z) :
  0 <= b -> option_bit b v2 (option_bit b v1 opts) = option_bit b v2 opts.
Proof.
  intros Hb. apply Z.bits_inj'. intros n Hn.
  rewrite !testbit_option_bit by assumption.
  now destruct (n =? b).
Qed.

Lemma set_option_known (c : GosiUMLContext) (opt value : Z) :
  1 <= opt <= 4 ->
  gosiuml_set_option (Some c) opt value
  = (0, Some (set_options (option_bit (opt - 1) value (options c)) c)).
Proof.
  intros Hopt.
  assert (H : opt = 1 \/ opt = 2 \/ opt = 3 \/ opt = 4) by lia.
  destruct H as [H|[H|[H|H]]]; subst opt; reflexivity.
Qed.

(** X1. Setting one of the four options returns 0, makes bit [opt - 1] of the
    option word tell whether [value] is non-zero, and leaves every other
    bit and every other field of the context alone; any other option
    number is refused with -1 and the context is unchanged, as is the null
    context. *)
Theorem set_option_one_bit (c : GosiUMLContext) (opt value : Z) :
  (1 <= opt <= 4 ->
   exists c',
     gosiuml_set_option (Some c) opt value = (0, Some c')
     /\ Z.testbit (options c') (opt - 1) = negb (value =? 0)
     /\ (forall n, n <> opt - 1 ->
           Z.testbit (options c') n = Z.testbit (options c) n)
     /\ state_count c' = state_count c
     /\ stats_transition_count c' = stats_transition_count c
     /\ ctx_current_state c' = ctx_current_state c
     /\ user_data c' = user_data c)
  /\ (~ 1 <= opt <= 4 ->
      gosiuml_set_option (Some c) opt value = (-1, Some c))
  /\ gosiuml_set_option None opt value = (-1, None).
Proof.
  split; [|split; [|reflexivity]].
  - intros Hopt. rewrite (set_option_known _ _ _ Hopt).
    eexists. split; [reflexivity|]. simpl.
    split.
    { rewrite testbit_option_bit by lia. now rewrite Z.eqb_refl. }
    split; [|repeat split].
    intros n Hn. destruct (Z_lt_ge_dec n 0) as [Hneg|Hpos].
    + now rewrite !Z.testbit_neg_r.
    + rewrite testbit_option_bit by lia.
      destruct (Z.eqb_spec n (opt - 1)); [lia|reflexivity].
  - intros Hopt. unfold gosiuml_set_option.
    destruct (Z.eqb_spec opt GOSIUML_OPT_VERBOSE) as [->|_];
      [exfalso; apply Hopt; unfold GOSIUML_OPT_VERBOSE; lia|].
    destruct (Z.eqb_spec opt GOSIUML_OPT_SHOW_BITFIELDS) as [->|_];
      [exfalso; apply Hopt; unfold GOSIUML_OPT_SHOW_BITFIELDS; lia|].
    destruct (Z.eqb_spec opt GOSIUML_OPT_STATE_MACHINE) as [->|_];
      [exfalso; apply Hopt; unfold GOSIUML_OPT_STATE_MACHINE; lia|].
    destruct (Z.eqb_spec opt GOSIUML_OPT_MEMORY_TRACKING) as [->|_];
      [exfalso; apply Hopt; unfold GOSIUML_OPT_MEMORY_TRACKING; lia|].
    reflexivity.
Qed.

Lemma set_option_one_bit_witness :
  exists c',
    gosiuml_set_option (gosiuml_create_context true)
      GOSIUML_OPT_STATE_MACHINE 1 = (0, Some c')
    /\ Z.testbit (options c') 2 = true
    /\ Z.testbit (options c') 0 = false.
Proof.
  destruct (gosiuml_create_context true) as [c|] eqn:E; [|discriminate].
  injection E as <-.
  destruct (proj1 (set_option_one_bit
                     {| ctx_current_state := STATE_NIL; options := 0;
                        user_data := None; state_count := replicate 7 0;
                        stats_transition_count := 0 |}
                     GOSIUML_OPT_STATE_MACHINE 1) ltac:(vm_compute; intuition discriminate))
    as (c' & Hrun & Hbit & Hother & _).
  exists c'. split; [exact Hrun|]. split; [exact Hbit|].
  now rewrite (Hother 0) by discriminate.
Defined.

(** X2. Two different options can be set in either order, and setting one
    option twice keeps the last value. *)
Theorem set_option_commute (c : GosiUMLContext) (o1 o2 v1 v2 : Z) :
  1 <= o1 <= 4 -> 1 <= o2 <= 4 ->
  (o1 <> o2 ->
   gosiuml_set_option (snd (gosiuml_set_option (Some c) o1 v1)) o2 v2
   = gosiuml_set_option (snd (gosiuml_set_option (Some c) o2 v2)) o1 v1)
  /\ gosiuml_set_option (snd (gosiuml_set_option (Some c) o1 v1)) o1 v2
     = gosiuml_set_option (Some c) o1 v2.
Proof.
  intros H1 H2.
  rewrite !(set_option_known c) by assumption; cbn [snd].
  rewrite !set_option_known by assumption.
  split.
  - intros Hne. unfold set_options; simpl.
    now rewrite option_bit_commute by lia.
  - unfold set_options; simpl. now rewrite option_bit_overwrite by lia.
Qed.

Lemma set_option_commute_witness :
  gosiuml_set_option
    (snd (gosiuml_set_option (gosiuml_create_context true)
            GOSIUML_OPT_VERBOSE 1))
    GOSIUML_OPT_SHOW_BITFIELDS 1
  = gosiuml_set_option
      (snd (gosiuml_set_option (gosiuml_create_context true)
              GOSIUML_OPT_SHOW_BITFIELDS 1))
      GOSIUML_OPT_VERBOSE 1.
Proof.
  apply (set_option_commute
           {| ctx_current_state := STATE_NIL; options := 0;
              user_data := None; state_count := replicate 7 0;
              stats_transition_count := 0 |}
           GOSIUML_OPT_VERBOSE GOSIUML_OPT_SHOW_BITFIELDS 1 1).
  - vm_compute; intuition discriminate.
  - vm_compute; intuition discriminate.
  - discriminate.
Defined.

(** ** Library state *)

(** X3. Whatever the calls to [gosiuml_init], [gosiuml_cleanup] and
    [gosiuml_set_debug], and whether or not the mutex can be created, the
    mutex is never initialised twice nor destroyed when it is not live,
    and it is live exactly when the library says it is initialised. *)
Theorem library_state_invariant (calls : list library_call) :
  exists g, run_library_calls initial_library_state calls = Some g
            /\ mutex_live g = initialized g.
Proof.
  assert (H : forall g0, mutex_live g0 = initialized g0 ->
                exists g, run_library_calls g0 calls = Some g
                          /\ mutex_live g = initialized g).
  { induction calls as [|c calls IH]; intros g0 Hinv; simpl.
    - eauto.
    - destruct g0 as [ini live dbg]; simpl in Hinv; subst live.
      destruct c as [ok| |e]; simpl.
      + unfold gosiuml_init; simpl.
        destruct ini, ok; simpl; apply IH; reflexivity.
      + unfold gosiuml_cleanup; simpl.
        destruct ini; simpl; apply IH; reflexivity.
      + apply IH. reflexivity. }
  apply H. reflexivity.
Qed.

(** ** Processing tokens *)

Lemma sum_counts_insert (l : list Z) (i : nat) (n m : Z) :
  l !! i = Some n -> sum_counts (<[i := m]> l) = sum_counts l - n + m.
Proof.
  revert i. induction l as [|x l IH]; intros [|i] Hi; simpl in *;
    try discriminate.
  - injection Hi as ->. unfold sum_counts; simpl. lia.
  - unfold sum_counts in *; simpl. rewrite (IH i Hi). lia.
Qed.

Lemma state_of_index (t : PhenoToken) (v : option PhenoTokenValue) :
  (Z.to_nat (state_of t v) < 7)%nat.
Proof.
  destruct (state_of_range t v) as [E|[E|[E|[E|E]]]]; rewrite E;
    vm_compute; lia.
Qed.

Lemma valid_token_put (h : Heap) (a b : addr) (t t' : PhenoToken) :
  h_tokens h !! a = Some t -> value t' = value t ->
  valid_token h b = true -> valid_token (put_token a t' h) b = true.
Proof.
  intros Ht Hval Hb. unfold valid_token in *.
  destruct (decide (a = b)) as [<-|Hne].
  - rewrite lookup_put_token. rewrite Ht in Hb. simpl. now rewrite Hval.
  - rewrite (lookup_put_token_ne _ _ _ _ Hne). exact Hb.
Qed.

Lemma value_processed_token (t : PhenoToken) :
  value (processed_token t) = value t.
Proof.
  unfold processed_token.
  now destruct (allocated (mem_flags t) && negb (locked (mem_flags t))).
Qed.

Lemma int_incr_eval (x : Z) (h : Heap) :
  x < INT_MAX -> int_incr x h = Some (x + 1, h).
Proof.
  intros Hx. unfold int_incr.
  destruct (Z.ltb_spec x INT_MAX); [reflexivity|lia].
Qed.

Lemma int_incr_overflow (x : Z) (h : Heap) :
  INT_MAX <= x -> int_incr x h = None.
Proof.
  intros Hx. unfold int_incr.
  destruct (Z.ltb_spec x INT_MAX); [lia|reflexivity].
Qed.

Lemma process_token_eval (h : Heap) (a : addr) (t : PhenoToken)
  (c : GosiUMLContext) :
  valid_token h a = true -> h_tokens h !! a = Some t ->
  length (state_count c) = 7%nat ->
  exists n,
    state_count c !! Z.to_nat (state_of t (payload_of h t)) = Some n
    /\ (n < INT_MAX ->
        (allocated (mem_flags t) && negb (locked (mem_flags t)) = true ->
         stats_transition_count c < INT_MAX) ->
        gosiuml_process_token (Some c) (Some a) h
        = Some ((0, Some (counted c (Z.to_nat (state_of t (payload_of h t)))
                            n t)),
                put_token a (processed_token t) h))
    /\ (INT_MAX <= n -> gosiuml_process_token (Some c) (Some a) h = None)
    /\ (allocated (mem_flags t) && negb (locked (mem_flags t)) = true ->
        INT_MAX <= stats_transition_count c ->
        gosiuml_process_token (Some c) (Some a) h = None).
Proof.
  intros Hv Ht Hlen.
  destruct (lookup_lt_is_Some_2 (state_count c)
              (Z.to_nat (state_of t (payload_of h t)))) as [n Hn].
  { rewrite Hlen. apply state_of_index. }
  exists n. split; [exact Hn|].
  unfold gosiuml_process_token, bind.
  rewrite (get_state_eval _ _ _ Hv Ht), Hn.
  split; [|split].
  - intros Hlt Htc. rewrite (int_incr_eval _ _ Hlt).
    rewrite (load_token_live _ _ _ Ht).
    unfold counted, processed_token.
    destruct (allocated (mem_flags t) && negb (locked (mem_flags t))).
    + rewrite (update_token_live _ _ _ Ht).
      cbn [stats_transition_count set_state_count].
      now rewrite (int_incr_eval _ _ (Htc eq_refl)).
    + rewrite (put_token_same _ _ _ Ht). unfold ret.
      destruct c; unfold set_stats_transition_count, set_state_count; simpl.
      now rewrite Z.add_0_r.
  - intros Hge. now rewrite (int_incr_overflow _ _ Hge).
  - intros Hgo Hge. unfold int_incr at 1.
    destruct (n <? INT_MAX); [|reflexivity].
    unfold ret at 1. rewrite (load_token_live _ _ _ Ht), Hgo.
    rewrite (update_token_live _ _ _ Ht).
    cbn [stats_transition_count set_state_count].
    now rewrite (int_incr_overflow _ _ Hge).
Qed.

(** X4. Processing a live token with a context of seven counters that are
    below [INT_MAX] returns 0 and increments exactly one counter, the one
    of the state the token was in, inside the counter array.  An allocated
    token is locked afterwards, and the transition is counted only if it
    was not locked before; a token that is not allocated is left alone.
    No payload is touched, and processing the token again, while the
    counters allow it, changes neither the heap nor the transition count.
    With the counter of the token's state at [INT_MAX] the increment
    overflows and the call has no defined result. *)
Theorem process_token_locks (h : Heap) (a : addr) (t : PhenoToken)
  (c : GosiUMLContext) :
  valid_token h a = true -> h_tokens h !! a = Some t ->
  length (state_count c) = 7%nat ->
  Forall (fun n => n < INT_MAX) (state_count c) ->
  stats_transition_count c < INT_MAX ->
  exists (i : nat) (n : Z) c' h',
    gosiuml_get_state (Some a) h = Some (Z.of_nat i, h)
    /\ (i < 7)%nat /\ state_count c !! i = Some n
    /\ gosiuml_process_token (Some c) (Some a) h = Some ((0, Some c'), h')
    /\ state_count c' = <[i := n + 1]> (state_count c)
    /\ sum_counts (state_count c') = sum_counts (state_count c) + 1
    /\ options c' = options c
    /\ ctx_current_state c' = ctx_current_state c
    /\ user_data c' = user_data c
    /\ h_values h' = h_values h
    /\ (allocated (mem_flags t) = true ->
        gosiuml_get_state (Some a) h' = Some (STATE_LOCKED, h')
        /\ stats_transition_count c'
           = stats_transition_count c
             + (if locked (mem_flags t) then 0 else 1))
    /\ (allocated (mem_flags t) = false ->
        h' = h /\ stats_transition_count c' = stats_transition_count c)
    /\ (Forall (fun n => n < INT_MAX) (state_count c') ->
        exists c'',
          gosiuml_process_token (Some c') (Some a) h'
          = Some ((0, Some c''), h')
          /\ stats_transition_count c'' = stats_transition_count c')
    /\ gosiuml_process_token (Some (set_state_count
                                     (<[i := INT_MAX]> (state_count c)) c))
         (Some a) h = None.
Proof.
  intros Hv Ht Hlen Hbound Htc.
  destruct (process_token_eval _ _ _ c Hv Ht Hlen) as (n & Hn & Hrun & _).
  assert (Hi : (Z.to_nat (state_of t (payload_of h t)) < 7)%nat)
    by apply state_of_index.
  set (i := Z.to_nat (state_of t (payload_of h t))) in *.
  assert (Hnb : n < INT_MAX).
  { rewrite Forall_lookup in Hbound. exact (Hbound _ _ Hn). }
  specialize (Hrun Hnb (fun _ => Htc)).
  set (c1 := counted c i n t) in *.
  set (h1 := put_token a (processed_token t) h) in *.
  assert (Hlen1 : length (state_count c1) = 7%nat).
  { subst c1; unfold counted; simpl. now rewrite length_insert. }
  assert (Hv1 : valid_token h1 a = true).
  { apply (valid_token_put _ _ _ t); auto using value_processed_token. }
  assert (Ht1 : h_tokens h1 !! a = Some (processed_token t))
    by apply lookup_put_token.
  assert (Hno : allocated (mem_flags (processed_token t))
                && negb (locked (mem_flags (processed_token t))) = false).
  { unfold processed_token.
    destruct (allocated (mem_flags t)) eqn:Ha,
      (locked (mem_flags t)) eqn:Hl; simpl; rewrite ?Ha, ?Hl; reflexivity. }
  exists i, n, c1, h1.
  split.
  { rewrite (get_state_eval _ _ _ Hv Ht). subst i.
    rewrite Z2Nat.id; [reflexivity|].
    destruct (state_of_range t (payload_of h t)) as [E|[E|[E|[E|E]]]];
      rewrite E; vm_compute; discriminate. }
  split; [exact Hi|]. split; [exact Hn|]. split; [exact Hrun|].
  split; [reflexivity|].
  split.
  { subst c1; unfold counted; simpl.
    rewrite (sum_counts_insert _ _ _ _ Hn). lia. }
  split; [reflexivity|]. split; [reflexivity|]. split; [reflexivity|].
  split; [reflexivity|].
  split; [|split; [|split]].
  - intros Ha. split.
    + rewrite (get_state_eval _ _ _ Hv1 Ht1).
      f_equal. f_equal. unfold state_of, processed_token. rewrite Ha.
      destruct (locked (mem_flags t)) eqn:Hl; simpl; rewrite ?Ha, ?Hl;
        reflexivity.
    + subst c1; unfold counted; simpl. rewrite Ha.
      now destruct (locked (mem_flags t)).
  - intros Ha. subst c1 h1. unfold counted, processed_token.
    rewrite Ha; simpl.
    split; [now apply put_token_same | lia].
  - intros Hbound1.
    destruct (process_token_eval _ _ _ c1 Hv1 Ht1 Hlen1)
      as (n' & Hn' & Hrun' & _).
    assert (Hnb' : n' < INT_MAX).
    { rewrite Forall_lookup in Hbound1. exact (Hbound1 _ _ Hn'). }
    rewrite Hno in Hrun'. specialize (Hrun' Hnb' ltac:(discriminate)).
    eexists. split.
    + rewrite Hrun'. f_equal. f_equal. subst h1.
      rewrite put_token_twice. f_equal.
      unfold processed_token at 1. now rewrite Hno.
    + unfold counted; simpl. rewrite Hno. lia.
  - destruct (process_token_eval _ _ _
                (set_state_count (<[i := INT_MAX]> (state_count c)) c)
                Hv Ht) as (m & Hm & _ & Hover & _).
    { simpl. now rewrite length_insert. }
    apply Hover. fold i in Hm. simpl in Hm.
    rewrite list_lookup_insert_eq in Hm by (rewrite Hlen; exact Hi).
    injection Hm as <-. lia.
Qed.

Lemma process_token_locks_witness :
  exists c' h',
    gosiuml_process_token (gosiuml_create_context true) (Some 1%positive)
      (sample_heap active_flags 0)
    = Some ((0, Some c'), h')
    /\ state_count c' = [0; 0; 0; 1; 0; 0; 0]
    /\ gosiuml_get_state (Some 1%positive) h' = Some (STATE_LOCKED, h')
    /\ stats_transition_count c' = 1.
Proof.
  destruct (process_token_locks (sample_heap active_flags 0) 1%positive _
              {| ctx_current_state := STATE_NIL; options := 0;
                 user_data := None; state_count := replicate 7 0;
                 stats_transition_count := 0 |}
              eq_refl eq_refl eq_refl)
    as (i & n & c' & h' & Hstate0 & _ & Hn & Hrun & Hcount & _ & _ & _ & _
        & _ & Halloc & _).
  - repeat constructor.
  - reflexivity.
  - assert (Hi : i = 3%nat).
    { assert (E : Some (Z.of_nat i, sample_heap active_flags 0)
                  = Some (STATE_ACTIVE, sample_heap active_flags 0))
        by exact (eq_trans (eq_sym Hstate0) eq_refl).
      apply Nat2Z.inj. change (Z.of_nat 3) with STATE_ACTIVE. congruence. }
    subst i. vm_compute in Hn. injection Hn as <-.
    exists c', h'. split; [exact Hrun|].
    split; [exact Hcount|].
    destruct (Halloc eq_refl) as [Hstate Hcnt].
    split; [exact Hstate|exact Hcnt].
Defined.

(** What one pass of [gosiuml_process_token] keeps of every token of the
    heap. *)
Lemma processed_token_flags (t : PhenoToken) :
  allocated (mem_flags (processed_token t)) = allocated (mem_flags t)
  /\ (locked (mem_flags t) = true ->
      locked (mem_flags (processed_token t)) = true)
  /\ (allocated (mem_flags t) = true ->
      locked (mem_flags (processed_token t)) = true).
Proof.
  unfold processed_token.
  destruct (allocated (mem_flags t)) eqn:Ha, (locked (mem_flags t)) eqn:Hl;
    simpl; rewrite ?Ha, ?Hl; auto.
Qed.

Lemma process_tokens_run (tokens : list addr) :
  forall (h : Heap) (c : GosiUMLContext),
  Forall (fun a => valid_token h a = true) tokens ->
  length (state_count c) = 7%nat ->
  Forall (fun n => n + Z.of_nat (length tokens) <= INT_MAX) (state_count c) ->
  stats_transition_count c + Z.of_nat (length tokens) <= INT_MAX ->
  exists c' h',
    process_tokens (Some c) tokens h = Some (Some c', h')
    /\ length (state_count c') = 7%nat
    /\ sum_counts (state_count c')
       = sum_counts (state_count c) + Z.of_nat (length tokens)
    /\ stats_transition_count c <= stats_transition_count c'
       <= stats_transition_count c + Z.of_nat (length tokens)
    /\ options c' = options c
    /\ h_values h' = h_values h
    /\ (forall b, valid_token h b = true -> valid_token h' b = true)
    /\ (forall b tb, h_tokens h !! b = Some tb ->
          exists tb', h_tokens h' !! b = Some tb'
            /\ allocated (mem_flags tb') = allocated (mem_flags tb)
            /\ (locked (mem_flags tb) = true ->
                locked (mem_flags tb') = true)
            /\ (In b tokens -> allocated (mem_flags tb) = true ->
                locked (mem_flags tb') = true)).
Proof.
  induction tokens as [|a rest IH]; intros h c Hall Hlen Hbound Htc.
  - exists c, h. split; [reflexivity|]. split; [exact Hlen|].
    split; [simpl; lia|]. split; [simpl; lia|]. split; [reflexivity|].
    split; [reflexivity|]. split; [auto|].
    intros b tb Hb. exists tb. repeat split; auto; intros [].
  - apply Forall_cons in Hall as [Hva Hrest].
    destruct (valid_token_live _ _ Hva) as [t Ht].
    destruct (process_token_eval _ _ _ c Hva Ht Hlen) as (n & Hn & Hrun & _).
    cbn [length] in Hbound, Htc. rewrite Nat2Z.inj_succ in Hbound, Htc.
    assert (Hnb : n + Z.succ (Z.of_nat (length rest)) <= INT_MAX).
    { rewrite Forall_lookup in Hbound. exact (Hbound _ _ Hn). }
    specialize (Hrun ltac:(lia) ltac:(lia)).
    set (c1 := counted c (Z.to_nat (state_of t (payload_of h t))) n t) in *.
    set (h1 := put_token a (processed_token t) h) in *.
    assert (Hlen1 : length (state_count c1) = 7%nat).
    { subst c1; unfold counted; simpl. now rewrite length_insert. }
    assert (Hbound1 : Forall (fun n => n + Z.of_nat (length rest) <= INT_MAX)
                        (state_count c1)).
    { subst c1; unfold counted; cbn [state_count set_stats_transition_count
                                      set_state_count].
      apply Forall_insert; [|lia].
      eapply Forall_impl; [exact Hbound|]. intros x Hx; simpl in Hx. lia. }
    assert (Htc1 : stats_transition_count c1 + Z.of_nat (length rest)
                   <= INT_MAX).
    { subst c1; unfold counted; simpl.
      destruct (allocated (mem_flags t) && negb (locked (mem_flags t)));
        lia. }
    assert (Hkeep : forall b, valid_token h b = true ->
                              valid_token h1 b = true).
    { intros b Hb. apply (valid_token_put _ _ _ t);
        auto using value_processed_token. }
    assert (Hrest1 : Forall (fun b => valid_token h1 b = true) rest).
    { eapply Forall_impl; [exact Hrest|exact Hkeep]. }
    destruct (IH h1 c1 Hrest1 Hlen1 Hbound1 Htc1)
      as (c' & h' & Hrun' & Hlen' & Hsum' & Htc' & Hopt' & Hvals' & Hvalid'
          & Hflags').
    exists c', h'. split.
    { cbn [process_tokens]. unfold bind. rewrite Hrun. exact Hrun'. }
    split; [exact Hlen'|].
    split.
    { rewrite Hsum'. subst c1; unfold counted;
        cbn [state_count set_stats_transition_count set_state_count].
      rewrite (sum_counts_insert _ _ _ _ Hn).
      cbn [length]. lia. }
    split.
    { cbn [length]. rewrite Nat2Z.inj_succ.
      assert (Hstep : stats_transition_count c <= stats_transition_count c1
                      <= stats_transition_count c + 1).
      { subst c1; unfold counted; simpl.
        destruct (allocated (mem_flags t) && negb (locked (mem_flags t)));
          lia. }
      lia. }
    split; [now rewrite Hopt'|].
    split; [now rewrite Hvals'|].
    split; [auto|].
    intros b tb Hb.
    destruct (decide (a = b)) as [<-|Hne].
    + rewrite Ht in Hb. injection Hb as <-.
      destruct (Hflags' a (processed_token t) (lookup_put_token _ _ _))
        as (tb' & Hlook & Hal & Hlk & Hin).
      destruct (processed_token_flags t) as (Pa & Pl & Pal).
      exists tb'. split; [exact Hlook|].
      split; [congruence|]. split; [auto|].
      intros _ Halloc. auto.
    + destruct (Hflags' b tb) as (tb' & Hlook & Hal & Hlk & Hin).
      { subst h1. now rewrite (lookup_put_token_ne _ _ _ _ Hne). }
      exists tb'. split; [exact Hlook|]. split; [exact Hal|].
      split; [exact Hlk|].
      intros [Heq|Hinr] Halloc; [congruence|auto].
Qed.

(** X5. The processing loop of [main] over an array of live tokens, with
    counters that have room for one increment per token below [INT_MAX],
    never leaves the counter array, counts every token exactly once
    (the transition count grows by at most one per token), touches no
    payload, and leaves every allocated token of the array locked, so
    that the state query reports it LOCKED. *)
Theorem process_tokens_all_locked (tokens : list addr) (h : Heap)
  (c : GosiUMLContext) :
  Forall (fun a => valid_token h a = true) tokens ->
  length (state_count c) = 7%nat ->
  Forall (fun n => n + Z.of_nat (length tokens) <= INT_MAX) (state_count c) ->
  stats_transition_count c + Z.of_nat (length tokens) <= INT_MAX ->
  exists c' h',
    process_tokens (Some c) tokens h = Some (Some c', h')
    /\ length (state_count c') = 7%nat
    /\ sum_counts (state_count c')
       = sum_counts (state_count c) + Z.of_nat (length tokens)
    /\ stats_transition_count c <= stats_transition_count c'
       <= stats_transition_count c + Z.of_nat (length tokens)
    /\ h_values h' = h_values h
    /\ (forall a t, In a tokens -> h_tokens h !! a = Some t ->
          allocated (mem_flags t) = true ->
          gosiuml_get_state (Some a) h' = Some (STATE_LOCKED, h')).
Proof.
  intros Hall Hlen Hbound Htc.
  destruct (process_tokens_run tokens h c Hall Hlen Hbound Htc)
    as (c' & h' & Hrun & Hlen' & Hsum & Htc' & _ & Hvals & Hvalid & Hflags).
  exists c', h'. split; [exact Hrun|]. split; [exact Hlen'|].
  split; [exact Hsum|]. split; [exact Htc'|].
  split; [exact Hvals|].
  intros a t Hin Ht Halloc.
  destruct (Hflags a t Ht) as (t' & Ht' & Hal & _ & Hlk).
  assert (Hva : valid_token h' a = true).
  { apply Hvalid. rewrite Forall_forall in Hall. apply Hall.
    now apply list_elem_of_In. }
  rewrite (get_state_eval _ _ _ Hva Ht'). unfold state_of.
  rewrite Hal, Halloc, (Hlk Hin Halloc). reflexivity.
Qed.

Lemma process_tokens_all_locked_witness :
  exists c' h',
    process_tokens (gosiuml_create_context true) [1%positive; 1%positive]
      (sample_heap active_flags 0)
    = Some (Some c', h')
    /\ sum_counts (state_count c') = 2
    /\ gosiuml_get_state (Some 1%positive) h' = Some (STATE_LOCKED, h').
Proof.
  destruct (process_tokens_all_locked [1%positive; 1%positive]
              (sample_heap active_flags 0)
              {| ctx_current_state := STATE_NIL; options := 0;
                 user_data := None; state_count := replicate 7 0;
                 stats_transition_count := 0 |})
    as (c' & h' & Hrun & _ & Hsum & _ & _ & Hlocked).
  - repeat constructor.
  - reflexivity.
  - repeat (constructor; [vm_compute; discriminate|]). constructor.
  - vm_compute. discriminate.
  - exists c', h'. split; [exact Hrun|]. split; [exact Hsum|].
    apply (Hlocked 1%positive _ (or_introl eq_refl) eq_refl eq_refl).
Defined.

(** ** Runs of the state machine *)

Lemma token_alloc_eval (h : Heap) (n : nat) (ty : PhenoTokenType) :
  h_avail h = S n ->
  pheno_token_alloc ty h =
  Some (Some (h_next h),
        match n with
        | O =>
            {| h_tokens := <[h_next h := allocated_token ty None]> (h_tokens h);
               h_values := h_values h;
               h_next := Pos.succ (h_next h); h_avail := O |}
        | S m =>
            {| h_tokens :=
                 <[h_next h :=
                     allocated_token ty (Some (Pos.succ (h_next h)))]>
                   (h_tokens h);
               h_values := <[Pos.succ (h_next h) := zero_value]> (h_values h);
               h_next := Pos.succ (Pos.succ (h_next h)); h_avail := m |}
        end).
Proof.
  destruct h as [tk vl nx av]; simpl. intros ->.
  unfold pheno_token_alloc, bind, calloc_token; simpl.
  unfold update_token, bind, load_token, store_token, put_token; simpl.
  rewrite lookup_insert_eq; simpl. heap_steps.
  destruct n; unfold calloc_value; simpl; heap_steps; reflexivity.
Qed.

Lemma token_alloc_exhausted (h : Heap) (ty : PhenoTokenType) :
  h_avail h = O -> pheno_token_alloc ty h = Some (None, h).
Proof.
  intros Hav. unfold pheno_token_alloc, bind, calloc_token. now rewrite Hav.
Qed.

Lemma transitions_nil (target : Z) :
  transitions STATE_NIL target
  = if target =? STATE_ALLOCATED then Some NilToAllocated else None.
Proof.
  unfold transitions. now destruct (target =? STATE_ALLOCATED).
Qed.

Lemma transitions_allocated (target : Z) :
  transitions STATE_ALLOCATED target
  = if target =? STATE_LOCKED then Some AllocatedToLocked else None.
Proof.
  unfold transitions.
  change (STATE_ALLOCATED =? STATE_NIL) with false.
  change (STATE_ALLOCATED =? STATE_ALLOCATED) with true.
  now destruct (target =? STATE_LOCKED).
Qed.

Lemma transitions_locked (target : Z) :
  transitions STATE_LOCKED target
  = if target =? STATE_ACTIVE then Some LockedToActive else None.
Proof.
  unfold transitions.
  change (STATE_LOCKED =? STATE_NIL) with false.
  change (STATE_LOCKED =? STATE_ALLOCATED) with false.
  change (STATE_LOCKED =? STATE_LOCKED) with true.
  now destruct (target =? STATE_ACTIVE).
Qed.

Lemma u32_succ (x : Z) : u32 (u32 x + 1) = u32 (x + 1).
Proof.
  unfold u32. rewrite !bitfield_mod by lia.
  now rewrite Z.add_mod_idemp_l by lia.
Qed.

Lemma low_confidence_fails (h : Heap) (a : addr) (t : PhenoToken) :
  h_tokens h !! a = Some t -> low_confidence h t ->
  verify_geometric_proof (Some a) h = Some (false, h).
Proof.
  intros Ht Hlow. unfold verify_geometric_proof, bind.
  rewrite (load_token_live _ _ _ Ht). unfold low_confidence in Hlow.
  destruct (value t) as [va|]; [|reflexivity].
  destruct Hlow as (v & Hv & Hc). unfold load_value. rewrite Hv.
  unfold ret. f_equal. f_equal. apply Z.ltb_ge. exact Hc.
Qed.

Lemma step_keeps_machine_inv (spurious : bool) (sm : StateMachine)
  (target : Z) (h : Heap) :
  machine_inv sm h -> 0 <= target < 7 ->
  exists sm' h',
    step_state_machine spurious sm target h = Some (sm', h')
    /\ machine_inv sm' h'
    /\ transition_count sm' = u32 (transition_count sm + 1).
Proof.
  intros Hinv Ht. unfold step_state_machine.
  destruct Hinv as [(Hs & Htok & Hav)|([Hs|Hs] & a & t & Htok & Hlive & Hlow)];
    rewrite Hs.
  - replace ((0 <=? STATE_NIL) && (STATE_NIL <? 7) && (0 <=? target)
             && (target <? 7)) with true
      by (symmetry; rewrite !andb_true_iff, !Z.leb_le, !Z.ltb_lt;
          unfold STATE_NIL; lia).
    rewrite transitions_nil. unfold bind.
    destruct (target =? STATE_ALLOCATED).
    + unfold run_transition, transition_nil_to_allocated. rewrite Htok.
      unfold bind. destruct (h_avail h) as [|n] eqn:En; [congruence|].
      rewrite (token_alloc_eval _ _ _ En). unfold ret. simpl.
      eexists _, _. split; [reflexivity|]. split; [|reflexivity].
      right. split; [now left|]. simpl.
      destruct n as [|m]; simpl.
      * exists (h_next h), (allocated_token
                              {| category := bitfield 4 NODE_IDENTITY;
                                 node_level := 0; cluster_id := 0;
                                 frame_ref := 0; degradation := 0;
                                 reserved := 0 |} None).
        split; [reflexivity|]. split; [apply lookup_insert_eq|exact I].
      * eexists (h_next h), _.
        split; [reflexivity|]. split; [apply lookup_insert_eq|].
        unfold low_confidence; simpl. exists zero_value.
        split; [apply lookup_insert_eq|]. simpl. lia.
    + unfold ret. eexists _, _. split; [reflexivity|]. simpl.
      split; [|reflexivity]. left. auto.
  - replace ((0 <=? STATE_ALLOCATED) && (STATE_ALLOCATED <? 7)
             && (0 <=? target) && (target <? 7)) with true
      by (symmetry; rewrite !andb_true_iff, !Z.leb_le, !Z.ltb_lt;
          unfold STATE_ALLOCATED; lia).
    rewrite transitions_allocated. unfold bind.
    destruct (target =? STATE_LOCKED).
    + unfold run_transition, transition_allocated_to_locked, bind.
      rewrite Htok, (load_token_live _ _ _ Hlive).
      assert (Hkeep : forall l,
                 exists t', h_tokens
                              (put_token a (set_mem_flags (set_locked l) t) h)
                            !! a = Some t'
                            /\ low_confidence
                                 (put_token a
                                    (set_mem_flags (set_locked l) t) h) t').
      { intros l. eexists. split; [apply lookup_put_token|]. exact Hlow. }
      destruct (atomic_compare_exchange_weak spurious (locked (mem_flags t))
                  false true) as [ok l].
      rewrite (store_token_live _ _ _ Hlive).
      destruct (Hkeep l) as (t' & Ht' & Hlow').
      destruct ok; unfold ret; simpl; eexists _, _;
        (split; [reflexivity|]); (split; [|reflexivity]); right;
        (split; [auto|]); exists a, t'; auto.
    + unfold ret. eexists _, _. split; [reflexivity|]. simpl.
      split; [|reflexivity]. right. split; [auto|]. exists a, t. auto.
  - replace ((0 <=? STATE_LOCKED) && (STATE_LOCKED <? 7)
             && (0 <=? target) && (target <? 7)) with true
      by (symmetry; rewrite !andb_true_iff, !Z.leb_le, !Z.ltb_lt;
          unfold STATE_LOCKED; lia).
    rewrite transitions_locked. unfold bind.
    destruct (target =? STATE_ACTIVE).
    + unfold run_transition, transition_locked_to_active, bind.
      rewrite Htok, (low_confidence_fails _ _ _ Hlive Hlow).
      unfold ret. eexists _, _. split; [reflexivity|]. simpl.
      split; [|reflexivity]. right. split; [auto|]. exists a, t. auto.
    + unfold ret. eexists _, _. split; [reflexivity|]. simpl.
      split; [|reflexivity]. right. split; [auto|]. exists a, t. auto.
Qed.

Lemma u32_add_l (x y : Z) : u32 (u32 x + y) = u32 (x + y).
Proof.
  unfold u32. rewrite !bitfield_mod by lia.
  now rewrite Z.add_mod_idemp_l by lia.
Qed.

Lemma run_keeps_machine_inv (events : list (bool * Z)) :
  forall (sm : StateMachine) (h : Heap),
  machine_inv sm h -> Forall (fun e => 0 <= snd e < 7) events ->
  transition_count sm = u32 (transition_count sm) ->
  exists sm' h',
    run_state_machine sm events h = Some (sm', h')
    /\ machine_inv sm' h'
    /\ transition_count sm'
       = u32 (transition_count sm + Z.of_nat (length events)).
Proof.
  induction events as [|[spurious target] rest IH]; intros sm h Hinv Hall Hn.
  - exists sm, h. split; [reflexivity|]. split; [exact Hinv|].
    simpl. now rewrite Z.add_0_r.
  - apply Forall_cons in Hall as [Ht Hrest]. simpl in Ht.
    destruct (step_keeps_machine_inv spurious sm target h Hinv Ht)
      as (sm1 & h1 & Hstep & Hinv1 & Hcount1).
    destruct (IH sm1 h1 Hinv1 Hrest) as (sm' & h' & Hrun & Hinv' & Hcount').
    { rewrite Hcount1. unfold u32. rewrite !bitfield_mod by lia.
      now rewrite Z.mod_mod by lia. }
    exists sm', h'. split.
    { cbn [run_state_machine]. unfold bind. rewrite Hstep. exact Hrun. }
    split; [exact Hinv'|].
    rewrite Hcount', Hcount1, u32_add_l. f_equal.
    cbn [length]. lia.
Qed.

(** X6. A state machine driven from its creation by any events (targets
    within the table), whatever the outcomes of its compare-and-exchange,
    always completes its steps when the allocator can serve its token, and
    ends in NIL, ALLOCATED or LOCKED: it never reaches ACTIVE or DEGRADED,
    because the payload it allocates has confidence 0 and the step from
    LOCKED to ACTIVE asks for more than 100.  Every event is counted, also
    those that change nothing. *)
Theorem machine_never_active (events : list (bool * Z)) (h : Heap) :
  h_avail h <> O -> Forall (fun e => 0 <= snd e < 7) events ->
  exists sm' h',
    run_state_machine create_state_machine events h = Some (sm', h')
    /\ (current_state sm' = STATE_NIL \/ current_state sm' = STATE_ALLOCATED
        \/ current_state sm' = STATE_LOCKED)
    /\ transition_count sm' = u32 (Z.of_nat (length events)).
Proof.
  intros Hav Hall.
  destruct (run_keeps_machine_inv events create_state_machine h)
    as (sm' & h' & Hrun & Hinv & Hcount); auto.
  { left. auto. }
  exists sm', h'. split; [exact Hrun|]. split; [|exact Hcount].
  destruct Hinv as [(Hs & _)|([Hs|Hs] & _)]; auto.
Qed.

Lemma machine_never_active_witness :
  exists sm' h',
    run_state_machine create_state_machine
      [(false, STATE_ALLOCATED); (false, STATE_LOCKED); (false, STATE_ACTIVE);
       (false, STATE_DEGRADED)]
      (empty_heap 2)
    = Some (sm', h')
    /\ current_state sm' = STATE_LOCKED
    /\ transition_count sm' = 4.
Proof.
  destruct (machine_never_active
              [(false, STATE_ALLOCATED); (false, STATE_LOCKED);
               (false, STATE_ACTIVE); (false, STATE_DEGRADED)]
              (empty_heap 2))
    as (sm' & h' & Hrun & _ & Hcount).
  - discriminate.
  - repeat constructor; simpl; vm_compute; discriminate.
  - exists sm', h'. split; [exact Hrun|].
    split; [|exact Hcount].
    vm_compute in Hrun. injection Hrun as <- _. reflexivity.
Defined.

(** X7. When the allocator has nothing left, the step from NIL to ALLOCATED
    still moves the machine to ALLOCATED, with a null token; the request
    for LOCKED that follows goes through that null pointer and is
    undefined. *)
Theorem machine_allocation_failure (spurious : bool) (h : Heap) :
  h_avail h = O ->
  step_state_machine spurious create_state_machine STATE_ALLOCATED h
  = Some ({| current_state := STATE_ALLOCATED; token := None;
             transition_count := 1 |}, h)
  /\ forall spurious',
       step_state_machine spurious'
         {| current_state := STATE_ALLOCATED; token := None;
            transition_count := 1 |} STATE_LOCKED h
       = None.
Proof.
  intros Hav. split.
  - unfold step_state_machine, bind; simpl.
    unfold transition_nil_to_allocated, bind; simpl.
    now rewrite (token_alloc_exhausted _ _ Hav).
  - intros spurious'. reflexivity.
Qed.

Lemma machine_allocation_failure_witness :
  step_state_machine false create_state_machine STATE_ALLOCATED
    (empty_heap 0)
  = Some ({| current_state := STATE_ALLOCATED; token := None;
             transition_count := 1 |}, empty_heap 0).
Proof.
  exact (proj1 (machine_allocation_failure false (empty_heap 0) eq_refl)).
Defined.

(** ** Relation mapping *)

Ltac relation_fields :=
  cbn [subject_id subject_type subject_state subject_class class_id
       class_category class_taxonomy class_level instance_id instance_type
       instance_state instance_flags person_id person_role person_auth
       person_state field0 field1 field2 field3].

Lemma testbit_high_byte (x n : Z) :
  0 <= x < 256 -> 8 <= n -> Z.testbit x n = false.
Proof.
  intros Hx Hn. rewrite <- (Z.mod_small x (2 ^ 8)) by lia.
  apply Z.mod_pow2_bits_high. lia.
Qed.

Lemma u8_eq_bits (x y : Z) :
  (forall n, 0 <= n < 8 -> Z.testbit x n = Z.testbit y n) -> u8 x = u8 y.
Proof.
  intros H. apply Z.bits_inj'. intros n Hn. rewrite !testbit_u8 by lia.
  destruct (Z.ltb_spec n 8); [|now rewrite !andb_false_r].
  rewrite !andb_true_r. apply H. lia.
Qed.

Lemma u8_xor_twice (s d : Z) : u8 (Z.lxor s (u8 (Z.lxor s d))) = u8 d.
Proof.
  apply u8_eq_bits. intros n Hn.
  rewrite Z.lxor_spec, testbit_u8, Z.lxor_spec by lia.
  destruct (Z.ltb_spec n 8); [|lia].
  rewrite andb_true_r.
  now destruct (Z.testbit s n), (Z.testbit d n).
Qed.

Lemma u8_or_twice (s d : Z) :
  u8 (Z.lor (u8 (Z.lor d s)) s) = u8 (Z.lor d s).
Proof.
  apply u8_eq_bits. intros n Hn.
  rewrite Z.lor_spec, testbit_u8, Z.lor_spec by lia.
  destruct (Z.ltb_spec n 8); [|lia].
  rewrite andb_true_r.
  now destruct (Z.testbit s n), (Z.testbit d n).
Qed.

Lemma fits_relation_bounds (r : PhenoRelation) :
  fits_relation r = true ->
  0 <= subject_id r < 256 /\ 0 <= class_id r < 256
  /\ 0 <= instance_state r < 256 /\ 0 <= person_state r < 256
  /\ 0 <= subject_type r < 256 /\ 0 <= class_category r < 256
  /\ 0 <= instance_type r < 256.
Proof.
  unfold fits_relation, decode, fits_group; simpl.
  rewrite !andb_true_iff, !Z.leb_le, !Z.ltb_lt. tauto.
Qed.

(** X8. Mapping the same source twice onto a destination whose fields fit
    their 8 bits gives back the subject and class identifiers of the
    destination (the exclusive-or merge undoes itself), changes the
    instance state and the person state no further, and never touches the
    twelve other fields; the identifiers merged are the same whichever of
    the two relations is the source. *)
Theorem map_obj_to_obj_twice (src dst : PhenoRelation) :
  fits_relation dst = true ->
  subject_id (map_obj_to_obj src (map_obj_to_obj src dst)) = subject_id dst
  /\ class_id (map_obj_to_obj src (map_obj_to_obj src dst)) = class_id dst
  /\ instance_state (map_obj_to_obj src (map_obj_to_obj src dst))
     = instance_state (map_obj_to_obj src dst)
  /\ person_state (map_obj_to_obj src (map_obj_to_obj src dst))
     = person_state (map_obj_to_obj src dst)
  /\ subject_id (map_obj_to_obj src dst) = subject_id (map_obj_to_obj dst src)
  /\ class_id (map_obj_to_obj src dst) = class_id (map_obj_to_obj dst src)
  /\ decode (map_obj_to_obj src dst)
     = (let '(a, b, c, d) := decode dst in
        ({| field0 := subject_id (map_obj_to_obj src dst);
            field1 := field1 a; field2 := field2 a; field3 := field3 a |},
         {| field0 := class_id (map_obj_to_obj src dst);
            field1 := field1 b; field2 := field2 b; field3 := field3 b |},
         {| field0 := field0 c; field1 := field1 c;
            field2 := instance_state (map_obj_to_obj src dst);
            field3 := field3 c |},
         {| field0 := field0 d; field1 := field1 d; field2 := field2 d;
            field3 := person_state (map_obj_to_obj src dst) |})).
Proof.
  intros Hfit. apply fits_relation_bounds in Hfit.
  unfold map_obj_to_obj; simpl.
  split. { rewrite u8_xor_twice. apply u8_fits. tauto. }
  split. { rewrite u8_xor_twice. apply u8_fits. tauto. }
  split. { apply u8_or_twice. }
  split; [reflexivity|].
  split. { now rewrite Z.lxor_comm. }
  split. { now rewrite Z.lxor_comm. }
  reflexivity.
Qed.

Lemma map_obj_to_obj_twice_witness :
  subject_id (map_obj_to_obj (parse_relation 0 1 305419896)
                (map_obj_to_obj (parse_relation 0 1 305419896)
                   (parse_relation 1 2 2271560481)))
  = subject_id (parse_relation 1 2 2271560481).
Proof.
  exact (proj1 (map_obj_to_obj_twice (parse_relation 0 1 305419896)
                  (parse_relation 1 2 2271560481) eq_refl)).
Defined.

Lemma rotate_state_order (x : Z) :
  0 <= x < 256 ->
  rotate_state (rotate_state (rotate_state (rotate_state x))) = x.
Proof.
  intros Hx.
  assert (Hall : forallb
                   (fun n => rotate_state
                               (rotate_state
                                  (rotate_state
                                     (rotate_state (Z.of_nat n))))
                             =? Z.of_nat n)
                   (seq 0 256) = true) by (vm_compute; reflexivity).
  rewrite forallb_forall in Hall.
  specialize (Hall (Z.to_nat x)).
  rewrite Z2Nat.id in Hall by lia.
  apply Z.eqb_eq, Hall, in_seq. lia.
Qed.

Lemma rotate_state_range (x : Z) : 0 <= rotate_state x < 256.
Proof. apply u8_range. Qed.

(** X9. The person state a mapping gives the destination is the source's,
    rotated left by two within the byte: along a chain of four mappings
    the fifth relation receives the person state of the first, so nothing
    of it is lost. *)
Theorem map_obj_to_obj_rotation (r0 r1 r2 r3 r4 : PhenoRelation) :
  0 <= person_state r0 < 256 ->
  person_state
    (map_obj_to_obj
       (map_obj_to_obj (map_obj_to_obj (map_obj_to_obj r0 r1) r2) r3) r4)
  = person_state r0.
Proof.
  intros H0. unfold map_obj_to_obj; simpl.
  now apply rotate_state_order.
Qed.

Lemma map_obj_to_obj_rotation_witness :
  person_state
    (map_obj_to_obj
       (map_obj_to_obj
          (map_obj_to_obj
             (map_obj_to_obj (parse_relation 0 1 7) (parse_relation 1 2 7))
             (parse_relation 2 3 7))
          (parse_relation 3 4 7))
       (parse_relation 4 5 7))
  = 7.
Proof.
  apply (map_obj_to_obj_rotation (parse_relation 0 1 7)).
  vm_compute. split; [discriminate|reflexivity].
Defined.

(** *** The person-to-person model *)

Lemma land_bit (x k : Z) :
  0 <= k -> Z.land x (2 ^ k) = if Z.testbit x k then 2 ^ k else 0.
Proof.
  intros Hk. apply Z.bits_inj'. intros n Hn.
  rewrite Z.land_spec, Z.pow2_bits_eqb by lia.
  destruct (Z.eqb_spec k n) as [->|Hne].
  - destruct (Z.testbit x n) eqn:E; simpl.
    + now rewrite Z.pow2_bits_true.
    + now rewrite Z.bits_0.
  - rewrite andb_false_r.
    destruct (Z.testbit x k).
    + now rewrite Z.pow2_bits_false.
    + now rewrite Z.bits_0.
Qed.

Lemma land_1 (x : Z) : Z.land x 1 = if Z.testbit x 0 then 1 else 0.
Proof. exact (land_bit x 0 ltac:(lia)). Qed.

Lemma land_2 (x : Z) : Z.land x 2 = if Z.testbit x 1 then 2 else 0.
Proof. exact (land_bit x 1 ltac:(lia)). Qed.

Lemma land_4 (x : Z) : Z.land x 4 = if Z.testbit x 2 then 4 else 0.
Proof. exact (land_bit x 2 ltac:(lia)). Qed.

Lemma count_bits_bounds (fuel : nat) :
  forall val level,
  0 <= val < 2 ^ Z.of_nat fuel -> 0 <= level ->
  level + Z.of_nat fuel <= 255 ->
  level <= count_bits fuel val level <= level + Z.of_nat fuel
  /\ (count_bits fuel val level = level <-> val = 0).
Proof.
  induction fuel as [|fuel IH]; intros val level Hval Hl Hsum.
  - simpl in *. split; [lia|]. split; [lia|reflexivity].
  - cbn [count_bits].
    destruct (Z.eqb_spec val 0) as [->|Hnz].
    { split; [lia|tauto]. }
    rewrite Nat2Z.inj_succ, Z.pow_succ_r in Hval by lia.
    assert (Hbit : Z.land val 1 = val mod 2).
    { change 1 with (Z.ones 1). now rewrite Z.land_ones by lia. }
    assert (Hb : 0 <= val mod 2 < 2) by (apply Z.mod_pos_bound; lia).
    assert (Hdiv : val = 2 * (val / 2) + val mod 2)
      by (apply Z.div_mod; lia).
    rewrite Hbit, u8_fits by lia.
    destruct (IH (Z.shiftr val 1) (level + val mod 2)) as [Hrange Hzero].
    { rewrite Z.shiftr_div_pow2 by lia. change (2 ^ 1) with 2. lia. }
    { lia. }
    { lia. }
    split; [lia|]. split; [|lia].
    intros Heq.
    assert (val mod 2 = 0) by lia.
    assert (Z.shiftr val 1 = 0).
    { apply Hzero. lia. }
    rewrite Z.shiftr_div_pow2 in * by lia. change (2 ^ 1) with 2 in *. lia.
Qed.

(** X10. The person model stores the two persons, an authority level that
    counts the bits in which they differ (at most 8, zero exactly when the
    two bytes are equal, the same in both orders; the counting loop needs
    no more than its 8 rounds), and a state below 8 made of bit 0 of the
    first person, bit 1 of the second and bit 2 of their difference; the
    twelve other fields are kept. *)
Theorem apply_person_model_auth (rel : PhenoRelation) (a b : Z) :
  0 <= a < 256 -> 0 <= b < 256 ->
  person_id (apply_person_model rel a b) = a
  /\ person_role (apply_person_model rel a b) = b
  /\ 0 <= person_auth (apply_person_model rel a b) <= 8
  /\ (person_auth (apply_person_model rel a b) = 0 <-> a = b)
  /\ person_auth (apply_person_model rel a b)
     = person_auth (apply_person_model rel b a)
  /\ (forall extra,
        count_bits (8 + extra) (u8 (Z.lxor a b)) 0
        = person_auth (apply_person_model rel a b))
  /\ person_state (apply_person_model rel a b)
     = Z.lor (Z.lor (Z.land a 1) (Z.land b 2)) (Z.land (Z.lxor a b) 4)
  /\ 0 <= person_state (apply_person_model rel a b) < 8
  /\ (let '(s, c, i, _) := decode (apply_person_model rel a b) in (s, c, i))
     = (let '(s, c, i, _) := decode rel in (s, c, i)).
Proof.
  intros Ha Hb. unfold apply_person_model, decode; relation_fields.
  rewrite !(u8_fits a), !(u8_fits b) by assumption.
  change (u8 0) with 0.
  assert (Hx : 0 <= u8 (Z.lxor a b) < 2 ^ Z.of_nat 8) by apply u8_range.
  destruct (count_bits_bounds 8 (u8 (Z.lxor a b)) 0 Hx) as [Hrange Hzero];
    [lia|change (Z.of_nat 8) with 8; lia|].
  change (Z.of_nat 8) with 8 in Hrange.
  split; [reflexivity|]. split; [reflexivity|].
  split; [clear -Hrange; lia|].
  split.
  { rewrite Hzero. split.
    - intros Hu. apply Z.lxor_eq.
      rewrite <- (u8_fits (Z.lxor a b)); [exact Hu|].
      split; [apply Z.lxor_nonneg; lia|].
      destruct (Z.eq_dec (Z.lxor a b) 0) as [->|Hne]; [lia|].
      apply Z.log2_lt_cancel. change (Z.log2 256) with 8.
      pose proof (Z.log2_lxor a b ltac:(lia) ltac:(lia)).
      assert (Z.log2 a < 8).
      { destruct (Z.eq_dec a 0) as [->|]; [simpl; lia|].
        apply Z.log2_lt_pow2; lia. }
      assert (Z.log2 b < 8).
      { destruct (Z.eq_dec b 0) as [->|]; [simpl; lia|].
        apply Z.log2_lt_pow2; lia. }
      lia.
    - intros ->. now rewrite Z.lxor_nilpotent. }
  split; [now rewrite (Z.lxor_comm a b)|].
  split.
  { intros extra. apply (count_bits_fuel 8 extra). exact Hx. }
  assert (Hstate : person_state_flags a b
                   = Z.lor (Z.lor (Z.land a 1) (Z.land b 2))
                       (Z.land (Z.lxor a b) 4)).
  { unfold person_state_flags.
    rewrite !land_1, !land_2, !land_4.
    destruct (Z.testbit a 0), (Z.testbit b 1), (Z.testbit (Z.lxor a b) 2);
      reflexivity. }
  split; [exact Hstate|].
  split; [|reflexivity].
  rewrite Hstate, land_1, land_2, land_4.
  destruct (Z.testbit a 0), (Z.testbit b 1), (Z.testbit (Z.lxor a b) 2);
    vm_compute; split; congruence.
Qed.

Lemma apply_person_model_auth_witness :
  person_auth (apply_person_model zero_relation 1 2) = 2
  /\ person_state (apply_person_model zero_relation 1 2) = 3.
Proof.
  destruct (apply_person_model_auth zero_relation 1 2)
    as (_ & _ & _ & _ & _ & _ & Hstate & _).
  - vm_compute. split; [discriminate|reflexivity].
  - vm_compute. split; [discriminate|reflexivity].
  - split; [reflexivity|]. rewrite Hstate. reflexivity.
Defined.

(** ** Drawing *)

Lemma testbit_u32 (x n : Z) :
  0 <= n -> Z.testbit (u32 x) n = Z.testbit x n && (n <? 32).
Proof.
  intros Hn. unfold u32, bitfield.
  now rewrite Z.land_spec, Z.testbit_ones_nonneg by lia.
Qed.

Lemma testbit_land_255 (x n : Z) :
  0 <= n -> Z.testbit (Z.land x 255) n = Z.testbit x n && (n <? 8).
Proof. intros Hn. exact (testbit_u8 x n Hn). Qed.

Lemma svg_color_bits (r : PhenoRelation) (n : Z) :
  0 <= n ->
  Z.testbit (svg_color r) n
  = if n <? 8 then Z.testbit (instance_type r) n
    else if n <? 16 then Z.testbit (class_category r) (n - 8)
    else if n <? 24 then Z.testbit (subject_type r) (n - 16)
    else false.
Proof.
  intros Hn. unfold svg_color. cbv zeta. rewrite Z.lor_0_l.
  rewrite !testbit_u32, !Z.lor_spec, !testbit_u32, !Z.lor_spec,
    !testbit_u32, !Z.shiftl_spec by lia.
  rewrite (testbit_land_255 (instance_type r) n) by lia.
  destruct (Z.ltb_spec n 8).
  { rewrite (Z.testbit_neg_r _ (n - 16)), (Z.testbit_neg_r _ (n - 8)) by lia.
    destruct (Z.ltb_spec n 32); [|lia]. simpl.
    now rewrite !andb_true_r. }
  rewrite !andb_false_r, !orb_false_r.
  destruct (Z.ltb_spec n 16).
  { rewrite (Z.testbit_neg_r _ (n - 16)) by lia.
    rewrite testbit_land_255 by lia.
    destruct (Z.ltb_spec n 32); [|lia]. destruct (Z.ltb_spec (n - 8) 8); [|lia].
    simpl. now rewrite !andb_true_r. }
  rewrite !testbit_land_255 by lia.
  destruct (Z.ltb_spec (n - 8) 8); [lia|]. rewrite !andb_false_r, orb_false_r.
  destruct (Z.ltb_spec n 24).
  { destruct (Z.ltb_spec n 32); [|lia]. destruct (Z.ltb_spec (n - 16) 8); [|lia].
    now rewrite !andb_true_r. }
  destruct (Z.ltb_spec (n - 16) 8); [lia|]. now rewrite !andb_false_r.
Qed.

(** X11. For a relation whose fields fit their 8 bits, the circle drawn lies
    inside the 800 by 600 canvas, with room above it for the label, its
    radius is between 5 and 20, and the colour is a 24-bit value from
    which the three channels (subject type, class category, instance
    type) can be read back. *)
Theorem svg_node_inside_canvas (r : PhenoRelation) :
  fits_relation r = true ->
  0 <= svg_x r - svg_radius r /\ svg_x r + svg_radius r <= SVG_WIDTH
  /\ 0 <= svg_y r - svg_radius r - 5
  /\ svg_y r + svg_radius r <= SVG_HEIGHT
  /\ 5 <= svg_radius r <= 20
  /\ 0 <= svg_color r < 2 ^ 24
  /\ Z.shiftr (svg_color r) 16 = subject_type r
  /\ Z.land (Z.shiftr (svg_color r) 8) 255 = class_category r
  /\ Z.land (svg_color r) 255 = instance_type r.
Proof.
  intros Hfit. apply fits_relation_bounds in Hfit.
  destruct Hfit as (Hsid & Hcid & His & _ & Hst & Hcc & Hit).
  assert (Hx : 0 <= Z.rem (subject_id r * 5) 600 < 600)
    by (apply Z.rem_bound_pos; lia).
  assert (Hy : 0 <= Z.rem (class_id r * 7) 400 < 400)
    by (apply Z.rem_bound_pos; lia).
  assert (Hr : 0 <= Z.land (instance_state r) 15 < 16).
  { change 15 with (Z.ones 4). rewrite Z.land_ones by lia.
    apply Z.mod_pos_bound. lia. }
  assert (Hnn : 0 <= svg_color r).
  { unfold svg_color, u32, bitfield. cbv zeta. apply Z.land_nonneg. right.
    discriminate. }
  assert (Hhigh : svg_color r / 2 ^ 24 = 0).
  { rewrite <- Z.shiftr_div_pow2 by lia.
    apply Z.bits_inj'. intros n Hn.
    rewrite Z.shiftr_spec, svg_color_bits, Z.bits_0 by lia.
    destruct (Z.ltb_spec (n + 24) 8); [lia|].
    destruct (Z.ltb_spec (n + 24) 16); [lia|].
    destruct (Z.ltb_spec (n + 24) 24); [lia|reflexivity]. }
  assert (Hlt : svg_color r < 2 ^ 24).
  { apply Z.div_small_iff in Hhigh; [|discriminate].
    destruct Hhigh as [Hs|Hs]; [apply Hs|].
    exfalso. destruct Hs as [Hs1 Hs2].
    apply (Z.lt_irrefl (svg_color r)).
    eapply Z.le_lt_trans; [exact Hs2|].
    eapply Z.lt_trans; [|exact Hs1]. reflexivity. }
  clear Hhigh.
  unfold svg_x, svg_y, svg_radius, SVG_WIDTH, SVG_HEIGHT.
  revert Hx Hy Hr.
  generalize (Z.rem (subject_id r * 5) 600) (Z.rem (class_id r * 7) 400)
    (Z.land (instance_state r) 15).
  intros x y rad Hx Hy Hr.
  split; [clear -Hx Hr; lia|]. split; [clear -Hx Hr; lia|].
  split; [clear -Hy Hr; lia|]. split; [clear -Hy Hr; lia|].
  split; [clear -Hr; lia|]. split; [split; assumption|].
  split.
  { apply Z.bits_inj'. intros n Hn.
    rewrite Z.shiftr_spec, svg_color_bits by lia.
    destruct (Z.ltb_spec (n + 16) 8); [lia|].
    destruct (Z.ltb_spec (n + 16) 16); [lia|].
    replace (n + 16 - 16) with n by lia.
    destruct (Z.ltb_spec (n + 16) 24); [reflexivity|].
    symmetry. apply testbit_high_byte; lia. }
  split.
  - apply Z.bits_inj'. intros n Hn.
    rewrite testbit_land_255, Z.shiftr_spec, svg_color_bits by lia.
    destruct (Z.ltb_spec (n + 8) 8); [lia|].
    replace (n + 8 - 8) with n by lia.
    destruct (Z.ltb_spec n 8).
    + destruct (Z.ltb_spec (n + 8) 16); [|lia]. apply andb_true_r.
    + rewrite andb_false_r. symmetry. apply testbit_high_byte; lia.
  - apply Z.bits_inj'. intros n Hn.
    rewrite testbit_land_255, svg_color_bits by lia.
    destruct (Z.ltb_spec n 8).
    + apply andb_true_r.
    + rewrite andb_false_r. symmetry. apply testbit_high_byte; lia.
Qed.

Lemma count_bits_byte (fuel : nat) :
  forall val level, 0 <= level < 256 ->
  0 <= count_bits fuel val level < 256.
Proof.
  induction fuel as [|fuel IH]; intros val level Hl; cbn [count_bits].
  - exact Hl.
  - destruct (val =? 0); [exact Hl|]. apply IH, u8_range.
Qed.

(** Every field of the block [parse_token_file] builds fits its 8 bits,
    whatever the index, type and value. *)
Lemma parse_relation_fits (idx ty v : Z) :
  fits_relation (parse_relation idx ty v) = true.
Proof.
  unfold fits_relation, decode, fits_group, parse_relation; relation_fields.
  pose proof (count_bits_byte 32 v (u8 0) (u8_range 0)).
  rewrite !andb_true_iff, !Z.leb_le, !Z.ltb_lt.
  repeat split; try apply u8_range; lia.
Qed.

Lemma svg_node_inside_canvas_witness :
  svg_x (parse_relation 0 255 4294967295)
  + svg_radius (parse_relation 0 255 4294967295) <= SVG_WIDTH
  /\ svg_y (parse_relation 0 255 4294967295)
     + svg_radius (parse_relation 0 255 4294967295) <= SVG_HEIGHT.
Proof.
  destruct (svg_node_inside_canvas (parse_relation 0 255 4294967295)
              (parse_relation_fits 0 255 4294967295))
    as (_ & Hx & _ & Hy & _).
  split; assumption.
Defined.

(** *** What the relation block keeps of the token *)

Lemma land_shiftr_mod (x k w : Z) :
  0 <= k -> 0 <= w ->
  Z.land (Z.shiftr x k) (Z.ones w) = (x / 2 ^ k) mod 2 ^ w.
Proof.
  intros Hk Hw. now rewrite Z.land_ones, Z.shiftr_div_pow2 by lia.
Qed.

(** X12. The block [parse_token_file] builds keeps the whole 32-bit token
    value, spread over the subject type, state and class and the person
    identifier, and the low byte of the index of the token; all its fields
    fit their 8 bits. *)
Theorem parse_relation_keeps_value (idx ty v : Z) :
  0 <= v < 2 ^ 32 ->
  relation_value (parse_relation idx ty v) = v
  /\ subject_type (parse_relation idx ty v) = v mod 256
  /\ subject_state (parse_relation idx ty v) = (v / 2 ^ 8) mod 256
  /\ subject_class (parse_relation idx ty v) = (v / 2 ^ 16) mod 256
  /\ person_id (parse_relation idx ty v) = v / 2 ^ 24
  /\ instance_id (parse_relation idx ty v) = idx mod 256
  /\ fits_relation (parse_relation idx ty v) = true.
Proof.
  intros Hv. split; [now apply parse_relation_value|].
  pose proof (parse_relation_fits idx ty v) as Hfits. revert Hfits.
  generalize (fits_relation (parse_relation idx ty v)). intros fits Hfits.
  unfold parse_relation; relation_fields.
  change 255 with (Z.ones 8).
  rewrite Z.shiftr_0_r, !land_shiftr_mod, !Z.land_ones by lia.
  unfold u8. rewrite !bitfield_mod by lia.
  change (2 ^ 8) with 256. rewrite !Z.mod_mod by lia.
  repeat (split; [reflexivity|]).
  split.
  { apply Z.mod_small. split; [apply Z.div_pos; lia|].
    apply Z.div_lt_upper_bound; lia. }
  split; [reflexivity|exact Hfits].
Qed.

Lemma parse_relation_keeps_value_witness :
  relation_value (parse_relation 3 1 305419896) = 305419896.
Proof.
  apply (parse_relation_keeps_value 3 1 305419896).
  vm_compute. split; [discriminate|reflexivity].
Defined.

(** X13. The 8-bit token type can be read back from the class group in three
    ways (undoing the rotations of the class identifier and category, or
    the mask of the taxonomy), and from the subject identifier and the
    instance type; the class level, the number of set bits of the 32-bit
    value, is at most 32, and the counting loop needs no more than 32
    rounds. *)
Theorem parse_relation_type (idx ty v : Z) :
  0 <= ty < 256 -> 0 <= v < 2 ^ 32 ->
  u8 (ROTATE_RIGHT (class_id (parse_relation idx ty v)) 3) = ty
  /\ u8 (ROTATE_LEFT (class_category (parse_relation idx ty v)) 2) = ty
  /\ Z.lxor (class_taxonomy (parse_relation idx ty v)) 170 = ty
  /\ subject_id (parse_relation idx ty v) = ty
  /\ instance_type (parse_relation idx ty v) = ty
  /\ 0 <= class_level (parse_relation idx ty v) <= 32
  /\ (class_level (parse_relation idx ty v) = 0 <-> v = 0)
  /\ (forall extra,
        count_bits (32 + extra) v 0 = class_level (parse_relation idx ty v)).
Proof.
  intros Hty Hv. unfold parse_relation; relation_fields.
  assert (Hall : forallb
                   (fun n =>
                      let t := Z.of_nat n in
                      (u8 (ROTATE_RIGHT (u8 (ROTATE_LEFT t 3)) 3) =? t)
                      && (u8 (ROTATE_LEFT (u8 (ROTATE_RIGHT t 2)) 2) =? t)
                      && (Z.lxor (u8 (Z.lxor t 170)) 170 =? t)
                      && (u8 (Z.land t 255) =? t) && (u8 t =? t))
                   (seq 0 256) = true) by (vm_compute; reflexivity).
  rewrite forallb_forall in Hall.
  specialize (Hall (Z.to_nat ty)). cbv zeta in Hall.
  rewrite Z2Nat.id in Hall by lia.
  rewrite !andb_true_iff, !Z.eqb_eq in Hall.
  destruct Hall as ((((H1 & H2) & H3) & H4) & H5); [apply in_seq; lia|].
  repeat (split; [assumption|]).
  change (u8 0) with 0.
  destruct (count_bits_bounds 32 v 0 Hv) as [Hrange Hzero];
    [lia|change (Z.of_nat 32) with 32; lia|].
  change (Z.of_nat 32) with 32 in Hrange.
  split; [clear -Hrange; lia|].
  split; [exact Hzero|].
  intros extra. apply (count_bits_fuel 32 extra). exact Hv.
Qed.

Lemma parse_relation_type_witness :
  Z.lxor (class_taxonomy (parse_relation 0 18 305419896)) 170 = 18
  /\ class_level (parse_relation 0 18 305419896) = 13.
Proof.
  destruct (parse_relation_type 0 18 305419896) as (_ & _ & Htax & _).
  - vm_compute. split; [discriminate|reflexivity].
  - vm_compute. split; [discriminate|reflexivity].
  - split; [exact Htax|reflexivity].
Defined.

(** ** Tokens read from a token file *)

(** X14. What a well-formed line leaves in a zeroed cell of the token array:
    the token is live and reported ACTIVE, its degradation score is 0,
    and, when its payload could be allocated, that payload has confidence
    500, so that the token passes [verify_geometric_proof] (a token made
    by [gosiuml_create_token] or [pheno_token_alloc] has confidence 0 and
    does not); without a payload it does not pass. *)
Theorem parsed_token_passes (h : Heap) (a : addr) (id ty : Z)
  (name : string) :
  h_tokens h !! a = Some zero_token ->
  exists h' t,
    parse_token_line a id ty name h = Some (tt, h')
    /\ h_tokens h' !! a = Some t
    /\ valid_token h' a = true
    /\ allocated (mem_flags t) = true /\ ref_count (mem_flags t) = 1
    /\ gosiuml_get_state (Some a) h' = Some (STATE_ACTIVE, h')
    /\ verify_geometric_proof (Some a) h'
       = Some (negb (Nat.eqb (h_avail h) 0), h')
    /\ (forall b, b <> a -> h_tokens h' !! b = h_tokens h !! b)
    /\ calculate_degradation_score (Some a) h'
       = Some (S754_zero false, h').
Proof.
  intros Hcell. destruct h as [tk vl nx av]; simpl in *.
  unfold parse_token_line, bind, update_token, bind, load_token, store_token,
    put_token, calloc_value; simpl.
  rewrite Hcell; simpl. rewrite Hcell; simpl.
  destruct av as [|n]; simpl.
  - heap_steps. unfold ret.
    eexists _, _. split; [reflexivity|]. simpl.
    split; [apply lookup_insert_eq|].
    unfold valid_token, gosiuml_get_state, calculate_degradation_score,
      verify_geometric_proof, bind, load_token; simpl.
    rewrite !lookup_insert_eq; simpl.
    repeat (split; [reflexivity|]).
    split; [intros b Hb; now apply lookup_insert_ne|].
    reflexivity.
  - heap_steps.
    unfold update_value, bind, load_value, store_value, put_value; simpl.
    heap_steps.
    eexists _, _. split; [reflexivity|]. simpl.
    split; [apply lookup_insert_eq|].
    unfold valid_token, gosiuml_get_state, calculate_degradation_score,
      verify_geometric_proof, bind, load_token, load_value; simpl.
    rewrite !lookup_insert_eq; simpl. rewrite !lookup_insert_eq; simpl.
    repeat (split; [reflexivity|]).
    split; [intros b Hb; now apply lookup_insert_ne|].
    reflexivity.
Qed.

Lemma parsed_token_passes_witness :
  exists h' t,
    parse_token_line 1%positive 7 18 "ALPHA"%string array_heap
    = Some (tt, h')
    /\ h_tokens h' !! 1%positive = Some t
    /\ gosiuml_get_state (Some 1%positive) h' = Some (STATE_ACTIVE, h')
    /\ verify_geometric_proof (Some 1%positive) h' = Some (true, h').
Proof.
  destruct (parsed_token_passes array_heap 1%positive 7 18 "ALPHA"%string
              eq_refl)
    as (h' & t & Hrun & Ht & _ & _ & _ & Hstate & Hproof & _).
  exists h', t. repeat split; assumption.
Defined.

(** X15. The fields a line gives a token keep the scanned numbers: the token
    identifier is the [id], the three relation bytes are its low 24 bits,
    the three sub-fields of the type are the low 15 bits of the [type],
    and the simple type tag, the subject type and the class category are
    its two low bytes. *)
Theorem parsed_fields_keep_numbers (id ty : Z) (name : string)
  (t : PhenoToken) :
  0 <= id < 2 ^ 32 -> 0 <= ty < 2 ^ 32 ->
  token_id (parsed_fields id ty name t) = id
  /\ subject_id (relation (parsed_fields id ty name t))
     + 256 * class_id (relation (parsed_fields id ty name t))
     + 65536 * instance_id (relation (parsed_fields id ty name t))
     = id mod 2 ^ 24
  /\ category (type (parsed_fields id ty name t))
     + 16 * node_level (type (parsed_fields id ty name t))
     + 128 * cluster_id (type (parsed_fields id ty name t))
     = ty mod 2 ^ 15
  /\ token_type (parsed_fields id ty name t) = ty mod 256
  /\ subject_type (relation (parsed_fields id ty name t)) = ty mod 256
  /\ class_category (relation (parsed_fields id ty name t))
     = (ty / 256) mod 256
  /\ mem_flags (parsed_fields id ty name t) = mem_flags t
  /\ value (parsed_fields id ty name t) = value t.
Proof.
  intros Hid Hty. unfold parsed_fields; simpl.
  assert (Eid : u32 id = id).
  { unfold u32. rewrite bitfield_mod by lia. now apply Z.mod_small. }
  assert (Ety : u32 ty = ty).
  { unfold u32. rewrite bitfield_mod by lia. now apply Z.mod_small. }
  rewrite Eid, Ety.
  change (Z.land id 255) with (Z.land id (Z.ones 8)).
  change (Z.land (Z.shiftr id 8) 255)
    with (Z.land (Z.shiftr id 8) (Z.ones 8)).
  change (Z.land (Z.shiftr id 16) 255)
    with (Z.land (Z.shiftr id 16) (Z.ones 8)).
  change (Z.land ty 15) with (Z.land ty (Z.ones 4)).
  change (Z.land (Z.shiftr ty 4) 7) with (Z.land (Z.shiftr ty 4) (Z.ones 3)).
  change (Z.land (Z.shiftr ty 7) 255)
    with (Z.land (Z.shiftr ty 7) (Z.ones 8)).
  change (Z.land ty 255) with (Z.land ty (Z.ones 8)).
  change (Z.land (Z.shiftr ty 8) 255)
    with (Z.land (Z.shiftr ty 8) (Z.ones 8)).
  rewrite !land_shiftr_mod, !Z.land_ones by lia.
  unfold u8. rewrite !bitfield_mod by lia.
  rewrite !Z.mod_mod by lia.
  split; [reflexivity|].
  split.
  { change (2 ^ 24) with (2 ^ 8 * (2 ^ 8 * 2 ^ 8)).
    rewrite !Z.rem_mul_r by lia.
    change (2 ^ 16) with (2 ^ 8 * 2 ^ 8).
    rewrite <- Z.div_div by lia. ring. }
  split.
  { change (2 ^ 15) with (2 ^ 4 * (2 ^ 3 * 2 ^ 8)).
    rewrite !Z.rem_mul_r by lia.
    change (2 ^ 7) with (2 ^ 4 * 2 ^ 3).
    rewrite <- Z.div_div by lia. ring. }
  repeat split; reflexivity.
Qed.

Lemma parsed_fields_keep_numbers_witness :
  token_id (parsed_fields 66051 4660 "BETA"%string zero_token) = 66051
  /\ instance_id (relation (parsed_fields 66051 4660 "BETA"%string
                              zero_token)) = 1.
Proof.
  destruct (parsed_fields_keep_numbers 66051 4660 "BETA"%string zero_token)
    as (Hid & _).
  - vm_compute. split; [discriminate|reflexivity].
  - vm_compute. split; [discriminate|reflexivity].
  - split; [exact Hid|reflexivity].
Defined.

(** ** Transitions, creation and release together *)

(** X16. Whatever the target asked for, a transition of a live token answers 0
    or -1, changes at most the [allocated] and [locked] flags of that
    token (putting the two old flags back gives the old record), and
    touches neither the payloads, nor the allocator, nor any other token;
    when it answers -1 the heap is unchanged. *)
Theorem transition_frame (h : Heap) (a : addr) (t : PhenoToken) (x : Z) :
  valid_token h a = true -> h_tokens h !! a = Some t ->
  exists r h' t',
    gosiuml_transition (Some a) x h = Some (r, h')
    /\ (r = 0 \/ r = -1)
    /\ (r = -1 -> h' = h)
    /\ h_tokens h' !! a = Some t'
    /\ set_mem_flags (set_locked (locked (mem_flags t)))
         (set_mem_flags (set_allocated (allocated (mem_flags t))) t') = t
    /\ h_values h' = h_values h
    /\ h_avail h' = h_avail h /\ h_next h' = h_next h
    /\ (forall b, b <> a -> h_tokens h' !! b = h_tokens h !! b).
Proof.
  intros Hv Ht. rewrite (transition_eval _ _ _ x Hv Ht).
  destruct (code_legal_edge (state_of t (payload_of h t)) x).
  - exists 0, (put_token a (transition_effect x t) h), (transition_effect x t).
    split; [reflexivity|]. split; [auto|]. split; [discriminate|].
    split; [apply lookup_put_token|].
    split.
    { unfold transition_effect.
      destruct t as [ti tt tn ty tv tr [fa fl fd fp fs fc fn fu rc mz al mr]
                       tl trr tp tb].
      destruct (x =? STATE_ALLOCATED); [reflexivity|].
      destruct (x =? STATE_LOCKED); [reflexivity|].
      destruct (x =? STATE_FREED); reflexivity. }
    repeat (split; [reflexivity|]).
    intros b Hb. now apply lookup_put_token_ne.
  - exists (-1), h, t.
    split; [reflexivity|]. split; [auto|]. split; [reflexivity|].
    split; [exact Ht|].
    split.
    { now destruct t as [ti tt tn ty tv tr
                           [fa fl fd fp fs fc fn fu rc mz al mr]
                           tl trr tp tb]. }
    repeat split; reflexivity.
Qed.

Lemma transition_frame_witness :
  exists r h' t',
    gosiuml_transition (Some 1%positive) STATE_DEGRADED
      (sample_heap active_flags 700) = Some (r, h')
    /\ r = -1 /\ h' = sample_heap active_flags 700
    /\ h_tokens h' !! 1%positive = Some t'.
Proof.
  destruct (transition_frame (sample_heap active_flags 700) 1%positive _
              STATE_DEGRADED eq_refl eq_refl)
    as (r & h' & t' & Hrun & _ & Hsame & Ht' & _).
  exists r, h', t'. split; [exact Hrun|].
  assert (Hr : r = -1).
  { vm_compute in Hrun. now injection Hrun as <- _. }
  split; [exact Hr|]. split; [auto|exact Ht'].
Defined.

(** X17. FREED is not final: after a transition to FREED the state query
    answers NIL, and a request for ALLOCATED then succeeds and brings the
    token back, allocated and unlocked, with all its other fields; a token
    that was allocated and not locked is exactly as before the two
    transitions. *)
Theorem freed_token_revives (h : Heap) (a : addr) (t : PhenoToken) :
  valid_token h a = true -> h_tokens h !! a = Some t ->
  exists h1 h2,
    gosiuml_transition (Some a) STATE_FREED h = Some (0, h1)
    /\ gosiuml_get_state (Some a) h1 = Some (STATE_NIL, h1)
    /\ gosiuml_transition (Some a) STATE_ALLOCATED h1 = Some (0, h2)
    /\ h_tokens h2 !! a
       = Some (set_mem_flags (set_locked false)
                 (set_mem_flags (set_allocated true) t))
    /\ (exists s, gosiuml_get_state (Some a) h2 = Some (s, h2)
                  /\ (s = STATE_SHARED \/ s = STATE_DEGRADED
                      \/ s = STATE_ACTIVE))
    /\ (allocated (mem_flags t) = true -> locked (mem_flags t) = false ->
        h2 = h).
Proof.
  intros Hv Ht.
  set (t1 := transition_effect STATE_FREED t).
  set (h1 := put_token a t1 h).
  assert (Hv1 : valid_token h1 a = true).
  { apply (valid_token_put _ _ _ t); auto. }
  assert (Ht1 : h_tokens h1 !! a = Some t1) by apply lookup_put_token.
  assert (Hs1 : state_of t1 (payload_of h1 t1) = STATE_NIL) by reflexivity.
  set (t2 := transition_effect STATE_ALLOCATED t1).
  set (h2 := put_token a t2 h1).
  assert (Hv2 : valid_token h2 a = true).
  { apply (valid_token_put _ _ _ t1); auto. }
  assert (Ht2 : h_tokens h2 !! a = Some t2) by apply lookup_put_token.
  assert (Heq : t2 = set_mem_flags (set_locked false)
                       (set_mem_flags (set_allocated true) t)).
  { now destruct t as [ti tt tn ty tv tr
                         [fa fl fd fp fs fc fn fu rc mz al mr]
                         tl trr tp tb]. }
  exists h1, h2. split.
  { rewrite (transition_eval _ _ _ _ Hv Ht).
    replace (code_legal_edge (state_of t (payload_of h t)) STATE_FREED)
      with true; [reflexivity|].
    symmetry. apply code_legal_edge_iff. auto. }
  split.
  { rewrite (get_state_eval _ _ _ Hv1 Ht1). now rewrite Hs1. }
  split.
  { rewrite (transition_eval _ _ _ _ Hv1 Ht1). now rewrite Hs1. }
  split; [now rewrite Ht2, Heq|].
  split.
  { rewrite (get_state_eval _ _ _ Hv2 Ht2). eexists. split; [reflexivity|].
    destruct (state_of_range t2 (payload_of h2 t2)) as [E|[E|[E|[E|E]]]];
      auto; exfalso; revert E; rewrite Heq; unfold state_of; simpl;
      destruct (shared (mem_flags t)); try discriminate;
      destruct (payload_of h2 _) as [v|]; try discriminate;
      destruct (600 <? score (metrics v)); discriminate. }
  intros Ha Hl. subst h2 h1. rewrite put_token_twice.
  apply put_token_same. rewrite Ht. f_equal. rewrite Heq.
  destruct t as [ti tt tn ty tv tr [fa fl fd fp fs fc fn fu rc mz al mr]
                   tl trr tp tb].
  simpl in Ha, Hl. now subst.
Qed.

Lemma freed_token_revives_witness :
  exists h1 h2,
    gosiuml_transition (Some 1%positive) STATE_FREED
      (sample_heap active_flags 0) = Some (0, h1)
    /\ gosiuml_get_state (Some 1%positive) h1 = Some (STATE_NIL, h1)
    /\ gosiuml_transition (Some 1%positive) STATE_ALLOCATED h1 = Some (0, h2)
    /\ h2 = sample_heap active_flags 0.
Proof.
  destruct (freed_token_revives (sample_heap active_flags 0) 1%positive _
              eq_refl eq_refl)
    as (h1 & h2 & Hfree & Hnil & Hback & _ & _ & Hsame).
  exists h1, h2. repeat split; auto.
Defined.

(** X18. Creating a token and releasing it at once gives back everything: when
    the two next addresses of the allocator are fresh, the token and
    payload stores and the allocator's reserve are as before the
    creation. *)
Theorem create_then_free_restores (h : Heap) (n : nat) (ty : Z)
  (name : option string) :
  h_avail h = S n -> h_tokens h !! h_next h = None ->
  h_values h !! Pos.succ (h_next h) = None ->
  exists a h1 h2,
    gosiuml_create_token ty name h = Some (Some a, h1)
    /\ gosiuml_free_token (Some a) h1 = Some (tt, h2)
    /\ h_tokens h2 = h_tokens h /\ h_values h2 = h_values h
    /\ h_avail h2 = h_avail h.
Proof.
  intros Hav Hft Hfv. rewrite (create_eval _ _ _ _ Hav).
  destruct n as [|m]; eexists _, _, _; (split; [reflexivity|]);
    unfold gosiuml_free_token, bind, load_token; simpl;
    rewrite lookup_insert_eq; simpl.
  - unfold free_token_block; simpl. rewrite lookup_insert_eq.
    split; [reflexivity|]. simpl.
    split; [now apply delete_insert_id|]. split; [reflexivity|].
    now rewrite Hav.
  - unfold free_value_block; simpl. rewrite lookup_insert_eq.
    unfold free_token_block; simpl. rewrite lookup_insert_eq.
    split; [reflexivity|]. simpl.
    split; [now apply delete_insert_id|].
    split; [now apply delete_insert_id|]. now rewrite Hav.
Qed.

Lemma create_then_free_restores_witness :
  exists a h1 h2,
    gosiuml_create_token NODE_IDENTITY (Some "TEST_NODE"%string) stocked_heap
    = Some (Some a, h1)
    /\ gosiuml_free_token (Some a) h1 = Some (tt, h2)
    /\ h_tokens h2 = h_tokens stocked_heap
    /\ h_values h2 = h_values stocked_heap.
Proof.
  destruct (create_then_free_restores stocked_heap 1 NODE_IDENTITY
              (Some "TEST_NODE"%string) eq_refl eq_refl eq_refl)
    as (a & h1 & h2 & Hc & Hf & Ht & Hv & _).
  exists a, h1, h2. repeat split; assumption.
Defined.

(** X19. After a token has been released, everything that goes through its
    pointer is undefined: the state query, any transition, the
    degradation score, and a second release. *)
Theorem released_pointer_dangles (h : Heap) (a : addr) (t : PhenoToken)
  (x : Z) :
  valid_token h a = true -> h_tokens h !! a = Some t ->
  exists h',
    gosiuml_free_token (Some a) h = Some (tt, h')
    /\ gosiuml_get_state (Some a) h' = None
    /\ gosiuml_transition (Some a) x h' = None
    /\ calculate_degradation_score (Some a) h' = None
    /\ gosiuml_free_token (Some a) h' = None.
Proof.
  intros Hv Ht. exists (release a t h).
  split; [now apply free_eval|].
  assert (Hgone : h_tokens (release a t h) !! a = None)
    by apply lookup_delete_eq.
  assert (Hload : load_token a (release a t h) = None).
  { unfold load_token. now rewrite Hgone. }
  unfold gosiuml_transition, gosiuml_get_state, calculate_degradation_score,
    gosiuml_free_token, bind.
  rewrite Hload. auto.
Qed.

Lemma released_pointer_dangles_witness :
  exists h',
    gosiuml_free_token (Some 1%positive) (sample_heap active_flags 0)
    = Some (tt, h')
    /\ gosiuml_get_state (Some 1%positive) h' = None.
Proof.
  destruct (released_pointer_dangles (sample_heap active_flags 0) 1%positive
              _ STATE_LOCKED eq_refl eq_refl) as (h' & Hfree & Hstate & _).
  exists h'. split; assumption.
Defined.

(** ** The checks of the state machine on real tokens *)

(** X20. The step from ACTIVE to DEGRADED answers DEGRADED exactly when the
    score of the payload is 614 or more (the scores whose ratio to 1023
    exceeds 0.6); it then rewrites the score field of that payload, within
    its 10 bits, and nothing else: the other metrics, the header and the
    data of the payload and all tokens are as before.  Below 614 it
    answers ACTIVE and changes nothing. *)
Theorem active_to_degraded_frame (sm : StateMachine) (h : Heap) (a : addr)
  (t : PhenoToken) (va : addr) (v : PhenoTokenValue) :
  token sm = Some a -> valid_token h a = true -> h_tokens h !! a = Some t ->
  value t = Some va -> h_values h !! va = Some v ->
  (614 <= score (metrics v) ->
   exists v',
     transition_active_to_degraded sm h
     = Some (STATE_DEGRADED, put_value va v' h)
     /\ header v' = header v /\ data v' = data v
     /\ confidence (metrics v') = confidence (metrics v)
     /\ retry_count (metrics v') = retry_count (metrics v)
     /\ priority (metrics v') = priority (metrics v)
     /\ 0 <= score (metrics v') < 1024)
  /\ (score (metrics v) < 614 ->
      transition_active_to_degraded sm h = Some (STATE_ACTIVE, h)).
Proof.
  intros Hsm Hv Ht Hva Hlv.
  assert (Hp : payload_of h t = Some v).
  { unfold payload_of. now rewrite Hva. }
  pose proof (payload_score _ _ _ _ Hv Ht Hp) as Hs.
  unfold transition_active_to_degraded, bind.
  rewrite Hsm, (degradation_score_eval _ _ _ Hv Ht), Hp.
  rewrite (score_ratio_threshold _ Hs), (score_ratio_rewritten _ Hs).
  split.
  - intros Hge. apply Z.leb_le in Hge. rewrite Hge.
    rewrite (load_token_live _ _ _ Ht), Hva.
    unfold update_value, bind, load_value, store_value.
    rewrite Hlv; simpl. rewrite Hlv.
    eexists. split; [reflexivity|]. simpl.
    repeat (split; [reflexivity|]).
    rewrite bitfield_mod by lia. apply Z.mod_pos_bound. lia.
  - intros Hlt. apply Z.leb_gt in Hlt. now rewrite Hlt.
Qed.

Lemma active_to_degraded_frame_witness :
  (exists v',
     transition_active_to_degraded sample_machine
       (sample_heap active_flags 700)
     = Some (STATE_DEGRADED,
             put_value 2%positive v' (sample_heap active_flags 700)))
  /\ transition_active_to_degraded sample_machine
       (sample_heap active_flags 613)
     = Some (STATE_ACTIVE, sample_heap active_flags 613).
Proof.
  split.
  - destruct (proj1 (active_to_degraded_frame sample_machine
                       (sample_heap active_flags 700) 1%positive _
                       2%positive _ eq_refl eq_refl eq_refl eq_refl eq_refl))
      as (v' & Hrun & _).
    { vm_compute. discriminate. }
    exists v'. exact Hrun.
  - apply (proj2 (active_to_degraded_frame sample_machine
                    (sample_heap active_flags 613) 1%positive _
                    2%positive _ eq_refl eq_refl eq_refl eq_refl eq_refl)).
    vm_compute. reflexivity.
Defined.

(** X21. The step from LOCKED to ACTIVE succeeds exactly when the token has a
    payload whose confidence is above 100.  It then sets the [coherent]
    flag and nothing else: the [locked] flag stays, so that the state
    query goes on reporting the token LOCKED although the machine is told
    ACTIVE.  Otherwise the answer is LOCKED and nothing changes. *)
Theorem locked_to_active_keeps_lock (sm : StateMachine) (h : Heap)
  (a : addr) (t : PhenoToken) :
  token sm = Some a -> valid_token h a = true -> h_tokens h !! a = Some t ->
  allocated (mem_flags t) = true -> locked (mem_flags t) = true ->
  ((exists v, payload_of h t = Some v /\ 100 < confidence (metrics v)) ->
   transition_locked_to_active sm h
   = Some (STATE_ACTIVE, put_token a (set_mem_flags (set_coherent true) t) h)
   /\ gosiuml_get_state (Some a)
        (put_token a (set_mem_flags (set_coherent true) t) h)
      = Some (STATE_LOCKED,
              put_token a (set_mem_flags (set_coherent true) t) h))
  /\ (~ (exists v, payload_of h t = Some v /\ 100 < confidence (metrics v)) ->
      transition_locked_to_active sm h = Some (STATE_LOCKED, h)).
Proof.
  intros Hsm Hv Ht Ha Hl.
  assert (Hproof : verify_geometric_proof (Some a) h
                   = Some (match payload_of h t with
                           | Some v => 100 <? confidence (metrics v)
                           | None => false
                           end, h)).
  { unfold verify_geometric_proof, bind, payload_of.
    rewrite (load_token_live _ _ _ Ht).
    destruct (value t) as [va|] eqn:Hva; [|reflexivity].
    destruct (valid_token_payload _ _ _ _ Hv Ht Hva) as (v & Hlv & _).
    unfold load_value. now rewrite Hlv. }
  unfold transition_locked_to_active, bind. rewrite Hsm, Hproof.
  split.
  - intros (v & Hp & Hc). rewrite Hp.
    apply Z.ltb_lt in Hc. rewrite Hc.
    rewrite (update_token_live _ _ _ Ht). split; [reflexivity|].
    assert (Hv' : valid_token
                    (put_token a (set_mem_flags (set_coherent true) t) h) a
                  = true).
    { apply (valid_token_put _ _ _ t); auto. }
    rewrite (get_state_eval _ _ _ Hv' (lookup_put_token _ _ _)).
    unfold state_of; simpl. now rewrite Ha, Hl.
  - intros Hno. destruct (payload_of h t) as [v|]; [|reflexivity].
    destruct (Z.ltb_spec 100 (confidence (metrics v))); [|reflexivity].
    exfalso. apply Hno. eauto.
Qed.

Lemma locked_to_active_keeps_lock_witness :
  transition_locked_to_active sample_machine confident_heap
  = Some (STATE_ACTIVE,
          put_token 1%positive
            (set_mem_flags (set_coherent true)
               (set_value (Some 2%positive)
                  (set_mem_flags (fun _ => locked_flags) zero_token)))
            confident_heap)
  /\ transition_locked_to_active sample_machine (sample_heap locked_flags 0)
     = Some (STATE_LOCKED, sample_heap locked_flags 0).
Proof.
  split.
  - apply (proj1 (locked_to_active_keeps_lock sample_machine confident_heap
                    1%positive _ eq_refl eq_refl eq_refl eq_refl eq_refl)).
    eexists. split; [reflexivity|]. reflexivity.
  - apply (proj2 (locked_to_active_keeps_lock sample_machine
                    (sample_heap locked_flags 0) 1%positive _
                    eq_refl eq_refl eq_refl eq_refl eq_refl)).
    intros (v & Hp & Hc). vm_compute in Hp. injection Hp as <-.
    vm_compute in Hc. discriminate.
Defined.

(** ** The self-test *)

(** X22. The self-test of the state machine answers -1 without a context or
    when no token can be allocated, and 0 otherwise; in that case it
    releases what it allocated: when the two next addresses of the
    allocator are fresh the stores and the reserve are as before. *)
Theorem self_test_returns (h : Heap) :
  gosiuml_test_state_machine true h = Some (-1, h)
  /\ (h_avail h = O -> gosiuml_test_state_machine false h = Some (-1, h))
  /\ (h_avail h <> O ->
      exists h',
        gosiuml_test_state_machine false h = Some (0, h')
        /\ (h_tokens h !! h_next h = None ->
            h_values h !! Pos.succ (h_next h) = None ->
            h_tokens h' = h_tokens h /\ h_values h' = h_values h
            /\ h_avail h' = h_avail h)).
Proof.
  split; [reflexivity|]. split.
  - intros Hav. unfold gosiuml_test_state_machine, bind.
    now rewrite (create_exhausted _ _ _ Hav).
  - intros Hav. destruct (h_avail h) as [|n] eqn:En; [congruence|].
    unfold gosiuml_test_state_machine, bind.
    rewrite (create_eval _ _ _ _ En).
    destruct n as [|m].
    + unfold gosiuml_transition, gosiuml_get_state, gosiuml_free_token,
        update_token, bind, load_token, store_token, put_token,
        free_token_block; simpl.
      heap_steps. eexists. split; [reflexivity|]. simpl.
      intros Hft _. split; [now apply delete_insert_id|]. auto.
    + unfold gosiuml_transition, gosiuml_get_state, gosiuml_free_token,
        update_token, bind, load_token, load_value, store_token, put_token,
        free_token_block, free_value_block; simpl.
      heap_steps. eexists. split; [reflexivity|]. simpl.
      intros Hft Hfv. split; [now apply delete_insert_id|].
      split; [now apply delete_insert_id|]. reflexivity.
Qed.

Lemma self_test_returns_witness :
  exists h',
    gosiuml_test_state_machine false stocked_heap = Some (0, h')
    /\ h_tokens h' = h_tokens stocked_heap
    /\ h_values h' = h_values stocked_heap.
Proof.
  destruct (proj2 (proj2 (self_test_returns stocked_heap)))
    as (h' & Hrun & Hsame); [discriminate|].
  destruct (Hsame eq_refl eq_refl) as (Ht & Hv & _).
  exists h'. repeat split; assumption.
Defined.

(** ** Names *)

Lemma length_substring_0 (n : nat) (s : string) :
  String.length (substring 0 n s) = Nat.min n (String.length s).
Proof.
  revert n. induction s as [|c s IH]; intros [|n]; simpl; auto.
Qed.

Lemma prefix_substring_0 (n : nat) (s : string) :
  String.prefix (substring 0 n s) s = true.
Proof.
  revert n. induction s as [|c s IH]; intros [|n]; simpl; auto.
  destruct (Ascii.ascii_dec c c); [apply IH|congruence].
Qed.

Lemma substring_0_all (n : nat) (s : string) :
  (String.length s <= n)%nat -> substring 0 n s = s.
Proof.
  revert n. induction s as [|c s IH]; intros [|n] Hlen; simpl in *;
    try reflexivity; try lia.
  f_equal. apply IH. lia.
Qed.

(** X23. The name of a created token is the given name cut to its first 63
    characters: it always fits the 64-byte buffer with its terminator, and
    a name of at most 63 characters is kept whole.  The type tag is stored
    modulo 256. *)
Theorem create_token_name (h : Heap) (n : nat) (ty : Z) (name : string) :
  h_avail h = S n ->
  exists a h' t,
    gosiuml_create_token ty (Some name) h = Some (Some a, h')
    /\ h_tokens h' !! a = Some t
    /\ (String.length (token_name t) <= 63)%nat
    /\ String.prefix (token_name t) name = true
    /\ ((String.length name <= 63)%nat -> token_name t = name)
    /\ token_type t = ty mod 256.
Proof.
  intros Hav. rewrite (create_eval _ _ _ _ Hav).
  destruct n as [|m]; eexists _, _, _; (split; [reflexivity|]); simpl;
    (split; [apply lookup_insert_eq|]); unfold created_token; simpl;
    unfold strncpy_name;
    (split; [rewrite length_substring_0; lia|]);
    (split; [apply prefix_substring_0|]);
    (split; [apply substring_0_all|apply u8_mod]).
Qed.

Lemma create_token_name_witness :
  exists a h' t,
    gosiuml_create_token 257 (Some "TEST"%string) (empty_heap 2)
    = Some (Some a, h')
    /\ h_tokens h' !! a = Some t
    /\ token_name t = "TEST"%string /\ token_type t = 1.
Proof.
  destruct (create_token_name (empty_heap 2) 1 257 "TEST"%string eq_refl)
    as (a & h' & t & Hrun & Ht & _ & _ & Hname & Hty).
  exists a, h', t. split; [exact Hrun|]. split; [exact Ht|].
  split; [apply Hname; simpl; lia|exact Hty].
Defined.
